(** * Comparative feature evaluation: activation patching utilities

    A shallow embedding of [src/utils.py] and of the file naming of
    [generate_dirs.py], with the properties stated in the specification.

    Conventions.
    - Floating point numbers are idealised as real numbers ([R]).
    - A torch tensor is a shape together with its row-major data.
    - Python exceptions are values of [exn]; a computation that may raise
      returns a [result]; code that mutates objects threads a store. *)

From Stdlib Require Import Reals Lra ZArith Lia Ascii String.
From Stdlib Require Import FunctionalExtensionality.
From stdpp Require Import base option list list_numbers strings pretty gmap.

(** ** Exceptions and results *)

Inductive exn : Type :=
| ValueError (arg : R)            (* raise ValueError(gamma) *)
| UnpackError                     (* ValueError: not enough values to unpack *)
| IntParseError (s : string)      (* ValueError: invalid literal for int() *)
| AttributeError (attr : string)
| TypeError
| IndexError
| KeyError
| NotImplementedError
| RuntimeError.                   (* shape mismatch reported by torch *)

Inductive result (A : Type) : Type :=
| Ok (a : A)
| Raise (e : exn).
Arguments Ok {A} a.
Arguments Raise {A} e.

Definition rbind {A B} (r : result A) (k : A -> result B) : result B :=
  match r with
  | Ok a => k a
  | Raise e => Raise e
  end.

Declare Scope result_scope.
Delimit Scope result_scope with result.
Notation "'let?' x ':=' r 'in' k" := (rbind r (fun x => k))
  (at level 10, x pattern, r at level 100, k at level 200) : result_scope.

(** Code that mutates a store [S] and may raise: the store at the point of
    the exception is kept, as Python keeps the heap. *)
Definition M (S A : Type) : Type := S -> result A * S.

Definition mret {S A} (a : A) : M S A := fun s => (Ok a, s).
Definition mraise {S A} (e : exn) : M S A := fun s => (Raise e, s).
Definition lift {S A} (r : result A) : M S A := fun s => (r, s).
Definition mbind {S A B} (c : M S A) (k : A -> M S B) : M S B :=
  fun s => match c s with
           | (Ok a, s') => k a s'
           | (Raise e, s') => (Raise e, s')
           end.

(** [try: body finally: cleanup]; [cleanup] itself does not raise here. *)
Definition try_finally {S A} (body : M S A) (cleanup : S -> S) : M S A :=
  fun s => let '(r, s') := body s in (r, cleanup s').

(** [try: body except Exception as e: raise e]: the same exception goes on. *)
Definition reraise {S A} (body : M S A) : M S A :=
  fun s => match body s with
           | (Ok a, s') => (Ok a, s')
           | (Raise e, s') => (Raise e, s')
           end.

Declare Scope monad_scope.
Delimit Scope monad_scope with monad.
Notation "x <- c ; k" := (mbind c (fun x => k))
  (at level 20, c at level 100, k at level 200) : monad_scope.

(** ** Tensors *)

Module Tensor.
Local Open Scope R_scope.
Local Open Scope result_scope.

Record tensor : Type := mkTensor { shape : list nat; data : list R }.

Definition numel (s : list nat) : nat := foldr Nat.mul 1%nat s.

(** The invariant every torch tensor satisfies. *)
Definition tensor_wf (t : tensor) : Prop :=
  length (data t) = numel (shape t).

(** A Python number, seen as a 0-dimensional tensor. *)
Definition scalar (x : R) : tensor := mkTensor [] [x].

(** [rows h t]: the vectors along the last axis, of size [h]. *)
Definition rows (h : nat) (t : tensor) : list (list R) :=
  reshape (replicate (numel (removelast (shape t))) h) (data t).

Definition last_dim (t : tensor) : option nat := last (shape t).

(** *** Broadcasting of elementwise binary operations *)

Fixpoint broadcast_shapes (s1 s2 : list nat) : option (list nat) :=
  match s1, s2 with
  | [], [] => Some []
  | d1 :: s1', d2 :: s2' =>
      match broadcast_shapes s1' s2' with
      | Some s =>
          if (d1 =? d2)%nat then Some (d1 :: s)
          else if (d1 =? 1)%nat then Some (d2 :: s)
          else if (d2 =? 1)%nat then Some (d1 :: s)
          else None
      | None => None
      end
  | _, _ => None
  end.

(** Left-pad a shape with 1s up to rank [n]. *)
Definition pad_shape (n : nat) (s : list nat) : list nat :=
  replicate (n - length s) 1%nat ++ s.

(** [expand src tgt d]: the data of a tensor of shape [src] viewed at
    shape [tgt]; axes of size 1 are repeated. *)
Fixpoint expand (src tgt : list nat) (d : list R) : list R :=
  match src, tgt with
  | s :: src', t :: tgt' =>
      let parts := reshape (replicate s (numel src')) d in
      if (s =? t)%nat then mjoin (map (expand src' tgt') parts)
      else mjoin (replicate t (expand src' tgt' d))
  | _, _ => d
  end.

Definition broadcast2 (f : R -> R -> R) (a b : tensor) : result tensor :=
  let n := max (length (shape a)) (length (shape b)) in
  let sa := pad_shape n (shape a) in
  let sb := pad_shape n (shape b) in
  match broadcast_shapes sa sb with
  | Some s => Ok (mkTensor s (zip_with f (expand sa s (data a))
                                         (expand sb s (data b))))
  | None => Raise RuntimeError
  end.

Definition tadd : tensor -> tensor -> result tensor := broadcast2 Rplus.
Definition tsub : tensor -> tensor -> result tensor := broadcast2 Rminus.

(** [c * t] for a Python number [c]. *)
Definition tscale (c : R) (t : tensor) : tensor :=
  mkTensor (shape t) (map (Rmult c) (data t)).

(** [t[k]] for a Python integer [k]; negative indices count from the end. *)
Definition tindex (t : tensor) (k : Z) : result tensor :=
  match shape t with
  | [] => Raise IndexError
  | n :: s =>
      if ((- Z.of_nat n <=? k) && (k <? Z.of_nat n))%Z then
        let i := Z.to_nat (if (k <? 0)%Z then k + Z.of_nat n else k)%Z in
        Ok (mkTensor s (take (numel s) (drop (i * numel s) (data t))))
      else Raise IndexError
  end.

(** Iterating over a tensor: the list of its slices along axis 0. *)
Definition tunbind (t : tensor) : result (list tensor) :=
  match shape t with
  | [] => Raise TypeError
  | n :: s => Ok (map (mkTensor s) (reshape (replicate n (numel s)) (data t)))
  end.

(** [t[None, :]] *)
Definition tunsqueeze0 (t : tensor) : result tensor :=
  match shape t with
  | [] => Raise IndexError
  | _ => Ok (mkTensor (1%nat :: shape t) (data t))
  end.

(** *** Vectors *)

Definition dot (u v : list R) : R := foldr Rplus 0 (zip_with Rmult u v).
Definition vadd (u v : list R) : list R := zip_with Rplus u v.
Definition vscale (c : R) (v : list R) : list R := map (Rmult c) v.
Definition vzero (h : nat) : list R := replicate h 0.

(** The combination [sum_n c_n * d_n] of vectors of size [h]. *)
Definition lincomb (h : nat) (cs : list R) (D : list (list R)) : list R :=
  foldr vadd (vzero h) (zip_with vscale cs D).

(** [torch.linalg.norm]: the 2-norm of the flattened tensor. *)
Definition norm (t : tensor) : R := sqrt (foldr Rplus 0 (map (fun x => x * x) (data t))).

(** *** The two contractions used by [project] *)

(** [einsum("n h, ...h -> ...n", dirs, x)] *)
Definition einsum_nh_h_n (dirs x : tensor) : result tensor :=
  match shape dirs, last_dim x with
  | [n; h], Some h' =>
      if (h =? h')%nat then
        Ok (mkTensor (removelast (shape x) ++ [n])
              (mjoin (map (fun v => map (fun d => dot d v) (rows h dirs))
                          (rows h x))))
      else Raise RuntimeError
  | _, _ => Raise RuntimeError
  end.

(** [einsum("...n, n h -> ...h", c, dirs)] *)
Definition einsum_n_nh_h (c dirs : tensor) : result tensor :=
  match shape dirs, last_dim c with
  | [n; h], Some n' =>
      if (n =? n')%nat then
        Ok (mkTensor (removelast (shape c) ++ [h])
              (mjoin (map (fun cs => lincomb h cs (rows h dirs))
                          (rows n c))))
      else Raise RuntimeError
  | _, _ => Raise RuntimeError
  end.

(** [einsum("...h, h -> ...", x, d)] *)
Definition einsum_h_h (x d : tensor) : result tensor :=
  match shape d, last_dim x with
  | [h], Some h' =>
      if (h =? h')%nat then
        Ok (mkTensor (removelast (shape x))
              (map (fun v => dot v (data d)) (rows h x)))
      else Raise RuntimeError
  | _, _ => Raise RuntimeError
  end.

(** [einsum("h, ...->...h", d, c)] *)
Definition einsum_outer (d c : tensor) : result tensor :=
  match shape d with
  | [h] =>
      Ok (mkTensor (shape c ++ [h])
            (mjoin (map (fun n => map (fun dk => dk * n) (data d)) (data c))))
  | _ => Raise RuntimeError
  end.

(** Elementwise operations. *)
Definition tmap (f : R -> R) (t : tensor) : tensor :=
  mkTensor (shape t) (map f (data t)).
Definition tmul : tensor -> tensor -> result tensor := broadcast2 Rmult.
Definition tdivt : tensor -> tensor -> result tensor := broadcast2 Rdiv.

(** [torch.sum(t, dim=-1)] *)
Definition tsum_last (t : tensor) : tensor :=
  match last_dim t with
  | Some h => mkTensor (removelast (shape t))
                (map (foldr Rplus 0) (rows h t))
  | None => t
  end.

(** [t[..., None]] *)
Definition tunsqueeze_last (t : tensor) : tensor :=
  mkTensor (shape t ++ [1%nat]) (data t).

End Tensor.

(** ** Projections ([project], [project_cone]) *)

Module Projection.
Import Tensor.
Local Open Scope R_scope.
Local Open Scope result_scope.

(** [project(dir, dirs, strength=1)] *)
Definition project (dir dirs : tensor) (strength : R) : result tensor :=
  let? inner_products := einsum_nh_h_n dirs dir in
  let? comb := einsum_n_nh_h inner_products dirs in
  tsub dir (tscale strength comb).

(** What [project] does to one vector [x], for the direction rows [D]:
    it removes [strength] times the sum of the [(d . x) d]. *)
Definition project_row (h : nat) (D : list (list R)) (strength : R)
    (x : list R) : list R :=
  zip_with Rminus x
    (vscale strength (lincomb h (map (fun d => dot d x) D) D)).

(** Rows of unit length, orthogonal to one another. *)
Definition orthonormal (D : list (list R)) : Prop :=
  forall i j di dj, D !! i = Some di -> D !! j = Some dj ->
    dot di dj = if decide (i = j) then 1 else 0.

(** The cosine of the angle between [x] and [d], as [project_cone] computes
    it, and the vectors it finds outside the cone around [d]. *)
Definition cosine (d x : list R) : R :=
  dot x d / sqrt (foldr Rplus 0 (map (fun a => a * a) x)).

Definition outside_cone (gamma : R) (d x : list R) : Prop :=
  Rabs (cosine d x) <= cos gamma.

Definition in_cone (gamma c : R) : R :=
  if Rlt_dec (cos gamma) (Rabs c) then 1 else 0.

(** What one iteration of [project_cone] does to one vector [x], for the
    direction [d]: it removes [d * norm(x) * coef], where [coef] is
    [cos - sqrt(1 - cos^2) / tan(gamma)] inside the cone and 0 outside. *)
Definition cone_row (gamma : R) (d x : list R) : list R :=
  let norm_x := sqrt (foldr Rplus 0 (map (fun a => a * a) x)) in
  let c := cosine d x in
  zip_with Rminus x
    (map (fun dk => dk * norm_x
                    * ((c - sqrt (1 - c * c) / tan gamma) * in_cone gamma c))
         d).

(** One iteration of the loop of [project_cone]; [Xi] is [Xs[i]].  Over
    the reals the division by the norm is total; for a zero vector torch
    yields nan, so the model stands for the code on nonzero vectors
    only. *)
Definition cone_step (dirs : tensor) (gamma : R) (i : nat) (Xi : tensor)
  : result tensor :=
  let norms_i := tmap sqrt (tsum_last (tmap (fun x => x * x) Xi)) in
  let? d := tindex dirs (- (Z.of_nat i + 1)) in
  let? dots := einsum_h_h Xi d in
  let? cosines_i := tdivt dots norms_i in
  let? outer := einsum_outer d norms_i in
  let? sines := tdivt (tmap (fun c => sqrt (1 - c * c)) cosines_i)
                      (scalar (tan gamma)) in
  let? diff := tsub cosines_i sines in
  let? coef := tmul diff (tmap (in_cone gamma) cosines_i) in
  let? delta := tmul outer (tunsqueeze_last coef) in
  tsub Xi delta.

(** [for i in range(n)], starting at [i]. *)
Fixpoint cone_loop (dirs : tensor) (gamma : R) (n i : nat) (Xi : tensor)
  : result tensor :=
  match n with
  | O => Ok Xi
  | S n' =>
      let? Xnext := cone_step dirs gamma i Xi in
      cone_loop dirs gamma n' (S i) Xnext
  end.

(** [project_cone(X, dirs, gamma)] *)
Definition project_cone (X dirs : tensor) (gamma : R) : result tensor :=
  if Rle_dec gamma 0 then Raise (ValueError gamma)
  else if Rge_dec gamma (PI / 2) then Raise (ValueError gamma)
  else
    match shape dirs with
    | [] => Raise IndexError
    | n :: _ => cone_loop dirs gamma n 0 X
    end.

End Projection.

(** ** Forward hooks: [get_activations], [run_and_modify],
       [create_frankenstein] *)

Module Hooks.
Import Tensor.
Local Open Scope result_scope.
Local Open Scope monad_scope.

(** Identity of an [nn.Module] object. *)
Definition module_id : Type := nat.

(** A batch of token id sequences. *)
Definition tokens : Type := list (list nat).

(** What a module returns: a tensor, or a tuple led by the hidden states. *)
Inductive value : Type :=
| VTensor (t : tensor)
| VTuple (items : list tensor).

(** The dict [activations], keyed by module. *)
Abbreviation acts := (gmap module_id tensor).

(** [hook(module, input, output)]: returns [None] or the new output; the
    recording hook also writes into [activations]. *)
Definition hook : Type :=
  module_id -> value -> value -> acts -> result (option value * acts).

(** The forward hooks of every module ([_forward_hooks], an ordered dict
    from handle id to hook) and torch's global handle counter. *)
Record hook_state : Type := mkHookState {
  next_id : nat;
  forward_hooks : gmap module_id (list (nat * hook))
}.

Definition hooks_of (s : hook_state) (m : module_id) : list (nat * hook) :=
  default [] (forward_hooks s !! m).

(** A [RemovableHandle]. *)
Definition handle : Type := (module_id * nat)%type.

Definition register_forward_hook (m : module_id) (f : hook)
  : M hook_state handle :=
  fun s =>
    (Ok (m, next_id s),
     mkHookState (S (next_id s))
       (<[m := hooks_of s m ++ [(next_id s, f)]]> (forward_hooks s))).

(** [handle.remove()] *)
Definition remove (hd : handle) (s : hook_state) : hook_state :=
  mkHookState (next_id s)
    (<[hd.1 := filter (fun p => p.1 <> hd.2) (hooks_of s hd.1)]>
       (forward_hooks s)).

(** A model: an embedding of the tokens followed by its layers in order
    (for GPT-2, the blocks [transformer.h]). *)
Record model : Type := mkModel {
  embed : tokens -> result value;
  layers : list (module_id * (value -> result value))
}.

(** [Module.__call__]: after [forward], each hook in registration order;
    a result other than [None] replaces the output. *)
Fixpoint run_hooks (m : module_id) (hs : list (nat * hook))
    (inp out : value) (a : acts) : result (value * acts) :=
  match hs with
  | [] => Ok (out, a)
  | (_, f) :: hs' =>
      let? ra := f m inp out a in
      run_hooks m hs' inp (default out ra.1) ra.2
  end.

Fixpoint run_layers (s : hook_state)
    (ls : list (module_id * (value -> result value)))
    (x : value) (a : acts) : result (value * acts) :=
  match ls with
  | [] => Ok (x, a)
  | (m, f) :: ls' =>
      let? y := f x in
      let? ya := run_hooks m (hooks_of s m) x y a in
      run_layers s ls' ya.1 ya.2
  end.

(** Calling the model on [tokens] under the hooks of [s], writing into [a]. *)
Definition call_model (mdl : model) (s : hook_state) (t : tokens) (a : acts)
  : result (value * acts) :=
  let? x := embed mdl t in
  run_layers s (layers mdl) x a.

(** [for module in modules: handles.append(module.register_forward_hook(f))] *)
Fixpoint register_all (hooks : list (module_id * hook))
  : M hook_state (list handle) :=
  match hooks with
  | [] => mret []
  | (m, f) :: rest =>
      hd <- register_forward_hook m f ;
      hds <- register_all rest ;
      mret (hd :: hds)
  end.

(** [for handle in handles: handle.remove()] *)
Definition remove_all (handles : list handle) (s : hook_state) : hook_state :=
  foldl (fun s hd => remove hd s) s handles.

(** [out[0] if isinstance(out, tuple) else out] *)
Definition out_tensor (out : value) : result tensor :=
  match out with
  | VTuple [] => Raise IndexError
  | VTuple (t :: _) => Ok t
  | VTensor t => Ok t
  end.

(** The closure [hook_fn] of [get_activations]. *)
Definition hook_fn (operation : tensor -> result tensor) : hook :=
  fun module inp out a =>
    let? out_ := out_tensor out in
    let? v := operation out_ in
    Ok (None, <[module := v]> a).

(** [get_activations(tokens, model, modules, operation)] *)
Definition get_activations (t : tokens) (mdl : model)
    (modules : list module_id) (operation : tensor -> result tensor)
  : M hook_state acts :=
  handles <- register_all (map (fun m => (m, hook_fn operation)) modules) ;
  try_finally
    (reraise (fun s => (let? r := call_model mdl s t ∅ in Ok r.2, s)))
    (remove_all handles).

(** [run_and_modify(tokens, model, modification_fns)]; the dict is given by
    its items in insertion order. *)
Definition run_and_modify (t : tokens) (mdl : model)
    (modification_fns : list (module_id * hook)) : M hook_state value :=
  handles <- register_all modification_fns ;
  try_finally
    (reraise (fun s => (let? r := call_model mdl s t ∅ in Ok r.1, s)))
    (remove_all handles).

(** [y, *rest = output] *)
Definition unpack (output : value) : result (tensor * list tensor) :=
  let? items := match output with
                | VTuple items => Ok items
                | VTensor t => tunbind t
                end in
  match items with
  | [] => Raise UnpackError
  | y :: rest => Ok (y, rest)
  end.

Section Frankenstein.
Variable dirs : tensor.
Variable mdl : model.
Variable layer_module : module_id.
Variable additional : tensor.
Variable projection_fn : tensor -> tensor -> result tensor.

(** The closure [mix] of [frankenstein]. *)
Definition mix (proj_act1 : tensor) : hook :=
  fun module input output a =>
    let? yr := unpack output in
    let? p := projection_fn yr.1 dirs in
    let? q := tadd p proj_act1 in
    let? y := tadd q additional in
    Ok (Some (VTuple (y :: yr.2)), a).

(** The first two statements of [frankenstein]: the value of [proj_act1]. *)
Definition proj_act1_of (inp1 : tokens) : M hook_state tensor :=
  activations <- get_activations inp1 mdl [layer_module]
                   (fun x => tindex x 0) ;
  match activations !! layer_module with
  | None => mraise KeyError
  | Some act1 =>
      lift (let? p := projection_fn act1 dirs in tsub act1 p)
  end.

(** [create_frankenstein(dirs, model, layer_module, additional,
    projection_fn)(inp1, inp2)] *)
Definition create_frankenstein (inp1 inp2 : tokens) : M hook_state value :=
  proj_act1 <- proj_act1_of inp1 ;
  run_and_modify inp2 mdl [(layer_module, mix proj_act1)].
End Frankenstein.

(** *** Notions used to state the properties *)

(** Handle ids are fresh: every registered hook has an id below the
    counter. *)
Definition hooks_wf (s : hook_state) : Prop :=
  forall m p, p ∈ hooks_of s m -> p.1 < next_id s.

(** The state in which the forward pass runs: [hooks] registered on [s]. *)
Definition registered (hooks : list (module_id * hook)) (s : hook_state)
  : hook_state :=
  (register_all hooks s).2.

(** The layers applied one after the other, no hook involved. *)
Fixpoint run_plain (ls : list (module_id * (value -> result value)))
    (x : value) : result value :=
  match ls with
  | [] => Ok x
  | (_, f) :: ls' => let? y := f x in run_plain ls' y
  end.

(** The probe as a function of a model cut at the layer [f], between the
    layers [pre] and [post], with no mention of hooks: [inp1] gives the
    signal [act1 - projection_fn(act1, dirs)], and the output of [f] on
    [inp2] becomes [projection_fn(y, dirs)] plus that signal plus
    [additional]. *)
Definition transplant (dirs additional : tensor)
    (projection_fn : tensor -> tensor -> result tensor)
    (embed : tokens -> result value)
    (pre : list (module_id * (value -> result value)))
    (f : value -> result value)
    (post : list (module_id * (value -> result value)))
    (inp1 inp2 : tokens) : result value :=
  let? x1 := embed inp1 in
  let? u1 := run_plain pre x1 in
  let? o1 := f u1 in
  let? h1 := out_tensor o1 in
  let? act1 := tindex h1 0 in
  let? _ := run_plain post o1 in
  let? p1 := projection_fn act1 dirs in
  let? signal := tsub act1 p1 in
  let? x2 := embed inp2 in
  let? u2 := run_plain pre x2 in
  let? o2 := f u2 in
  let? yr := unpack o2 in
  let? p2 := projection_fn yr.1 dirs in
  let? q := tadd p2 signal in
  let? y := tadd q additional in
  run_plain post (VTuple (y :: yr.2)).

End Hooks.

(** ** Python strings *)

Module PyStr.

(** Whitespace as [str.split()] sees it, within ASCII. *)
Definition is_space (c : ascii) : bool :=
  let n := nat_of_ascii c in
  ((9 <=? n) && (n <=? 13)) || ((28 <=? n) && (n <=? 32)).

Definition snoc (w : string) (c : ascii) : string := w +:+ String c EmptyString.

(** [s.split()]; [w] is the word being read. *)
Fixpoint split_ws_go (w : string) (s : string) : list string :=
  match s with
  | EmptyString => if decide (w = EmptyString) then [] else [w]
  | String c s' =>
      if is_space c
      then if decide (w = EmptyString) then split_ws_go EmptyString s'
           else w :: split_ws_go EmptyString s'
      else split_ws_go (snoc w c) s'
  end.
Definition split_ws (s : string) : list string := split_ws_go EmptyString s.

(** [s.split(sep)] for a one-character separator. *)
Fixpoint split_on_go (sep : ascii) (w : string) (s : string) : list string :=
  match s with
  | EmptyString => [w]
  | String c s' =>
      if decide (c = sep) then w :: split_on_go sep EmptyString s'
      else split_on_go sep (snoc w c) s'
  end.
Definition split_on (sep : ascii) (s : string) : list string :=
  split_on_go sep EmptyString s.

(** [sep.join(l)] *)
Definition join (sep : string) (l : list string) : string :=
  String.concat sep l.

(** [str(n)] for an integer. *)
Definition str_of_int (z : Z) : string := pretty z.

Definition digit_of (c : ascii) : option Z :=
  let n := nat_of_ascii c in
  if (48 <=? n) && (n <=? 57) then Some (Z.of_nat (n - 48)) else None.

(** Digits with single underscores between them; [acc] is the value read,
    [after_digit] tells whether the previous character was a digit. *)
Fixpoint digits_go (acc : Z) (after_digit : bool) (s : string) : option Z :=
  match s with
  | EmptyString => if after_digit then Some acc else None
  | String c s' =>
      match digit_of c with
      | Some d => digits_go (10 * acc + d) true s'
      | None =>
          if decide (c = "_"%char) then
            if after_digit then digits_go acc false s' else None
          else None
      end
  end.

Fixpoint lstrip (s : string) : string :=
  match s with
  | String c s' => if is_space c then lstrip s' else s
  | EmptyString => s
  end.

Definition rstrip (s : string) : string :=
  String.rev (lstrip (String.rev s)).

(** [int(s)] *)
Definition py_int (s : string) : result Z :=
  let body := rstrip (lstrip s) in
  let parsed :=
    match body with
    | String "-" s' => z ← digits_go 0 false s'; Some (- z)%Z
    | String "+" s' => digits_go 0 false s'
    | _ => digits_go 0 false body
    end in
  match parsed with
  | Some z => Ok z
  | None => Raise (IntParseError s)
  end.

End PyStr.

(** ** Reversible model patching *)

Module Patch.
Import Tensor Hooks.
Local Open Scope result_scope.
Local Open Scope monad_scope.

(** Address of a module object in the Python heap. *)
Definition ref : Type := nat.

(** What a module's [forward] is.  The body of a custom module reaches its
    submodules through a callback taking a dotted path relative to [self]
    (as in [self.h[0](x)]) and the argument. *)
Inductive kind : Type :=
| Custom (body : (string -> value -> result value) -> value -> result value)
| ModuleList
| ProjectionWrapper (projection : tensor -> result tensor)
                    (has_leftover : bool).

(** An [nn.Module] object: the names its class defines, the names in its
    instance [__dict__] (buffers included), its [_parameters] and its
    ordered [_modules]. *)
Record module_obj : Type := mkModule {
  m_kind : kind;
  m_class : list string;
  m_dict : list string;
  m_params : list string;
  m_modules : list (string * ref)
}.

Abbreviation heap := (gmap ref module_obj).

(** The value of an attribute: a module, or anything else. *)
Inductive attr : Type :=
| AModule (r : ref)
| AOther.

(** [d.get(name)] on an ordered dict. *)
Fixpoint lookup_module (kvs : list (string * ref)) (name : string)
  : option ref :=
  match kvs with
  | [] => None
  | (k, v) :: kvs' =>
      if decide (k = name) then Some v else lookup_module kvs' name
  end.

(** [d[name] = r] on an ordered dict. *)
Fixpoint set_module (kvs : list (string * ref)) (name : string) (r : ref)
  : list (string * ref) :=
  match kvs with
  | [] => [(name, r)]
  | (k, v) :: kvs' =>
      if decide (k = name) then (k, r) :: kvs'
      else (k, v) :: set_module kvs' name r
  end.

(** [hasattr(o, name)] *)
Definition py_hasattr (o : module_obj) (name : string) : bool :=
  bool_decide (name ∈ m_class o) || bool_decide (name ∈ m_dict o)
  || bool_decide (name ∈ m_params o)
  || bool_decide (is_Some (lookup_module (m_modules o) name)).

(** [getattr(o, name)]: ordinary lookup first, then [Module.__getattr__]. *)
Definition py_getattr (o : module_obj) (name : string) : result attr :=
  if bool_decide (name ∈ m_class o) || bool_decide (name ∈ m_dict o)
  then Ok AOther
  else if bool_decide (name ∈ m_params o) then Ok AOther
  else match lookup_module (m_modules o) name with
       | Some r => Ok (AModule r)
       | None => Raise (AttributeError name)
       end.

(** [setattr(o, name, r)] for a module [r] ([Module.__setattr__]). *)
Definition py_setattr (o : module_obj) (name : string) (r : ref)
  : result module_obj :=
  if bool_decide (name ∈ m_params o) then Raise TypeError
  else Ok (mkModule (m_kind o) (m_class o)
             (filter (fun k => k <> name) (m_dict o))
             (m_params o)
             (set_module (m_modules o) name r)).

(** [ModuleList._get_abs_string_index(idx)] *)
Definition abs_string_index (o : module_obj) (idx : Z) : result string :=
  let n := Z.of_nat (length (m_modules o)) in
  if ((- n <=? idx) && (idx <? n))%Z
  then Ok (PyStr.str_of_int (if (idx <? 0)%Z then idx + n else idx)%Z)
  else Raise IndexError.

(** [o[idx] = r] *)
Definition py_setitem (o : module_obj) (idx : Z) (r : ref)
  : result module_obj :=
  match m_kind o with
  | ModuleList =>
      let? key := abs_string_index o idx in
      py_setattr o key r
  | _ => Raise TypeError
  end.

(** [o[idx]] *)
Definition py_getitem (o : module_obj) (idx : Z) : result ref :=
  match m_kind o with
  | ModuleList =>
      let? key := abs_string_index o idx in
      match lookup_module (m_modules o) key with
      | Some r => Ok r
      | None => Raise KeyError
      end
  | _ => Raise TypeError
  end.

(** Reading an address; every address a program holds is allocated. *)
Definition deref (h : heap) (r : ref) : result module_obj :=
  match h !! r with
  | Some o => Ok o
  | None => Raise RuntimeError
  end.

(** The loop of [Module.get_submodule]. *)
Fixpoint walk (h : heap) (mod_ : ref) (atoms : list string) : result ref :=
  match atoms with
  | [] => Ok mod_
  | item :: rest =>
      let? o := deref h mod_ in
      if negb (py_hasattr o item) then Raise (AttributeError item)
      else
        let? a := py_getattr o item in
        match a with
        | AModule r => walk h r rest
        | AOther => Raise (AttributeError item)
        end
  end.

(** [model.get_submodule(target)] *)
Definition get_submodule (h : heap) (model : ref) (target : string)
  : result ref :=
  if decide (target = EmptyString) then Ok model
  else walk h model (PyStr.split_on "." target).

(** Names every [nn.Module] inherits from its class (some of them). *)
Definition nn_module_class : list string :=
  ["forward"; "get_submodule"; "register_forward_hook"; "parameters";
   "named_modules"; "train"; "eval"; "to"].

(** [ProjectionWrapper.__init__] *)
Definition ProjectionWrapper_init (h : heap) (wrapped_module : ref)
    (projection : tensor -> result tensor) (has_leftover : bool)
  : result module_obj :=
  let? o := deref h wrapped_module in
  let? inner := py_getattr o "wrapped_module" in
  Ok match inner with
     | AModule w =>
         mkModule (ProjectionWrapper projection has_leftover) nn_module_class
           ["projection"; "has_leftover"] [] [("wrapped_module", w)]
     | AOther =>
         mkModule (ProjectionWrapper projection has_leftover) nn_module_class
           ["wrapped_module"; "projection"; "has_leftover"] [] []
     end.

(** Calling a module.  [fuel] bounds the depth of nested calls.  A
    projection is a function of tensors here: without [has_leftover] the
    code hands whatever the wrapped module returns to [projection], and
    the case of a tuple, which depends on the projection, is modelled as
    [TypeError]. *)
Fixpoint forward (fuel : nat) (h : heap) (r : ref) (x : value)
  : result value :=
  match fuel with
  | O => Raise RuntimeError
  | S fuel' =>
      let? o := deref h r in
      match m_kind o with
      | Custom body =>
          body (fun path v =>
                  let? c := get_submodule h r path in forward fuel' h c v) x
      | ModuleList => Raise NotImplementedError
      | ProjectionWrapper projection has_leftover =>
          (* ProjectionWrapper.forward *)
          let? w := py_getattr o "wrapped_module" in
          match w with
          | AOther => Raise TypeError
          | AModule wrapped_module =>
              let? y := forward fuel' h wrapped_module x in
              if has_leftover then
                let? hl := unpack y in
                let? hidden_states := projection hl.1 in
                Ok (VTuple (hidden_states :: hl.2))
              else
                match y with
                | VTensor hidden_states =>
                    let? hidden_states := projection hidden_states in
                    Ok (VTensor hidden_states)
                | VTuple _ => Raise TypeError
                end
          end
      end
  end.

(** The slot assignment shared by [edit_model_inplace] and
    [recover_model_inplace], on the parent object:
    [if hasattr(parent, name): setattr(parent, name, m)
     else: parent[int(name)] = m]. *)
Definition write_slot (o : module_obj) (name : string) (m : ref)
  : result module_obj :=
  if py_hasattr o name then py_setattr o name m
  else let? idx := PyStr.py_int name in py_setitem o idx m.

Definition assign_slot (parent : ref) (name : string) (m : ref)
  : M heap unit :=
  fun h =>
    match (let? o := deref h parent in write_slot o name m) with
    | Ok o' => (Ok tt, <[parent := o']> h)
    | Raise e => (Raise e, h)
    end.

(** [*parent_path, name = module_name.split(".");
     parent = model.get_submodule(".".join(parent_path))] *)
Definition resolve_parent (model : ref) (module_name : string)
  : M heap (ref * string) :=
  fun h =>
    let atoms := PyStr.split_on "." module_name in
    let parent_path := removelast atoms in
    let name := List.last atoms EmptyString in
    let parent_name := PyStr.join "." parent_path in
    (let? parent := get_submodule h model parent_name in Ok (parent, name), h).

(** [edit_model_inplace(model, old_module, module_name, projection,
    has_leftover)]; [gc.collect()] does not touch reachable objects. *)
Definition edit_model_inplace (model old_module : ref) (module_name : string)
    (projection : tensor -> result tensor) (has_leftover : bool)
  : M heap unit :=
  new_module <- (fun h =>
      match ProjectionWrapper_init h old_module projection has_leftover with
      | Ok o => let r := fresh (dom h) in (Ok r, <[r := o]> h)
      | Raise e => (Raise e, h)
      end) ;
  pn <- resolve_parent model module_name ;
  assign_slot pn.1 pn.2 new_module.

(** [recover_model_inplace(model, old_module, module_name)] *)
Definition recover_model_inplace (model old_module : ref)
    (module_name : string) : M heap unit :=
  pn <- resolve_parent model module_name ;
  assign_slot pn.1 pn.2 old_module.

(** *** Notions used to state the properties *)

(** The module held by the slot that [name] designates in the parent
    object, read the way [write_slot] writes it. *)
Definition read_slot (o : module_obj) (name : string) : result ref :=
  if py_hasattr o name then
    let? a := py_getattr o name in
    match a with
    | AModule r => Ok r
    | AOther => Raise TypeError
    end
  else let? idx := PyStr.py_int name in py_getitem o idx.

(** The module held by the slot that [module_name] designates. *)
Definition resolved_slot (h : heap) (model : ref) (module_name : string)
  : result ref :=
  let atoms := PyStr.split_on "." module_name in
  let? parent := get_submodule h model (PyStr.join "." (removelast atoms)) in
  let? o := deref h parent in
  read_slot o (List.last atoms EmptyString).

(** A heap of modules as torch builds them: submodules are allocated and
    lie strictly below their parent (no module contains itself), and a
    submodule name is not also an instance attribute. *)
Definition heap_wf (h : heap) (rank : ref -> nat) : Prop :=
  map_Forall (fun r o =>
    Forall (fun kc => is_Some (h !! kc.2) /\ rank kc.2 < rank r
                      /\ kc.1 ∉ m_dict o)
      (m_modules o)) h.

End Patch.

(** ** [ActivationsDataset] *)

Module Dataset.
Import Tensor Projection.
Local Open Scope result_scope.
Local Open Scope monad_scope.

Record ActivationsDataset : Type := mkDataset {
  x_data : tensor;   (* (samples, hidden_dimension) *)
  y_data : tensor    (* (samples,) *)
}.

(** The instances alive, by address. *)
Abbreviation store := (gmap nat ActivationsDataset).

Definition load (self : nat) : M store ActivationsDataset :=
  fun s => match s !! self with
           | Some ds => (Ok ds, s)
           | None => (Raise RuntimeError, s)
           end.

(** [ActivationsDataset(x, y)]: a new instance. *)
Definition new (ds : ActivationsDataset) : M store nat :=
  fun s => let r := fresh (dom s) in (Ok r, <[r := ds]> s).

(** [dir / torch.linalg.norm(dir)] followed by [[None, :]].  Over the
    reals the division is total; for the zero direction torch yields nan,
    so the model stands for the code on nonzero directions only. *)
Definition unit_row (dir : tensor) : result tensor :=
  let? dir_norm := tdivt dir (scalar (norm dir)) in
  tunsqueeze0 dir_norm.

(** [ActivationsDataset.project(self, dir)] *)
Definition project (self : nat) (dir : tensor) : M store nat :=
  ds <- load self ;
  new_x_data <- lift (let? d := unit_row dir in
                      Projection.project (x_data ds) d 1) ;
  new (mkDataset new_x_data (y_data ds)).

(** [ActivationsDataset.project_(self, dir)] *)
Definition project_ (self : nat) (dir : tensor) : M store unit :=
  ds <- load self ;
  new_x_data <- lift (let? d := unit_row dir in
                      Projection.project (x_data ds) d 1) ;
  fun s => (Ok tt, <[self := mkDataset new_x_data (y_data ds)]> s).

(** [len(t)] for a tensor. *)
Definition tlen (t : tensor) : result nat :=
  match shape t with
  | [] => Raise TypeError
  | n :: _ => Ok n
  end.

(** [t[idx, :]] *)
Definition tindex_row (t : tensor) (idx : Z) : result tensor :=
  match shape t with
  | _ :: _ :: _ => tindex t idx
  | _ => Raise IndexError
  end.

(** [ActivationsDataset.__len__(self)] *)
Definition len (self : nat) : M store nat :=
  ds <- load self ;
  lift (tlen (x_data ds)).

(** [ActivationsDataset.__getitem__(self, idx)] *)
Definition getitem (self : nat) (idx : Z) : M store (tensor * tensor) :=
  ds <- load self ;
  lift (let? x := tindex_row (x_data ds) idx in
        let? y := tindex (y_data ds) idx in
        Ok (x, y)).

End Dataset.

(** ** The swap test: [measure_confusions] *)

Module Confusion.
Import Tensor Hooks.
Local Open Scope R_scope.
Local Open Scope result_scope.

(** One side of a test: a prompt and its one-token answer. *)
Record Question : Type := mkQuestion { prompt : string; answer : string }.
Record Test : Type := mkTest { positive : Question; negative : Question }.

(** The test with its two sides exchanged. *)
Definition swap (t : Test) : Test := mkTest (negative t) (positive t).

(** [t[:, -1]] *)
Definition select_last (t : tensor) : result tensor :=
  match shape t with
  | b :: O :: _ => Raise IndexError
  | b :: S n :: s =>
      Ok (mkTensor (b :: s)
            (mjoin (map (fun blk => drop (n * numel s)%nat blk)
                        (reshape (replicate b (S n * numel s)%nat) (data t)))))
  | _ => Raise IndexError
  end.

(** [torch.log_softmax(t, dim=-1)] *)
Definition log_softmax_row (v : list R) : list R :=
  let lse := ln (foldr Rplus 0 (map exp v)) in
  map (fun x => x - lse) v.

Definition log_softmax (t : tensor) : result tensor :=
  match last_dim t with
  | Some v => Ok (mkTensor (shape t) (mjoin (map log_softmax_row (rows v t))))
  | None => Raise IndexError
  end.

(** [out[0]] on what the model returns. *)
Definition first_output (out : value) : result tensor :=
  match out with
  | VTuple [] => Raise IndexError
  | VTuple (t :: _) => Ok t
  | VTensor t => tindex t 0
  end.

(** The value of a 0-dimensional tensor. *)
Definition item (t : tensor) : result R :=
  match shape t, data t with
  | [], [x] => Ok x
  | _, _ => Raise RuntimeError
  end.

Section Tokenizer.
(** The tokenizer of [src.constants]: a batch of prompts to a batch of
    token ids, and [tokenizer.encode]. *)
Variable tokenize : list string -> result tokens.
Variable encode : string -> list nat.

(** [tokenizer.encode(answer)[0]] *)
Definition first_token (ans : string) : result Z :=
  match encode ans with
  | [] => Raise IndexError
  | k :: _ => Ok (Z.of_nat k)
  end.

(** [out_mixed[correct] - out_mixed[wrong]] *)
Definition margin (out_mixed : tensor) (correct wrong : Z) : result R :=
  let? c := tindex out_mixed correct in
  let? w := tindex out_mixed wrong in
  let? d := tsub c w in
  item d.

(** [measure_confusions_grad(test, model)] *)
Definition measure_confusions_grad (test : Test)
    (model : tokens -> tokens -> result value) : result R :=
  let qs := [positive test; negative test] in
  let inps1 := mjoin (map (fun q1 => map (fun q2 => prompt q1) qs) qs) in
  let inps2 := mjoin (map (fun q1 => map (fun q2 => prompt q2) qs) qs) in
  let? inps1t := tokenize inps1 in
  let? inps2t := tokenize inps2 in
  let? out := model inps1t inps2t in
  let? logits := first_output out in
  let? final := select_last logits in
  let? outs_mixed_raw := log_softmax final in
  let? o00 := tindex outs_mixed_raw 0 in
  let? o01 := tindex outs_mixed_raw 1 in
  let? o10 := tindex outs_mixed_raw 2 in
  let? o11 := tindex outs_mixed_raw 3 in
  (* i = 0 *)
  let? correct0 := first_token (answer (positive test)) in
  let? wrong0 := first_token (answer (negative test)) in
  let? res00 := margin o00 correct0 wrong0 in
  let? res01 := margin o01 correct0 wrong0 in
  (* i = 1 *)
  let? correct1 := first_token (answer (negative test)) in
  let? wrong1 := first_token (answer (positive test)) in
  let? res10 := margin o10 correct1 wrong1 in
  let? res11 := margin o11 correct1 wrong1 in
  Ok (Rabs (res00 - res01) + Rabs (res11 - res10)).

(** [measure_confusions(test, model)]: the same value, without gradient. *)
Definition measure_confusions (test : Test)
    (model : tokens -> tokens -> result value) : result R :=
  measure_confusions_grad test model.
End Tokenizer.

(** *** Notions used to state the properties *)

(** A model that computes the output of each example of the batch from
    that example alone: [g x1 x2] is the logits of one example, [s]
    positions by [v] tokens, and the model returns them stacked, in a
    tuple. *)
Definition batch_model (s v : nat) (g : list nat -> list nat -> list R)
  : tokens -> tokens -> result value :=
  fun b1 b2 =>
    Ok (VTuple [mkTensor [length b1; s; v] (mjoin (zip_with g b1 b2))]).

(** The log-probabilities at the last position for one example. *)
Definition last_logprobs (s v : nat) (g : list nat -> list nat -> list R)
    (x1 x2 : list nat) : list R :=
  log_softmax_row (drop ((s - 1) * v) (g x1 x2)).

End Confusion.

(** ** [fancy_print] *)

Module Printing.

(** The state of the loop: the words of the current line, their total
    length, and the lines printed so far. *)
Fixpoint fancy_loop (max_line_length : nat) (ws : list string)
    (cl : list string) (lcl : nat) : list string :=
  match ws with
  | [] => [PyStr.join " " cl]
  | w :: ws' =>
      if (max_line_length <? lcl + String.length w)%nat
      then PyStr.join " " cl
             :: fancy_loop max_line_length ws' [w] (String.length w)
      else fancy_loop max_line_length ws' (cl ++ [w]) (lcl + String.length w)
  end.

(** The characters of a line that are not separators. *)
Definition words_length (cl : list string) : nat :=
  sum_list_with String.length cl.

(** [fancy_print(s, max_line_length)]: the lines written to the console. *)
Definition fancy_print (s : string) (max_line_length : nat) : list string :=
  fancy_loop max_line_length (PyStr.split_ws s) [] 0.

End Printing.

(** ** File names of [generate_dirs.run] *)

Module GenerateDirs.

(** Truth value of [layer_nb], which is [None] or an integer. *)
Definition truthy (layer_nb : option Z) : bool :=
  match layer_nb with
  | Some z => negb (z =? 0)%Z
  | None => false
  end.

(** [layer_nb_ = layer_nb or len(model.transformer.h) // 2] *)
Definition layer_nb_ (layer_nb : option Z) (n_layers : nat) : Z :=
  if truthy layer_nb then default 0%Z layer_nb
  else (Z.of_nat n_layers / 2)%Z.

(** [file_name] for method [m_name] in round [i]. *)
Definition file_name (layer_nb : option Z) (m_name : string) (i : nat)
  : string :=
  if truthy layer_nb
  then "L" +:+ PyStr.str_of_int (default 0%Z layer_nb) +:+ " - " +:+ m_name
       +:+ " - " +:+ PyStr.str_of_int (Z.of_nat i) +:+ " - v0.pt"
  else m_name +:+ " - " +:+ PyStr.str_of_int (Z.of_nat i) +:+ " - v0.pt".

(** The [__name__] of the methods of [run], in its order. *)
Definition methods : list string :=
  ["get_random"; "get_embed_she_he"; "get_unembed_she_he";
   "get_confusion_grad"; "get_grad_she_he"; "get_inlp"; "get_rlace";
   "get_grad_descent"].

(** The file names [run] saves to, in order:
    [for i in range(n): for m in methods: ...]. *)
Definition run_file_names (n : nat) (layer_nb : option Z) : list string :=
  mjoin (map (fun i => map (fun m => file_name layer_nb m i) methods)
             (seq 0 n)).

(** A name without a space, as the name of a Python function is. *)
Definition no_space (m : string) : Prop :=
  forall k, String.get k m <> Some " "%char.

End GenerateDirs.

(** ** The analysis script ([analyze_dirs.py]) *)

Module Analysis.
Import Tensor.
Local Open Scope R_scope.
Local Open Scope result_scope.

(** [dirs[0:0]]: the empty direction set ([empty_dirs]). *)
Definition empty_dirs (dirs : tensor) : result tensor :=
  match shape dirs with
  | [] => Raise IndexError
  | _ :: s => Ok (mkTensor (0%nat :: s) [])
  end.

(** [1 - confusions / baseline_confusions] of [plot_tests]. *)
Definition swap_success (confusions baseline_confusions : tensor)
  : result tensor :=
  let? q := tdivt confusions baseline_confusions in
  Ok (tmap (fun x => 1 - x) q).

End Analysis.

(** ** Small concrete inputs *)

Module Examples.
Import Tensor Projection Hooks Patch Confusion.
Local Open Scope R_scope.

(** [project] with its default strength. *)
Definition project1 (x dirs : tensor) : result tensor := project x dirs 1.

(** A one-layer model on hidden states of size 1: the embedding of the
    one-token batch [[k]] is [[[k]]], and the block returns its input in a
    tuple, as GPT-2 blocks do. *)
Definition embed0 (t : tokens) : result value :=
  match t with
  | [[k]] => Ok (VTensor (mkTensor [1; 1; 1]%nat [INR k]))
  | _ => Raise RuntimeError
  end.

Definition block0 (x : value) : result value :=
  match x with
  | VTensor t => Ok (VTuple [t])
  | VTuple _ => Raise TypeError
  end.

Definition mdl0 : model := mkModel embed0 [(0%nat, block0)].

(** The only direction of that space. *)
Definition dirs0 : tensor := mkTensor [1; 1]%nat [1].

(** No hook registered yet. *)
Definition s0 : hook_state := mkHookState 0 ∅.

(** A model whose [layer] is a wrapper (with the identity as projection)
    around a module that returns its input. *)
Definition root0 : module_obj :=
  mkModule (Custom (fun call x => call "layer"%string x)) nn_module_class
    [] [] [("layer"%string, 1%nat)].

Definition wrapper0 : module_obj :=
  mkModule (ProjectionWrapper Ok false) nn_module_class
    ["projection"%string; "has_leftover"%string] []
    [("wrapped_module"%string, 2%nat)].

Definition leaf0 : module_obj :=
  mkModule (Custom (fun _ x => Ok x)) nn_module_class [] [] [].

Definition heap0 : heap :=
  <[0%nat := root0]> (<[1%nat := wrapper0]> (<[2%nat := leaf0]> ∅)).

Definition rank0 (r : ref) : nat := (2 - r)%nat.

(** A tokenizer with one token per prompt, its length; answers likewise. *)
Definition tokenize0 (prompts : list string) : result tokens :=
  Ok (map (fun p => [String.length p]) prompts).

Definition encode0 (ans : string) : list nat := [String.length ans].

(** A model with hidden states of size 2 and three tokens: the embedding
    of the token [k] is [[k; k]], the block returns its input in a tuple,
    and the head gives token 1 the product of the two hidden components as
    logit. *)
Definition embed1 (t : tokens) : result value :=
  Ok (VTensor (mkTensor [length t; 1; 2]%nat
                 (mjoin (map (fun x => [INR (List.hd 0%nat x);
                                        INR (List.hd 0%nat x)]) t)))).

Definition head1 (x : value) : result value :=
  match x with
  | VTuple (t :: _) =>
      Ok (VTuple [mkTensor [List.hd 0%nat (shape t); 1; 3]%nat
                    (mjoin (map (fun r => [0; nth 0 r 0 * nth 1 r 0; 0])
                                (rows 2 t)))])
  | _ => Raise TypeError
  end.

Definition mdl1 : model := mkModel embed1 [(0%nat, block0); (1%nat, head1)].

(** The second axis of that space. *)
Definition dirs1 : tensor := mkTensor [1; 2]%nat [0; 1].

(** The probe of [create_frankenstein] on the block of [mdl1], as the model
    given to [measure_confusions]. *)
Definition probe1 (b1 b2 : tokens) : result value :=
  (create_frankenstein dirs1 mdl1 0%nat (scalar 0) project1 b1 b2 s0).1.

(** Logits computed for each example from that example alone. *)
Definition g0 (x y : list nat) : list R :=
  [0; INR (List.hd 0 x * List.hd 0 y)%nat; 0].

Definition test0 : Test :=
  mkTest (mkQuestion "x" "a") (mkQuestion "yy" "bb").

End Examples.

(** * Properties *)

(** ** File names *)

Module GenerateDirsFacts.
Import GenerateDirs.

Example file_name_layer_3 :
  file_name (Some 3%Z) "get_inlp" 0 = "L3 - get_inlp - 0 - v0.pt".
Proof. reflexivity. Qed.

Example file_name_no_layer :
  file_name None "get_inlp" 2 = "get_inlp - 2 - v0.pt".
Proof. reflexivity. Qed.

Lemma file_name_nonzero (z : Z) (m_name : string) (i : nat) :
  z <> 0%Z ->
  file_name (Some z) m_name i
  = "L" +:+ PyStr.str_of_int z +:+ " - " +:+ m_name +:+ " - "
    +:+ PyStr.str_of_int (Z.of_nat i) +:+ " - v0.pt".
Proof.
  intros Hz. unfold file_name, truthy.
  destruct (Z.eqb_spec z 0) as [->|_]; [contradiction|reflexivity].
Qed.

(** C7. With the explicit layer index 0 the file name carries no
    [L0 - ] prefix: it is the name written when no layer is given, and the
    layer used is the middle one. *)
Theorem file_name_layer_zero :
  file_name (Some 0%Z) "get_random" 0 = "get_random - 0 - v0.pt"
  /\ file_name (Some 0%Z) "get_random" 0 = file_name None "get_random" 0
  /\ layer_nb_ (Some 0%Z) 12 = 6%Z.
Proof. repeat split; reflexivity. Qed.

End GenerateDirsFacts.

(** ** Word wrapping *)

Module PrintingFacts.
Import Printing.

Example fancy_print_wraps :
  fancy_print "aaa bbb cc" 6 = ["aaa bbb"; "cc"].
Proof. reflexivity. Qed.

(** What the loop does bound: the words of a printed line, without the
    spaces between them, have at most [max_line_length] characters. *)
Lemma fancy_loop_words_bound (max_line_length : nat) (ws : list string) :
  Forall (fun w => String.length w <= max_line_length) ws ->
  forall cl lcl,
    lcl = words_length cl -> lcl <= max_line_length ->
    Forall (fun line => exists cl', line = PyStr.join " " cl'
                          /\ words_length cl' <= max_line_length)
      (fancy_loop max_line_length ws cl lcl).
Proof.
  induction 1 as [|w ws Hw _ IH]; intros cl lcl Hlcl Hle; simpl.
  - constructor; [|constructor]. exists cl. split; [reflexivity|lia].
  - destruct (Nat.ltb_spec max_line_length (lcl + String.length w)).
    + constructor; [exists cl; split; [reflexivity|lia]|].
      apply IH; [|exact Hw]. unfold words_length. simpl. lia.
    + apply IH; [|lia]. unfold words_length in *.
      rewrite sum_list_with_app. simpl. lia.
Qed.

Lemma fancy_print_words_bound (s : string) (max_line_length : nat) :
  Forall (fun w => String.length w <= max_line_length) (PyStr.split_ws s) ->
  Forall (fun line => exists cl', line = PyStr.join " " cl'
                        /\ words_length cl' <= max_line_length)
    (fancy_print s max_line_length).
Proof.
  intros Hws. apply fancy_loop_words_bound; [exact Hws|reflexivity|lia].
Qed.

(** C9. The separating spaces are not counted: with a limit of 3 the words
    "ab" and "c" are printed on one line of 4 characters. *)
Theorem fancy_print_line_too_long :
  fancy_print "ab c" 3 = ["ab c"]
  /\ Forall (fun w => String.length w <= 3) (PyStr.split_ws "ab c")
  /\ Exists (fun line => 3 < String.length line) (fancy_print "ab c" 3).
Proof.
  split; [reflexivity|]. split.
  - repeat constructor.
  - apply Exists_cons_hd. vm_compute. lia.
Qed.

End PrintingFacts.

(** ** Tensors *)

Module TensorFacts.
Import Tensor.
Local Open Scope R_scope.

Lemma numel_app (s1 s2 : list nat) : numel (s1 ++ s2) = (numel s1 * numel s2)%nat.
Proof.
  induction s1 as [|d s1 IH]; simpl; [lia|]. rewrite IH. lia.
Qed.

Lemma numel_singleton (n : nat) : numel [n] = n.
Proof. simpl. lia. Qed.

Lemma removelast_snoc {A} (l : list A) (x : A) : removelast (l ++ [x]) = l.
Proof. apply removelast_last. Qed.

Lemma last_dim_snoc (t : tensor) (lead : list nat) (h : nat) :
  shape t = lead ++ [h] -> last_dim t = Some h.
Proof. intros Hs. unfold last_dim. rewrite Hs. apply last_snoc. Qed.

Lemma reshape_replicate_mjoin {A} (L : list (list A)) (n : nat) :
  Forall (fun l => length l = n) L ->
  reshape (replicate (length L) n) (mjoin L) = L.
Proof.
  induction 1 as [|l L Hl _ IH]; simpl; [reflexivity|].
  rewrite take_app_length' by done. rewrite drop_app_length' by done.
  by rewrite IH.
Qed.

Lemma Forall_length_reshape {A} (m n : nat) (d : list A) :
  length d = (m * n)%nat ->
  Forall (fun l => length l = n) (reshape (replicate m n) d).
Proof.
  revert d. induction m as [|m IH]; intros d Hd; simpl; [constructor|].
  constructor.
  - rewrite length_take. lia.
  - apply IH. rewrite length_drop. lia.
Qed.

Lemma mjoin_reshape_replicate {A} (m n : nat) (d : list A) :
  length d = (m * n)%nat -> mjoin (reshape (replicate m n) d) = d.
Proof.
  intros Hd. apply join_reshape. rewrite sum_list_replicate. lia.
Qed.

Lemma zip_with_mjoin {A B C} (f : A -> B -> C) (L1 : list (list A)) (L2 : list (list B)) :
  Forall2 (fun a b => length a = length b) L1 L2 ->
  zip_with f (mjoin L1) (mjoin L2) = mjoin (zip_with (zip_with f) L1 L2).
Proof.
  induction 1 as [|a b L1 L2 Hab _ IH]; simpl; [reflexivity|].
  rewrite zip_with_app by done. by rewrite IH.
Qed.

Lemma length_mjoin_const {A} (L : list (list A)) (n : nat) :
  Forall (fun l => length l = n) L -> length (mjoin L) = (length L * n)%nat.
Proof.
  induction 1 as [|l L Hl _ IH]; simpl; [reflexivity|].
  rewrite length_app, IH, Hl. lia.
Qed.

(** Rows of a well-formed tensor. *)
Lemma rows_length (t : tensor) (lead : list nat) (h : nat) :
  tensor_wf t -> shape t = lead ++ [h] ->
  length (rows h t) = numel lead /\ Forall (fun r => length r = h) (rows h t)
  /\ mjoin (rows h t) = data t.
Proof.
  intros Hwf Hs. unfold rows, tensor_wf in *. rewrite Hs in *.
  rewrite removelast_snoc. rewrite numel_app, numel_singleton in Hwf.
  split; [by rewrite length_reshape, length_replicate|].
  split; [by apply Forall_length_reshape|by apply mjoin_reshape_replicate].
Qed.

Lemma rows_of_mjoin (lead : list nat) (h : nat) (L : list (list R)) :
  length L = numel lead -> Forall (fun r => length r = h) L ->
  rows h (mkTensor (lead ++ [h]) (mjoin L)) = L.
Proof.
  intros HL Hh. unfold rows; simpl. rewrite removelast_snoc, <- HL.
  by apply reshape_replicate_mjoin.
Qed.

(** Broadcasting between equal shapes is the elementwise operation. *)
Lemma broadcast_shapes_same (s : list nat) : broadcast_shapes s s = Some s.
Proof.
  induction s as [|d s IH]; simpl; [reflexivity|].
  rewrite IH. by rewrite Nat.eqb_refl.
Qed.

Lemma expand_same (s : list nat) : forall d,
  length d = numel s -> expand s s d = d.
Proof.
  induction s as [|n s IH]; intros d Hd; simpl; [reflexivity|].
  rewrite Nat.eqb_refl. simpl in Hd.
  assert (Hall := Forall_length_reshape n (numel s) d Hd).
  rewrite <- (mjoin_reshape_replicate n (numel s) d Hd) at 2.
  f_equal. induction Hall as [|l L Hl _ IHL]; simpl; [reflexivity|].
  rewrite IH by done. by rewrite IHL.
Qed.

Lemma pad_shape_same (s : list nat) : pad_shape (length s) s = s.
Proof. unfold pad_shape. by rewrite Nat.sub_diag. Qed.

Lemma broadcast2_same_shape (f : R -> R -> R) (a b : tensor) :
  tensor_wf a -> tensor_wf b -> shape a = shape b ->
  broadcast2 f a b = Ok (mkTensor (shape a) (zip_with f (data a) (data b))).
Proof.
  intros Ha Hb Hs. unfold broadcast2. rewrite <- Hs, Nat.max_id.
  rewrite pad_shape_same, broadcast_shapes_same.
  rewrite expand_same by exact Ha.
  rewrite expand_same by (unfold tensor_wf in Hb; by rewrite Hs).
  reflexivity.
Qed.

(** Broadcasting against a Python number. *)
Lemma numel_ones (k : nat) : numel (replicate k 1%nat) = 1%nat.
Proof. induction k as [|k IH]; simpl; [reflexivity|]. rewrite IH. lia. Qed.

Lemma broadcast_shapes_ones (s : list nat) :
  broadcast_shapes s (replicate (length s) 1%nat) = Some s.
Proof.
  induction s as [|d s IH]; simpl; [reflexivity|]. rewrite IH.
  destruct (Nat.eqb_spec d 1); reflexivity.
Qed.

Lemma mjoin_replicate_replicate {A} (m n : nat) (c : A) :
  mjoin (replicate m (replicate n c)) = replicate (m * n) c.
Proof.
  induction m as [|m IH]; simpl; [reflexivity|].
  by rewrite IH, replicate_add.
Qed.

Lemma expand_ones (s : list nat) (c : R) :
  expand (replicate (length s) 1%nat) s [c] = replicate (numel s) c.
Proof.
  induction s as [|d s IH]; [reflexivity|].
  cbn [length replicate expand]. rewrite numel_ones.
  change (numel (d :: s)) with (d * numel s)%nat.
  destruct (Nat.eqb_spec 1 d) as [<-|_].
  - rewrite Nat.mul_1_l. simpl. rewrite IH. by rewrite app_nil_r.
  - by rewrite IH, mjoin_replicate_replicate.
Qed.

Lemma zip_with_replicate_r {A B C} (f : A -> B -> C) (l : list A) (c : B) :
  zip_with f l (replicate (length l) c) = map (fun x => f x c) l.
Proof. induction l as [|x l IH]; simpl; [reflexivity|]. by rewrite IH. Qed.

Lemma broadcast2_scalar (f : R -> R -> R) (a : tensor) (c : R) :
  tensor_wf a ->
  broadcast2 f a (scalar c)
  = Ok (mkTensor (shape a) (map (fun x => f x c) (data a))).
Proof.
  intros Ha. unfold broadcast2. simpl. rewrite Nat.max_0_r.
  rewrite pad_shape_same. unfold pad_shape. simpl.
  rewrite Nat.sub_0_r, app_nil_r, broadcast_shapes_ones.
  rewrite expand_same by exact Ha. rewrite expand_ones.
  unfold tensor_wf in Ha. rewrite <- Ha, zip_with_replicate_r. reflexivity.
Qed.

End TensorFacts.

(** ** [project] *)

Module ProjectFacts.
Import Tensor Projection TensorFacts.
Local Open Scope R_scope.
Local Open Scope result_scope.

(** *** Algebra of [dot] *)

Lemma dot_nil_r (u : list R) : dot u [] = 0.
Proof. unfold dot. by destruct u. Qed.

Lemma dot_cons (a b : R) (u v : list R) :
  dot (a :: u) (b :: v) = a * b + dot u v.
Proof. reflexivity. Qed.

Lemma dot_comm (u v : list R) : dot u v = dot v u.
Proof.
  revert v. induction u as [|a u IH]; intros [|b v]; try reflexivity.
  rewrite !dot_cons, IH. lra.
Qed.

Lemma dot_vscale (c : R) (u v : list R) : dot (vscale c u) v = c * dot u v.
Proof.
  revert v. induction u as [|a u IH]; intros [|b v]; simpl;
    rewrite ?dot_nil_r; try (unfold dot; simpl; lra).
  unfold vscale in *. rewrite !dot_cons, IH. lra.
Qed.

Lemma dot_vzero (h : nat) (v : list R) : dot (vzero h) v = 0.
Proof.
  revert v. induction h as [|h IH]; intros [|b v]; try reflexivity.
  unfold vzero in *. simpl. rewrite dot_cons, IH. lra.
Qed.

Lemma dot_vadd (u v w : list R) :
  length u = length v -> dot (vadd u v) w = dot u w + dot v w.
Proof.
  revert v w. induction u as [|a u IH]; intros [|b v] [|c w] Hl;
    try discriminate; unfold vadd in *; simpl;
    rewrite ?dot_nil_r; try (unfold dot; simpl; lra).
  rewrite !dot_cons, IH by (simpl in Hl; lia). lra.
Qed.

Lemma dot_vsub (u v w : list R) :
  length u = length v ->
  dot (zip_with Rminus u v) w = dot u w - dot v w.
Proof.
  revert v w. induction u as [|a u IH]; intros [|b v] [|c w] Hl;
    try discriminate; simpl;
    rewrite ?dot_nil_r; try (unfold dot; simpl; lra).
  rewrite !dot_cons, IH by (simpl in Hl; lia). lra.
Qed.

(** *** One row of [project] *)

Lemma length_lincomb (h : nat) (cs : list R) (D : list (list R)) :
  Forall (fun d => length d = h) D -> length (lincomb h cs D) = h.
Proof.
  intros HD. revert cs. induction HD as [|d D Hd _ IH]; intros [|c cs];
    unfold lincomb in *; simpl; try apply length_replicate.
  unfold vadd, vscale. rewrite length_zip_with, length_map.
  specialize (IH cs). unfold vadd, vscale in IH. rewrite IH. lia.
Qed.

Lemma dot_lincomb (h : nat) (cs : list R) (D : list (list R)) (w : list R) :
  Forall (fun d => length d = h) D ->
  dot (lincomb h cs D) w
  = foldr Rplus 0 (zip_with (fun c d => c * dot d w) cs D).
Proof.
  intros HD. revert cs. induction HD as [|d D Hd HD IH]; intros [|c cs];
    try (unfold lincomb; simpl; apply dot_vzero).
  change (lincomb h (c :: cs) (d :: D))
    with (vadd (vscale c d) (lincomb h cs D)).
  rewrite dot_vadd, dot_vscale, IH; [reflexivity|].
  rewrite length_lincomb by done. unfold vscale. by rewrite length_map.
Qed.

Lemma orthonormal_tail (d : list R) (D : list (list R)) :
  orthonormal (d :: D) -> orthonormal D.
Proof.
  intros H i j di dj Hi Hj.
  rewrite (H (S i) (S j) di dj Hi Hj).
  destruct (decide (i = j)), (decide (S i = S j)); congruence.
Qed.

(** Against an orthonormal family, the combination of the inner products
    with [x] has the same inner products as [x]. *)
Lemma sum_orthonormal (D : list (list R)) (x : list R) :
  orthonormal D ->
  forall j dj, D !! j = Some dj ->
    foldr Rplus 0 (zip_with (fun c d => c * dot d dj)
                     (map (fun d => dot d x) D) D)
    = dot dj x.
Proof.
  assert (Hzero : forall (E : list (list R)) (w : list R),
             (forall e, e ∈ E -> dot e w = 0) ->
             foldr Rplus 0 (zip_with (fun c d => c * dot d w)
                              (map (fun d => dot d x) E) E) = 0).
  { induction E as [|e E IH]; intros w Hw; simpl; [reflexivity|].
    rewrite IH by (intros e' He'; apply Hw; by right).
    rewrite (Hw e) by left. lra. }
  induction D as [|d D IH]; intros Ho j dj Hj; [by destruct j|].
  simpl. destruct j as [|j]; simpl in Hj.
  - injection Hj as ->.
    rewrite (Ho 0%nat 0%nat dj dj) by reflexivity. simpl.
    rewrite Hzero; [lra|].
    intros e He. apply list_elem_of_lookup in He as [i Hi].
    by rewrite (Ho (S i) 0%nat e dj Hi eq_refl).
  - rewrite (Ho 0%nat (S j) d dj eq_refl Hj). simpl.
    rewrite (IH (orthonormal_tail _ _ Ho) j dj Hj). lra.
Qed.

Lemma project_row_orthogonal (h : nat) (D : list (list R)) (x d : list R) :
  orthonormal D -> Forall (fun d => length d = h) D -> length x = h ->
  d ∈ D -> dot (project_row h D 1 x) d = 0.
Proof.
  intros Ho HD Hx Hd. apply list_elem_of_lookup in Hd as [j Hj].
  unfold project_row.
  rewrite dot_vsub.
  2:{ unfold vscale. rewrite length_map, length_lincomb by done. done. }
  rewrite dot_vscale, dot_lincomb by done.
  rewrite (sum_orthonormal D x Ho j d Hj). rewrite (dot_comm d x). lra.
Qed.

Lemma rows_dirs (dirs : tensor) (n h : nat) :
  tensor_wf dirs -> shape dirs = [n; h] ->
  length (rows h dirs) = n /\ Forall (fun d => length d = h) (rows h dirs).
Proof.
  intros Hwf Hs.
  destruct (rows_length dirs [n] h Hwf Hs) as (Hl & Hall & _).
  by rewrite numel_singleton in Hl.
Qed.

(** What [project] computes, row by row. *)
Lemma project_rows (X dirs : tensor) (lead : list nat) (n h : nat)
    (strength : R) :
  tensor_wf X -> tensor_wf dirs ->
  shape X = lead ++ [h] -> shape dirs = [n; h] ->
  exists Y, project X dirs strength = Ok Y
    /\ shape Y = shape X /\ tensor_wf Y
    /\ rows h Y = map (project_row h (rows h dirs) strength) (rows h X).
Proof.
  intros HX Hdirs HsX Hsd.
  destruct (rows_length X lead h HX HsX) as (HlX & HallX & HjX).
  destruct (rows_dirs dirs n h Hdirs Hsd) as (HlD & HallD).
  set (D := rows h dirs) in *.
  unfold project, einsum_nh_h_n.
  rewrite Hsd, (last_dim_snoc X lead h HsX), Nat.eqb_refl. simpl.
  unfold einsum_n_nh_h. rewrite Hsd. simpl shape.
  rewrite HsX, removelast_snoc.
  replace (last_dim _) with (Some n)
    by (symmetry; apply (last_dim_snoc _ lead n); reflexivity).
  rewrite Nat.eqb_refl. simpl.
  rewrite rows_of_mjoin.
  2:{ by rewrite length_map. }
  2:{ apply Forall_map, Forall_forall. intros x _. simpl.
      by rewrite length_map. }
  rewrite removelast_snoc. rewrite map_map. fold D.
  set (C := map _ (rows h X)).
  assert (HC : Forall (fun r => length r = h) C).
  { apply Forall_map, Forall_forall. intros x _. simpl.
    by apply length_lincomb. }
  assert (HlC : length C = numel lead) by (unfold C; by rewrite length_map).
  unfold tsub. rewrite broadcast2_same_shape; cycle 1.
  { exact HX. }
  { unfold tensor_wf, tscale. simpl. rewrite length_map.
    rewrite (length_mjoin_const C h HC), HlC, numel_app, numel_singleton.
    reflexivity. }
  { simpl. by rewrite HsX. }
  eexists. split; [reflexivity|]. split; [simpl; congruence|]. simpl.
  assert (Hdata : zip_with Rminus (data X)
                    (map (Rmult strength) (mjoin C))
                  = mjoin (map (project_row h D strength) (rows h X))).
  { rewrite <- HjX at 1.
    replace (map (Rmult strength) (mjoin C))
      with (mjoin (map (vscale strength) C)).
    2:{ clear. induction C as [|c C IH]; simpl; [reflexivity|].
        by rewrite map_app, IH. }
    rewrite zip_with_mjoin.
    2:{ unfold C. rewrite map_map.
        apply Forall2_fmap_r, Forall_Forall2_diag.
        eapply Forall_impl; [exact HallX|]. intros x Hx. simpl.
        unfold vscale. rewrite length_map. rewrite length_lincomb by done. done. }
    f_equal. unfold C. rewrite map_map.
    clear. induction (rows h X) as [|x L IH]; simpl; [reflexivity|].
    by rewrite IH. }
  assert (HP : Forall (fun r => length r = h)
                 (map (project_row h D strength) (rows h X))).
  { apply Forall_map. eapply Forall_impl; [exact HallX|].
    intros x Hx. simpl in *. unfold project_row.
    rewrite length_zip_with. unfold vscale.
    rewrite length_map, length_lincomb by done. lia. }
  rewrite Hdata. split.
  - unfold tensor_wf. simpl.
    rewrite (length_mjoin_const _ h HP), length_map, HlX, HsX.
    by rewrite numel_app, numel_singleton.
  - rewrite HsX. apply rows_of_mjoin; [by rewrite length_map|exact HP].
Qed.

(** C5. For orthonormal direction rows, every row of [project(X, dirs)]
    (strength 1) has inner product zero with every direction row. *)
Theorem project_orthogonal (X dirs : tensor) (lead : list nat) (n h : nat) :
  tensor_wf X -> tensor_wf dirs ->
  shape X = lead ++ [h] -> shape dirs = [n; h] ->
  (1 <= n)%nat -> orthonormal (rows h dirs) ->
  exists Y, project X dirs 1 = Ok Y
    /\ shape Y = shape X
    /\ length (rows h Y) = length (rows h X)
    /\ forall y d, y ∈ rows h Y -> d ∈ rows h dirs -> dot y d = 0.
Proof.
  intros HX Hdirs HsX Hsd _ Ho.
  destruct (project_rows X dirs lead n h 1 HX Hdirs HsX Hsd)
    as (Y & HY & HsY & _ & Hrows).
  exists Y. split; [exact HY|]. split; [exact HsY|].
  rewrite Hrows. split; [by rewrite length_map|].
  intros y d Hy Hd. apply list_elem_of_fmap in Hy as (x & -> & Hx).
  destruct (rows_length X lead h HX HsX) as (_ & HallX & _).
  destruct (rows_dirs dirs n h Hdirs Hsd) as (_ & HallD).
  apply project_row_orthogonal; try done.
  by apply (proj1 (Forall_forall _ _) HallX).
Qed.

(** Two vectors of the plane and the first axis as the only direction. *)
Lemma project_orthogonal_witness :
  exists Y, project (mkTensor [2; 2]%nat [1; 2; 3; 4])
                    (mkTensor [1; 2]%nat [1; 0]) 1 = Ok Y
    /\ shape Y = [2; 2]%nat
    /\ length (rows 2 Y) = 2%nat
    /\ forall y d, y ∈ rows 2 Y -> d ∈ [[1; 0]] -> dot y d = 0.
Proof.
  apply (project_orthogonal (mkTensor [2; 2]%nat [1; 2; 3; 4])
           (mkTensor [1; 2]%nat [1; 0]) [2%nat] 1 2);
    [reflexivity|reflexivity|reflexivity|reflexivity|lia|].
  intros i j di dj Hi Hj.
  destruct i as [|i], j as [|j]; try discriminate.
  injection Hi as <-. injection Hj as <-. vm_compute. lra.
Defined.

End ProjectFacts.

(** ** [ActivationsDataset] *)

Module DatasetFacts.
Import Tensor Projection TensorFacts ProjectFacts Dataset.
Local Open Scope R_scope.
Local Open Scope result_scope.

Lemma unit_row_ok (dir : tensor) (h : nat) :
  tensor_wf dir -> shape dir = [h] ->
  exists d, unit_row dir = Ok d /\ tensor_wf d /\ shape d = [1%nat; h].
Proof.
  intros Hwf Hs. unfold unit_row, tdivt.
  rewrite broadcast2_scalar by exact Hwf. simpl.
  unfold tunsqueeze0. simpl. rewrite Hs.
  eexists. split; [reflexivity|]. split; [|reflexivity].
  unfold tensor_wf in *. simpl. rewrite length_map, Hwf, Hs. simpl. lia.
Qed.

(** C8. [project] allocates a new dataset and leaves the instance as it
    was; [project_] overwrites the activation matrix of the instance; both
    hold the same new matrix, beside the labels of the original.  (The
    direction is nonzero: for the zero vector torch divides by zero and
    yields nan, which real numbers do not model.) *)
Theorem project_keeps_original (s : store) (self : nat)
    (ds : ActivationsDataset) (dir : tensor) (m h : nat) :
  s !! self = Some ds ->
  tensor_wf (x_data ds) -> shape (x_data ds) = [m; h] ->
  tensor_wf dir -> shape dir = [h] -> norm dir <> 0 ->
  exists (r : nat) (new_x : tensor),
    Dataset.project self dir s
      = (Ok r, <[r := mkDataset new_x (y_data ds)]> s)
    /\ s !! r = None
    /\ (<[r := mkDataset new_x (y_data ds)]> s) !! self = Some ds
    /\ Dataset.project_ self dir s
      = (Ok tt, <[self := mkDataset new_x (y_data ds)]> s)
    /\ shape new_x = [m; h].
Proof.
  intros Hself HX HsX Hdir Hsd _.
  destruct (unit_row_ok dir h Hdir Hsd) as (d & Hd & Hwd & Hsd').
  destruct (project_rows (x_data ds) d [m] 1 h 1 HX Hwd HsX Hsd')
    as (Y & HY & HsY & _ & _).
  exists (fresh (dom s)), Y.
  assert (Hfresh : s !! fresh (dom s) = None).
  { apply not_elem_of_dom, is_fresh. }
  unfold Dataset.project, project_, mbind, load, lift, new.
  rewrite Hself, Hd. simpl. rewrite HY.
  repeat split; try done.
  - rewrite lookup_insert_ne; [done|]. intros Heq. congruence.
  - congruence.
Qed.

Lemma project_keeps_original_witness :
  let ds := mkDataset (mkTensor [1; 2]%nat [3; 4]) (mkTensor [1%nat] [0]) in
  let dir := mkTensor [2%nat] [1; 0] in
  exists (r : nat) (new_x : tensor),
    Dataset.project 0 dir {[0%nat := ds]}
      = (Ok r, <[r := mkDataset new_x (y_data ds)]> {[0%nat := ds]})
    /\ ({[0%nat := ds]} : store) !! r = None
    /\ (<[r := mkDataset new_x (y_data ds)]> {[0%nat := ds]} : store) !! 0%nat
       = Some ds
    /\ Dataset.project_ 0 dir {[0%nat := ds]}
      = (Ok tt, <[0%nat := mkDataset new_x (y_data ds)]> {[0%nat := ds]})
    /\ shape new_x = [1; 2]%nat.
Proof.
  intros ds dir.
  apply (project_keeps_original {[0%nat := ds]} 0 ds dir 1 2);
    [apply lookup_singleton_eq|reflexivity|reflexivity|reflexivity
    |reflexivity|].
  unfold norm, dir. simpl. intros H. apply sqrt_eq_0 in H; lra.
Defined.

End DatasetFacts.

(** ** Forward hooks *)

Module HooksFacts.
Import Tensor Hooks.
Local Open Scope result_scope.
Local Open Scope monad_scope.

(** *** Registration and removal *)

Lemma hooks_of_insert (s : hook_state) (n : nat) (m m' : module_id)
    (l : list (nat * hook)) :
  hooks_of (mkHookState n (<[m := l]> (forward_hooks s))) m'
  = if decide (m = m') then l else hooks_of s m'.
Proof.
  unfold hooks_of. simpl. destruct (decide (m = m')) as [->|Hne].
  - by rewrite lookup_insert_eq.
  - by rewrite lookup_insert_ne.
Qed.

Lemma hooks_of_remove (hd : handle) (s : hook_state) (m : module_id) :
  hooks_of (remove hd s) m
  = filter (fun p => (m, p.1) <> hd) (hooks_of s m).
Proof.
  unfold remove. rewrite hooks_of_insert. destruct hd as [m0 id]. simpl.
  destruct (decide (m0 = m)) as [->|Hne].
  - apply list_filter_iff. intros p. split; [congruence|].
    intros H Heq. apply H. by rewrite Heq.
  - symmetry. induction (hooks_of s m) as [|p l IH]; [reflexivity|].
    rewrite filter_cons_True by congruence. by rewrite IH.
Qed.

Lemma next_id_remove_all (hds : list handle) : forall s,
  next_id (remove_all hds s) = next_id s.
Proof.
  induction hds as [|hd hds IH]; intros s; [reflexivity|].
  unfold remove_all in *. simpl. by rewrite IH.
Qed.

Lemma hooks_of_remove_all (hds : list handle) : forall s m,
  hooks_of (remove_all hds s) m
  = filter (fun p => (m, p.1) ∉ hds) (hooks_of s m).
Proof.
  induction hds as [|hd hds IH]; intros s m.
  - simpl. symmetry. induction (hooks_of s m) as [|p l IHl]; [reflexivity|].
    rewrite filter_cons_True by apply not_elem_of_nil. by rewrite IHl.
  - change (remove_all (hd :: hds) s) with (remove_all hds (remove hd s)).
    rewrite IH, hooks_of_remove, list_filter_filter.
    apply list_filter_iff. intros p. rewrite not_elem_of_cons. tauto.
Qed.

(** What [register_all] leaves: the old hooks of each module followed by
    new ones, each of them under a handle that is returned. *)
Lemma register_all_spec (hooks : list (module_id * hook)) : forall s,
  exists hds s',
    register_all hooks s = (Ok hds, s')
    /\ next_id s <= next_id s'
    /\ (forall m id, (m, id) ∈ hds -> next_id s <= id)
    /\ forall m, exists new,
         hooks_of s' m = hooks_of s m ++ new
         /\ forall p, p ∈ new -> (m, p.1) ∈ hds.
Proof.
  induction hooks as [|[m0 f0] hooks IH]; intros s.
  - exists [], s. repeat split; try done.
    + intros m id H. by apply elem_of_nil in H.
    + intros m. exists []. split; [by rewrite app_nil_r|].
      intros p H. by apply elem_of_nil in H.
  - simpl. unfold mbind, register_forward_hook.
    set (s1 := mkHookState _ _).
    destruct (IH s1) as (hds & s' & Hreg & Hle & Hids & Hnew).
    rewrite Hreg. simpl.
    exists ((m0, next_id s) :: hds), s'. split; [reflexivity|].
    split; [simpl in Hle; lia|]. split.
    + intros m id Hin. apply elem_of_cons in Hin as [Heq|Hin].
      * injection Heq as -> ->. lia.
      * specialize (Hids m id Hin). simpl in Hids. lia.
    + intros m. destruct (Hnew m) as (new & Hs' & Hin).
      unfold s1 in Hs'. rewrite hooks_of_insert in Hs'.
      destruct (decide (m0 = m)) as [->|Hne].
      * exists ((next_id s, f0) :: new). split.
        { rewrite Hs'. by rewrite <- app_assoc. }
        intros p Hp. apply elem_of_cons in Hp as [->|Hp]; [left|].
        right. by apply Hin.
      * exists new. split; [exact Hs'|].
        intros p Hp. right. by apply Hin.
Qed.

(** Registering hooks and removing the handles restores every module. *)
Lemma register_then_remove (hooks : list (module_id * hook))
    (s : hook_state) :
  hooks_wf s ->
  exists hds, register_all hooks s = (Ok hds, registered hooks s)
    /\ forall s', (forall m, hooks_of s' m = hooks_of (registered hooks s) m) ->
         forall m, hooks_of (remove_all hds s') m = hooks_of s m.
Proof.
  intros Hwf. unfold registered.
  destruct (register_all_spec hooks s) as (hds & s1 & Hreg & _ & Hids & Hnew).
  rewrite Hreg. simpl. exists hds. split; [reflexivity|].
  intros s' Hs' m. rewrite hooks_of_remove_all, Hs'.
  destruct (Hnew m) as (new & -> & Hin). rewrite filter_app.
  replace (filter _ new) with (@nil (nat * hook)).
  2:{ symmetry. clear -Hin. induction new as [|p new IH]; [reflexivity|].
      rewrite filter_cons_False.
      - apply IH. intros q Hq. apply Hin. by right.
      - intros Hn. apply Hn, Hin. by left. }
  rewrite app_nil_r.
  assert (Hold : forall p, p ∈ hooks_of s m -> (m, p.1) ∉ hds).
  { intros p Hp Hin'. specialize (Hwf m p Hp). specialize (Hids m _ Hin').
    lia. }
  induction (hooks_of s m) as [|p l IH]; [reflexivity|].
  rewrite filter_cons_True by (apply Hold; by left).
  rewrite IH; [reflexivity|]. intros q Hq. apply Hold. by right.
Qed.

(** [try ... finally] around one forward pass. *)
Lemma guarded_call {A} (hooks : list (module_id * hook))
    (body : hook_state -> result A) (s : hook_state) :
  hooks_wf s ->
  let run := (hds <- register_all hooks ;
              try_finally (reraise (fun s' => (body s', s')))
                (remove_all hds)) s in
  run.1 = body (registered hooks s)
  /\ forall m, hooks_of run.2 m = hooks_of s m.
Proof.
  intros Hwf. destruct (register_then_remove hooks s Hwf) as (hds & Hreg & Hrm).
  unfold mbind. rewrite Hreg. unfold try_finally, reraise.
  destruct (body (registered hooks s)) as [a|e]; simpl;
    (split; [reflexivity|]); apply Hrm; reflexivity.
Qed.

Lemma get_activations_run (t : tokens) (mdl : model)
    (modules : list module_id) (operation : tensor -> result tensor)
    (s : hook_state) :
  hooks_wf s ->
  exists s',
    get_activations t mdl modules operation s
    = (let? r := call_model mdl
                   (registered (map (fun m => (m, hook_fn operation)) modules)
                      s) t ∅ in Ok r.2, s')
    /\ forall m, hooks_of s' m = hooks_of s m.
Proof.
  intros Hwf.
  destruct (guarded_call (map (fun m => (m, hook_fn operation)) modules)
              (fun s' => let? r := call_model mdl s' t ∅ in Ok r.2) s Hwf)
    as [H1 H2].
  exists (get_activations t mdl modules operation s).2. split; [|exact H2].
  rewrite <- H1. apply surjective_pairing.
Qed.

Lemma run_and_modify_run (t : tokens) (mdl : model)
    (modification_fns : list (module_id * hook)) (s : hook_state) :
  hooks_wf s ->
  exists s',
    run_and_modify t mdl modification_fns s
    = (let? r := call_model mdl (registered modification_fns s) t ∅ in
       Ok r.1, s')
    /\ forall m, hooks_of s' m = hooks_of s m.
Proof.
  intros Hwf.
  destruct (guarded_call modification_fns
              (fun s' => let? r := call_model mdl s' t ∅ in Ok r.1) s Hwf)
    as [H1 H2].
  exists (run_and_modify t mdl modification_fns s).2. split; [|exact H2].
  rewrite <- H1. apply surjective_pairing.
Qed.

Lemma no_hooks_wf (s : hook_state) :
  (forall m, hooks_of s m = []) -> hooks_wf s.
Proof. intros Hno m p Hp. rewrite Hno in Hp. by apply elem_of_nil in Hp. Qed.

(** C2. [get_activations] and [run_and_modify] leave on every module the
    hooks it had before the call, whether the forward pass returns or
    raises; an exception of the forward pass is the exception of the call,
    and a result of the forward pass is the result of the call. *)
Theorem hooks_removed_on_every_exit (t : tokens) (mdl : model)
    (modules : list module_id) (operation : tensor -> result tensor)
    (modification_fns : list (module_id * hook)) (s : hook_state) :
  hooks_wf s ->
  let recording := map (fun m => (m, hook_fn operation)) modules in
  let ga := get_activations t mdl modules operation s in
  let rm := run_and_modify t mdl modification_fns s in
  (forall m, hooks_of ga.2 m = hooks_of s m)
  /\ (forall m, hooks_of rm.2 m = hooks_of s m)
  /\ (forall e, call_model mdl (registered recording s) t ∅ = Raise e ->
        ga.1 = Raise e)
  /\ (forall e, call_model mdl (registered modification_fns s) t ∅ = Raise e ->
        rm.1 = Raise e)
  /\ (forall out a, call_model mdl (registered recording s) t ∅ = Ok (out, a) ->
        ga.1 = Ok a)
  /\ (forall out a,
        call_model mdl (registered modification_fns s) t ∅ = Ok (out, a) ->
        rm.1 = Ok out).
Proof.
  intros Hwf recording ga rm. subst ga rm recording.
  destruct (get_activations_run t mdl modules operation s Hwf)
    as (s1 & -> & Hs1).
  destruct (run_and_modify_run t mdl modification_fns s Hwf)
    as (s2 & -> & Hs2).
  simpl. repeat split; try assumption.
  - intros e He. by rewrite He.
  - intros e He. by rewrite He.
  - intros out a He. by rewrite He.
  - intros out a He. by rewrite He.
Qed.

(** On a model without hooks, with a forward pass that raises (the batch
    is empty). *)
Lemma hooks_removed_on_every_exit_witness :
  let t : tokens := [] in
  let mdl := Examples.mdl0 in
  let s := Examples.s0 in
  let recording := map (fun m => (m, hook_fn Ok)) [0] in
  let ga := get_activations t mdl [0] Ok s in
  let rm := run_and_modify t mdl [] s in
  (forall m, hooks_of ga.2 m = hooks_of s m)
  /\ (forall m, hooks_of rm.2 m = hooks_of s m)
  /\ (forall e, call_model mdl (registered recording s) t ∅ = Raise e ->
        ga.1 = Raise e)
  /\ (forall e, call_model mdl (registered [] s) t ∅ = Raise e ->
        rm.1 = Raise e)
  /\ (forall out a, call_model mdl (registered recording s) t ∅ = Ok (out, a) ->
        ga.1 = Ok a)
  /\ (forall out a, call_model mdl (registered [] s) t ∅ = Ok (out, a) ->
        rm.1 = Ok out).
Proof.
  apply (hooks_removed_on_every_exit [] Examples.mdl0 [0] Ok []
           Examples.s0).
  intros m p Hp. unfold hooks_of, Examples.s0 in Hp. simpl in Hp.
  rewrite lookup_empty in Hp. by apply elem_of_nil in Hp.
Defined.

Example get_activations_raises :
  get_activations [] Examples.mdl0 [0] Ok Examples.s0
  = (Raise RuntimeError,
     mkHookState 1 (<[0 := []]> ∅)).
Proof. reflexivity. Qed.

(** *** A model cut at one layer *)

Lemma run_layers_no_hooks (s : hook_state)
    (ls : list (module_id * (value -> result value))) : forall x a,
  (forall m, m ∈ ls.*1 -> hooks_of s m = []) ->
  run_layers s ls x a = let? y := run_plain ls x in Ok (y, a).
Proof.
  induction ls as [|[m f] ls IH]; intros x a Hno; simpl; [reflexivity|].
  destruct (f x) as [y|e]; simpl; [|reflexivity].
  rewrite (Hno m) by (simpl; left). simpl.
  apply IH. intros m' Hm'. apply Hno. simpl. by right.
Qed.

Lemma run_layers_app (s : hook_state)
    (l1 l2 : list (module_id * (value -> result value))) : forall x a,
  run_layers s (l1 ++ l2) x a
  = let? r := run_layers s l1 x a in run_layers s l2 r.1 r.2.
Proof.
  induction l1 as [|[m f] l1 IH]; intros x a; simpl; [reflexivity|].
  destruct (f x) as [y|e]; simpl; [|reflexivity].
  destruct (run_hooks m (hooks_of s m) x y a) as [ya|e]; simpl;
    [apply IH|reflexivity].
Qed.

Lemma hooks_of_registered_one (layer : module_id) (hk : hook)
    (s : hook_state) (m : module_id) :
  hooks_of (registered [(layer, hk)] s) m
  = if decide (layer = m) then hooks_of s layer ++ [(next_id s, hk)]
    else hooks_of s m.
Proof. unfold registered. simpl. apply hooks_of_insert. Qed.

Section CutModel.
Variable mdl : model.
Variables pre post : list (module_id * (value -> result value)).
Variable layer : module_id.
Variable f : value -> result value.
Hypothesis Hlayers : layers mdl = pre ++ (layer, f) :: post.
Hypothesis Hpre : layer ∉ pre.*1.
Hypothesis Hpost : layer ∉ post.*1.

(** The forward pass when [hk] is the only hook, on the layer [f]. *)
Lemma call_model_one_hook (hk : hook) (s : hook_state)
    (t : tokens) (a : acts) :
  (forall m, hooks_of s m = []) ->
  call_model mdl (registered [(layer, hk)] s) t a
  = let? x := embed mdl t in
    let? u := run_plain pre x in
    let? o := f u in
    let? ra := hk layer u o a in
    let? y := run_plain post (default o ra.1) in
    Ok (y, ra.2).
Proof.
  intros Hno. unfold call_model. rewrite Hlayers.
  destruct (embed mdl t) as [x|e]; simpl; [|reflexivity].
  rewrite run_layers_app, run_layers_no_hooks.
  2:{ intros m Hm. rewrite hooks_of_registered_one.
      destruct (decide (layer = m)) as [<-|_]; [contradiction|apply Hno]. }
  destruct (run_plain pre x) as [u|e]; simpl; [|reflexivity].
  destruct (f u) as [o|e]; simpl; [|reflexivity].
  rewrite hooks_of_registered_one.
  destruct (decide (layer = layer)) as [_|]; [|congruence].
  rewrite Hno. simpl.
  destruct (hk layer u o a) as [[r a']|e]; simpl; [|reflexivity].
  apply run_layers_no_hooks.
  intros m Hm. rewrite hooks_of_registered_one.
  destruct (decide (layer = m)) as [<-|_]; [contradiction|apply Hno].
Qed.

Variables dirs additional : tensor.
Variable projection_fn : tensor -> tensor -> result tensor.

End CutModel.

(** *** The probe on a one-layer model *)

Section OneLayer.
Import Examples.
Local Open Scope R_scope.

Lemma s0_no_hooks (m : module_id) : hooks_of s0 m = [].
Proof. unfold hooks_of, s0. simpl. by rewrite lookup_empty. Qed.






(** The value of the probe on this input: [project(2) + 1 + 0 = 1]. *)
Example create_frankenstein_mdl0 :
  (create_frankenstein dirs0 mdl0 0%nat (scalar 0) project1
     [[1%nat]] [[2%nat]] s0).1
  = Ok (VTuple [mkTensor [1; 1; 1]%nat [1]]).
Proof. vm_compute. do 5 f_equal. lra. Qed.

End OneLayer.

End HooksFacts.

(** ** Reversible model patching *)

Module PatchFacts.
Import Tensor Hooks Patch.
Local Open Scope result_scope.
Local Open Scope monad_scope.

(** *** Ordered dicts *)

Lemma lookup_set_module (kvs : list (string * ref)) (k k' : string) (r : ref) :
  lookup_module (set_module kvs k r) k'
  = if decide (k = k') then Some r else lookup_module kvs k'.
Proof.
  induction kvs as [|[k0 v0] kvs IH]; simpl.
  - destruct (decide (k = k')); reflexivity.
  - destruct (decide (k0 = k)) as [->|Hne]; simpl.
    + destruct (decide (k = k')); reflexivity.
    + rewrite IH. destruct (decide (k0 = k')) as [->|]; [|reflexivity].
      destruct (decide (k = k')); congruence.
Qed.

Lemma set_set_module (kvs : list (string * ref)) (k : string) (old new : ref) :
  lookup_module kvs k = Some old ->
  set_module (set_module kvs k new) k old = kvs.
Proof.
  induction kvs as [|[k0 v0] kvs IH]; simpl; [discriminate|].
  destruct (decide (k0 = k)) as [->|Hne]; simpl.
  - intros [= ->]. by rewrite decide_True.
  - intros H. rewrite decide_False by done. by rewrite IH.
Qed.

Lemma length_set_module (kvs : list (string * ref)) (k : string) (old r : ref) :
  lookup_module kvs k = Some old ->
  length (set_module kvs k r) = length kvs.
Proof.
  induction kvs as [|[k0 v0] kvs IH]; simpl; [discriminate|].
  destruct (decide (k0 = k)) as [->|Hne]; simpl; [reflexivity|].
  intros H. by rewrite IH.
Qed.

Lemma lookup_module_elem (kvs : list (string * ref)) (k : string) (r : ref) :
  lookup_module kvs k = Some r -> (k, r) ∈ kvs.
Proof.
  induction kvs as [|[k0 v0] kvs IH]; simpl; [discriminate|].
  destruct (decide (k0 = k)) as [->|Hne].
  - intros [= ->]. left.
  - intros H. right. by apply IH.
Qed.

Lemma filter_ne_id (l : list string) (k : string) :
  k ∉ l -> filter (fun x => x <> k) l = l.
Proof.
  induction l as [|x l IH]; intros Hk; [reflexivity|].
  apply not_elem_of_cons in Hk as [Hne Hk].
  rewrite filter_cons_True by congruence. by rewrite IH.
Qed.

(** *** Attributes *)

Lemma py_getattr_module (o : module_obj) (name : string) (r : ref) :
  py_getattr o name = Ok (AModule r) ->
  (name ∉ m_dict o) /\ (name ∉ m_params o)
  /\ lookup_module (m_modules o) name = Some r.
Proof.
  unfold py_getattr. intros H.
  destruct (bool_decide (name ∈ m_class o)) eqn:Hc; simpl in H;
    [discriminate|].
  destruct (bool_decide (name ∈ m_dict o)) eqn:Hd; simpl in H;
    [discriminate|].
  destruct (bool_decide (name ∈ m_params o)) eqn:Hp; [discriminate|].
  destruct (lookup_module (m_modules o) name) as [c|]; [|discriminate].
  injection H as ->.
  apply bool_decide_eq_false in Hd, Hp. done.
Qed.

Lemma py_getattr_missing (o : module_obj) (name : string) :
  py_hasattr o name = false -> py_getattr o name = Raise (AttributeError name).
Proof.
  unfold py_hasattr, py_getattr. intros H.
  apply orb_false_iff in H as [H Hm].
  apply orb_false_iff in H as [H Hp].
  rewrite H, Hp.
  apply bool_decide_eq_false in Hm.
  destruct (lookup_module (m_modules o) name); [|reflexivity].
  exfalso. apply Hm. eauto.
Qed.

(** Replacing the module held under [name] and putting it back. *)
Lemma py_setattr_roundtrip (o o1 : module_obj) (name : string) (old new : ref) :
  name ∉ m_dict o ->
  lookup_module (m_modules o) name = Some old ->
  py_setattr o name new = Ok o1 ->
  py_setattr o1 name old = Ok o
  /\ m_kind o1 = m_kind o /\ m_class o1 = m_class o /\ m_dict o1 = m_dict o
  /\ m_params o1 = m_params o
  /\ length (m_modules o1) = length (m_modules o)
  /\ forall k, lookup_module (m_modules o1) k
       = if decide (name = k) then Some new else lookup_module (m_modules o) k.
Proof.
  intros Hd Hm. unfold py_setattr.
  destruct (bool_decide (name ∈ m_params o)) eqn:Hp; [discriminate|].
  intros [= <-]. simpl. rewrite Hp.
  rewrite !(filter_ne_id _ _ Hd). rewrite (set_set_module _ _ _ _ Hm).
  repeat split; try done.
  - by destruct o.
  - by apply (length_set_module _ _ old).
  - intros k. apply lookup_set_module.
Qed.

Lemma py_hasattr_same_names (o o1 : module_obj) (name : string) :
  m_class o1 = m_class o -> m_dict o1 = m_dict o ->
  m_params o1 = m_params o ->
  (is_Some (lookup_module (m_modules o1) name)
   <-> is_Some (lookup_module (m_modules o) name)) ->
  py_hasattr o1 name = py_hasattr o name.
Proof.
  intros Hc Hd Hp Hm. unfold py_hasattr. rewrite Hc, Hd, Hp.
  f_equal. by apply bool_decide_ext.
Qed.

(** Writing a module into a slot and writing back the module it held
    gives the parent object back. *)
Lemma write_slot_roundtrip (o o1 : module_obj) (name : string)
    (old new : ref) :
  (forall k c, lookup_module (m_modules o) k = Some c -> k ∉ m_dict o) ->
  read_slot o name = Ok old ->
  write_slot o name new = Ok o1 ->
  write_slot o1 name old = Ok o.
Proof.
  intros Hdisj. unfold read_slot, write_slot.
  destruct (py_hasattr o name) eqn:Hh.
  - destruct (py_getattr o name) as [[c|]|e] eqn:Hg; simpl; try discriminate.
    intros [= ->] Hset.
    apply py_getattr_module in Hg as (Hd & _ & Hm).
    destruct (py_setattr_roundtrip o o1 name old new Hd Hm Hset)
      as (Hback & _ & Hc & Hd1 & Hp & _ & Hlk).
    rewrite (py_hasattr_same_names o o1 name Hc Hd1 Hp), Hh; [exact Hback|].
    rewrite Hlk, decide_True, Hm by done. split; eauto.
  - destruct (PyStr.py_int name) as [idx|e]; simpl; [|discriminate].
    unfold py_getitem, py_setitem.
    destruct (m_kind o) eqn:Hk; try discriminate.
    destruct (abs_string_index o idx) as [key|e] eqn:Hkey; simpl;
      [|discriminate].
    destruct (lookup_module (m_modules o) key) as [c|] eqn:Hm;
      [|discriminate].
    intros [= ->] Hset.
    destruct (py_setattr_roundtrip o o1 key old new (Hdisj _ _ Hm) Hm Hset)
      as (Hback & Hk1 & Hc & Hd1 & Hp & Hlen & Hlk).
    rewrite (py_hasattr_same_names o o1 name Hc Hd1 Hp), Hh.
    2:{ rewrite Hlk. destruct (decide (key = name)) as [<-|_]; [|done].
        rewrite Hm. split; eauto. }
    simpl. rewrite Hk1, Hk.
    unfold abs_string_index in *. rewrite Hlen, Hkey. simpl. exact Hback.
Qed.

(** [s.split(sep)] is never the empty list. *)
Lemma split_on_go_nonempty (sep : ascii) (s w : string) :
  PyStr.split_on_go sep w s <> [].
Proof.
  revert w. induction s as [|c s IH]; intros w; simpl; [discriminate|].
  destruct (decide (c = sep)); [discriminate|apply IH].
Qed.

(** C10. On a module that has no attribute [wrapped_module],
    [edit_model_inplace] raises [AttributeError] while the wrapper is being
    built, and the heap is the one it started from. *)
Theorem edit_unwrapped_is_atomic (model old_module : ref)
    (module_name : string) (projection : tensor -> result tensor)
    (has_leftover : bool) (h : heap) (o : module_obj) :
  h !! old_module = Some o ->
  py_hasattr o "wrapped_module" = false ->
  edit_model_inplace model old_module module_name projection has_leftover h
  = (Raise (AttributeError "wrapped_module"), h).
Proof.
  intros Ho Hno. unfold edit_model_inplace, mbind, ProjectionWrapper_init.
  unfold deref. rewrite Ho. simpl.
  by rewrite (py_getattr_missing o _ Hno).
Qed.

(** X23. A patch that raises, at whatever step, leaves every module of
    the heap as it was; at most the new wrapper is left behind,
    unreachable. *)
Lemma edit_failure_keeps_modules (model old_module : ref)
    (module_name : string) (projection : tensor -> result tensor)
    (has_leftover : bool) (h : heap) (e : exn) :
  (edit_model_inplace model old_module module_name projection has_leftover
     h).1 = Raise e ->
  forall r o, h !! r = Some o ->
    (edit_model_inplace model old_module module_name projection has_leftover
       h).2 !! r = Some o.
Proof.
  unfold edit_model_inplace, mbind, resolve_parent, assign_slot.
  intros He r o Hr.
  destruct (ProjectionWrapper_init h old_module projection has_leftover)
    as [w|e0]; [|exact Hr].
  assert (Hnew : fresh (dom h) <> r).
  { intros Heq. apply (is_fresh (dom h)). rewrite Heq.
    apply elem_of_dom. eauto. }
  destruct (get_submodule _ model _) as [parent|e1]; simpl in *;
    [|by rewrite lookup_insert_ne].
  destruct (rbind _ _) as [o'|e2]; simpl in *; [discriminate|].
  by rewrite lookup_insert_ne.
Qed.

(** *** Well-formed heaps *)

Section Heap.
Variable h : heap.
Variable rank : ref -> nat.
Hypothesis Hwf : heap_wf h rank.

Lemma heap_wf_child (r c : ref) (o : module_obj) (k : string) :
  h !! r = Some o -> lookup_module (m_modules o) k = Some c ->
  is_Some (h !! c) /\ rank c < rank r /\ (k ∉ m_dict o).
Proof.
  intros Hr Hk. apply lookup_module_elem in Hk.
  pose proof (map_Forall_lookup_1 _ _ _ _ Hwf Hr) as Hall. simpl in Hall.
  apply (proj1 (Forall_forall _ _) Hall (k, c) Hk).
Qed.

(** One step of the walk of [get_submodule]. *)
Lemma walk_cons_inv (r p : ref) (a : string) (rest : list string) :
  walk h r (a :: rest) = Ok p ->
  exists o c, h !! r = Some o
    /\ py_hasattr o a = true
    /\ py_getattr o a = Ok (AModule c)
    /\ walk h c rest = Ok p.
Proof.
  simpl. unfold deref. destruct (h !! r) as [o|]; simpl; [|discriminate].
  destruct (py_hasattr o a) eqn:Hh; simpl; [|discriminate].
  destruct (py_getattr o a) as [[c|]|e] eqn:Hg; simpl; try discriminate.
  intros H. exists o, c. repeat split; assumption.
Qed.

Lemma walk_rank (atoms : list string) : forall r p,
  walk h r atoms = Ok p ->
  rank p <= rank r /\ (atoms <> [] -> rank p < rank r).
Proof.
  induction atoms as [|a rest IH]; intros r p Hw.
  - injection Hw as ->. split; [lia|congruence].
  - apply walk_cons_inv in Hw as (o & c & Hr & _ & Hg & Hw).
    apply py_getattr_module in Hg as (_ & _ & Hc).
    destruct (heap_wf_child r c o a Hr Hc) as (_ & Hlt & _).
    destruct (IH c p Hw) as [Hle _]. split; intros; lia.
Qed.

Lemma walk_allocated (atoms : list string) : forall r p,
  is_Some (h !! r) -> walk h r atoms = Ok p -> is_Some (h !! p).
Proof.
  induction atoms as [|a rest IH]; intros r p Hr Hw.
  - by injection Hw as <-.
  - apply walk_cons_inv in Hw as (o & c & Ho & _ & Hg & Hw).
    apply py_getattr_module in Hg as (_ & _ & Hc).
    destruct (heap_wf_child r c o a Ho Hc) as (Hsome & _).
    by apply (IH c).
Qed.

(** The walk reads only modules strictly above the one it reaches. *)
Lemma walk_agree (h' : heap) (atoms : list string) : forall r p,
  walk h r atoms = Ok p ->
  (forall r' o', rank p < rank r' -> h !! r' = Some o' ->
                 h' !! r' = Some o') ->
  walk h' r atoms = Ok p.
Proof.
  induction atoms as [|a rest IH]; intros r p Hw Hsame; [exact Hw|].
  pose proof (walk_rank _ _ _ Hw) as [_ Hlt].
  apply walk_cons_inv in Hw as (o & c & Hr & Hh & Hg & Hw).
  simpl. unfold deref.
  rewrite (Hsame r o) by (auto; apply Hlt; congruence).
  simpl. rewrite Hh, Hg. simpl. by apply IH.
Qed.

Lemma get_submodule_agree (h' : heap) (model p : ref) (target : string) :
  get_submodule h model target = Ok p ->
  (forall r' o', rank p < rank r' -> h !! r' = Some o' ->
                 h' !! r' = Some o') ->
  get_submodule h' model target = Ok p.
Proof.
  unfold get_submodule. destruct (decide (target = EmptyString)); [done|].
  apply walk_agree.
Qed.

(** In a larger heap the walk from an allocated module is the same. *)
Lemma walk_weaken (h' : heap) (atoms : list string) : forall r,
  h ⊆ h' -> is_Some (h !! r) -> walk h' r atoms = walk h r atoms.
Proof.
  induction atoms as [|a rest IH]; intros r Hsub [o Hr]; [reflexivity|].
  simpl. unfold deref. rewrite Hr, (lookup_weaken _ _ _ _ Hr Hsub). simpl.
  destruct (py_hasattr o a); simpl; [|reflexivity].
  destruct (py_getattr o a) as [[c|]|e] eqn:Hg; simpl; try reflexivity.
  apply py_getattr_module in Hg as (_ & _ & Hc).
  destruct (heap_wf_child r c o a Hr Hc) as (Hsome & _).
  by apply IH.
Qed.

Lemma forward_weaken (h' : heap) (fuel : nat) : forall r x,
  h ⊆ h' -> is_Some (h !! r) -> forward fuel h' r x = forward fuel h r x.
Proof.
  induction fuel as [|fuel IH]; intros r x Hsub [o Hr]; [reflexivity|].
  simpl. unfold deref. rewrite Hr, (lookup_weaken _ _ _ _ Hr Hsub). simpl.
  destruct (m_kind o) as [body| |projection has_leftover].
  - f_equal. extensionality path. extensionality v.
    unfold get_submodule. destruct (decide (path = EmptyString)) as [_|_]; simpl.
    + apply IH; eauto.
    + rewrite walk_weaken by eauto.
      destruct (walk h r (PyStr.split_on "." path)) as [c|e] eqn:Hw;
        simpl; [|reflexivity].
      apply IH; [done|]. eapply walk_allocated; eauto.
  - reflexivity.
  - destruct (py_getattr o "wrapped_module") as [[w|]|e] eqn:Hg; simpl;
      try reflexivity.
    apply py_getattr_module in Hg as (_ & _ & Hc).
    destruct (heap_wf_child r w o _ Hr Hc) as (Hsome & _).
    by rewrite IH.
Qed.

Lemma get_submodule_allocated (model p : ref) (target : string) :
  get_submodule h model target = Ok p -> is_Some (h !! p) ->
  is_Some (h !! model).
Proof.
  unfold get_submodule, PyStr.split_on.
  destruct (decide (target = EmptyString)); [by intros [= ->]|].
  pose proof (split_on_go_nonempty "." target EmptyString) as Hne.
  destruct (PyStr.split_on_go "." EmptyString target) as [|a rest]; [done|].
  intros Hw _. apply walk_cons_inv in Hw as (o & _ & Hr & _). eauto.
Qed.

(** C4. When the slot designated by [module_name] holds [old_module]
    and the patch is applied, undoing it succeeds, the slot holds
    [old_module] again, every module of the heap is as it was, and the
    model computes the same output on every input. *)
Theorem patch_then_undo (model old_module : ref) (module_name : string)
    (projection : tensor -> result tensor) (has_leftover : bool) :
  resolved_slot h model module_name = Ok old_module ->
  let patched := edit_model_inplace model old_module module_name
                   projection has_leftover h in
  patched.1 = Ok tt ->
  let undone := recover_model_inplace model old_module module_name
                  patched.2 in
  undone.1 = Ok tt
  /\ resolved_slot undone.2 model module_name = Ok old_module
  /\ (forall r o, h !! r = Some o -> undone.2 !! r = Some o)
  /\ forall fuel x, forward fuel undone.2 model x = forward fuel h model x.
Proof.
  intros Hslot patched Hp undone. subst undone patched.
  unfold resolved_slot in Hslot.
  unfold edit_model_inplace, recover_model_inplace, resolve_parent,
    mbind in *.
  set (name := List.last (PyStr.split_on "." module_name) EmptyString) in *.
  set (parent_name :=
         PyStr.join "." (removelast (PyStr.split_on "." module_name))) in *.
  destruct (get_submodule h model parent_name) as [parent|e] eqn:Hgs;
    simpl in Hslot; [|discriminate].
  unfold deref in Hslot.
  destruct (h !! parent) as [o|] eqn:Hparent; simpl in Hslot;
    [|discriminate].
  destruct (ProjectionWrapper_init h old_module projection has_leftover)
    as [w|e]; [|discriminate].
  set (new := fresh (dom h)) in *.
  assert (Hnew : h !! new = None) by apply not_elem_of_dom, is_fresh.
  assert (Hsub : h ⊆ <[new := w]> h) by by apply insert_subseteq.
  assert (Hne : new <> parent) by congruence.
  (* the patch *)
  rewrite (get_submodule_agree (<[new := w]> h) model parent parent_name Hgs)
    in Hp |- *.
  2,3: intros r' o' _ Hr'; eapply lookup_weaken; eauto.
  simpl in Hp |- *.
  assert (Hassign : assign_slot parent name new (<[new := w]> h)
            = match write_slot o name new with
              | Ok o' => (Ok tt, <[parent := o']> (<[new := w]> h))
              | Raise e => (Raise e, <[new := w]> h)
              end).
  { unfold assign_slot, deref. by rewrite lookup_insert_ne, Hparent. }
  rewrite Hassign in Hp |- *. clear Hassign.
  destruct (write_slot o name new) as [o1|e] eqn:Hw1; [|discriminate].
  simpl.
  (* the undo *)
  rewrite (get_submodule_agree (<[parent := o1]> (<[new := w]> h))
             model parent parent_name Hgs).
  2:{ intros r' o' Hlt Hr'. rewrite !lookup_insert_ne; [done|congruence|].
      intros ->. lia. }
  simpl. unfold assign_slot, deref. rewrite lookup_insert_eq. simpl.
  rewrite (write_slot_roundtrip o o1 name old_module new); try done.
  2:{ intros k c Hk. by apply (heap_wf_child parent c o k). }
  simpl. rewrite insert_insert_eq.
  assert (Hh2 : <[parent := o]> (<[new := w]> h) = <[new := w]> h).
  { apply insert_id. by rewrite lookup_insert_ne. }
  rewrite Hh2. split; [reflexivity|]. split; [|split].
  - unfold resolved_slot. fold name parent_name.
    rewrite (get_submodule_agree (<[new := w]> h) model parent parent_name
               Hgs).
    2:{ intros r' o' _ Hr'. eapply lookup_weaken; eauto. }
    simpl. unfold deref. rewrite lookup_insert_ne, Hparent by done.
    exact Hslot.
  - intros r o' Hr. eapply lookup_weaken; eauto.
  - intros fuel x. apply (forward_weaken); [done|].
    eapply get_submodule_allocated; eauto.
Qed.
End Heap.

(** *** Patching a three-module model *)

Section OnHeap0.
Import Projection Examples.

Lemma heap0_wf : heap_wf heap0 rank0.
Proof. by apply (bool_decide_unpack _). Qed.

Example resolved_slot_heap0 : resolved_slot heap0 0 "layer" = Ok 1.
Proof. reflexivity. Qed.

Example edit_heap0 :
  (edit_model_inplace 0 1 "layer" (fun t => project1 t dirs0) false heap0).1
  = Ok tt.
Proof. reflexivity. Qed.

Lemma patch_then_undo_witness :
  let patched := edit_model_inplace 0 1 "layer"
                   (fun t => project1 t dirs0) false heap0 in
  let undone := recover_model_inplace 0 1 "layer" patched.2 in
  undone.1 = Ok tt
  /\ resolved_slot undone.2 0 "layer" = Ok 1
  /\ (forall r o, heap0 !! r = Some o -> undone.2 !! r = Some o)
  /\ forall fuel x, forward fuel undone.2 0 x = forward fuel heap0 0 x.
Proof.
  apply (patch_then_undo heap0 rank0 heap0_wf 0 1 "layer"
           (fun t => project1 t dirs0) false);
    [reflexivity|reflexivity].
Defined.

Lemma edit_unwrapped_is_atomic_witness :
  edit_model_inplace 0 2 "layer.wrapped_module"
    (fun t => project1 t dirs0) false heap0
  = (Raise (AttributeError "wrapped_module"), heap0).
Proof.
  apply (edit_unwrapped_is_atomic 0 2 "layer.wrapped_module"
           (fun t => project1 t dirs0) false heap0 leaf0);
    [reflexivity|reflexivity].
Defined.

(** While patched, the model projects the output of the wrapped module. *)
Example forward_heap0 :
  forward 3 heap0 0 (VTensor (mkTensor [1; 1]%nat [1%R]))
  = Ok (VTensor (mkTensor [1; 1]%nat [1%R])).
Proof. reflexivity. Qed.

Example forward_patched :
  forward 3
    (edit_model_inplace 0 1 "layer" (fun t => project1 t dirs0) false heap0).2
    0 (VTensor (mkTensor [1; 1]%nat [1%R]))
  = Ok (VTensor (mkTensor [1; 1]%nat [0%R])).
Proof. vm_compute. do 4 f_equal. lra. Qed.

End OnHeap0.

End PatchFacts.

(** ** The swap test *)

Module ConfusionFacts.
Import Tensor Hooks Confusion Examples TensorFacts.
Local Open Scope R_scope.
Local Open Scope result_scope.

(** *** Stacked tensors *)

Lemma block_of_mjoin (L : list (list R)) (n : nat) : forall k l,
  Forall (fun r => length r = n) L -> L !! k = Some l ->
  take n (drop (k * n) (mjoin L)) = l.
Proof.
  induction L as [|l0 L IH]; intros k l Hall Hk; [by destruct k|].
  apply Forall_cons in Hall as [Hl0 Hall]. destruct k as [|k]; simpl in *.
  - injection Hk as ->. by apply take_app_length'.
  - rewrite drop_app_add' by done. by apply IH.
Qed.

Lemma select_last_stacked (L : list (list R)) (n v : nat) :
  Forall (fun r => length r = (S n * v)%nat) L ->
  select_last (mkTensor [length L; S n; v] (mjoin L))
  = Ok (mkTensor [length L; v] (mjoin (map (drop (n * v)) L))).
Proof.
  intros Hall. unfold select_last. simpl shape. simpl data.
  cbv beta iota. rewrite numel_singleton, reshape_replicate_mjoin by done. reflexivity.
Qed.

Lemma log_softmax_stacked (L : list (list R)) (v : nat) :
  Forall (fun r => length r = v) L ->
  log_softmax (mkTensor [length L; v] (mjoin L))
  = Ok (mkTensor [length L; v] (mjoin (map log_softmax_row L))).
Proof.
  intros Hall. unfold log_softmax, last_dim, rows. simpl.
  rewrite Nat.mul_1_r, reshape_replicate_mjoin by done. reflexivity.
Qed.

Lemma tindex_stacked (L : list (list R)) (v k : nat) (l : list R) :
  Forall (fun r => length r = v) L -> L !! k = Some l ->
  tindex (mkTensor [length L; v] (mjoin L)) (Z.of_nat k)
  = Ok (mkTensor [v] l).
Proof.
  intros Hall Hk. unfold tindex. simpl shape. simpl data. cbv beta iota.
  pose proof (lookup_lt_Some _ _ _ Hk) as Hlt.
  replace ((- Z.of_nat (length L) <=? Z.of_nat k)%Z
           && (Z.of_nat k <? Z.of_nat (length L))%Z) with true
    by (symmetry; apply andb_true_iff; split;
        [apply Z.leb_le|apply Z.ltb_lt]; lia).
  replace (Z.of_nat k <? 0)%Z with false by (symmetry; apply Z.ltb_ge; lia).
  rewrite Nat2Z.id, numel_singleton.
  by rewrite (block_of_mjoin L v k l).
Qed.

Lemma take1_drop (l : list R) : forall c,
  (c < length l)%nat -> take 1 (drop c l) = [nth c l 0].
Proof.
  induction l as [|x l IH]; intros c Hc; simpl in Hc; [lia|].
  destruct c as [|c]; [reflexivity|]. simpl. apply IH. lia.
Qed.

(** One margin, on a row of log-probabilities. *)
Lemma margin_row (l : list R) (c w : nat) :
  margin (mkTensor [length l] l) (Z.of_nat c) (Z.of_nat w)
  = if decide ((c < length l)%nat /\ (w < length l)%nat)
    then Ok (nth c l 0 - nth w l 0) else Raise IndexError.
Proof.
  assert (Hidx : forall k,
    tindex (mkTensor [length l] l) (Z.of_nat k)
    = if decide (k < length l)%nat then Ok (mkTensor [] [nth k l 0])
      else Raise IndexError).
  { intros k. unfold tindex. simpl shape. simpl data. cbv beta iota.
    replace (- Z.of_nat (length l) <=? Z.of_nat k)%Z with true
      by (symmetry; apply Z.leb_le; lia).
    simpl. destruct (decide (k < length l)%nat) as [Hlt|Hge].
    - replace (Z.of_nat k <? Z.of_nat (length l))%Z with true
        by (symmetry; apply Z.ltb_lt; lia).
      replace (Z.of_nat k <? 0)%Z with false
        by (symmetry; apply Z.ltb_ge; lia).
      rewrite Nat2Z.id, Nat.mul_1_r. by rewrite take1_drop.
    - replace (Z.of_nat k <? Z.of_nat (length l))%Z with false
        by (symmetry; apply Z.ltb_ge; lia).
      reflexivity. }
  unfold margin. rewrite !Hidx.
  destruct (decide (c < length l)%nat) as [Hc|Hc]; simpl.
  - destruct (decide (w < length l)%nat) as [Hw|Hw]; simpl.
    + rewrite decide_True by done. reflexivity.
    + rewrite decide_False by tauto. reflexivity.
  - rewrite decide_False by tauto. reflexivity.
Qed.

(** *** A model that treats the examples of a batch one by one *)

Section Rowwise.
Variable tokenize : list string -> result tokens.
Variable tok1 : string -> list nat.
Variable encode : string -> list nat.
Variables s v : nat.
Variable g : list nat -> list nat -> list R.
Hypothesis Htok : forall l, tokenize l = Ok (map tok1 l).
Hypothesis Hg : forall x y, length (g x y) = (s * v)%nat.

Lemma length_last_logprobs (x y : list nat) :
  s <> 0%nat -> length (last_logprobs s v g x y) = v.
Proof.
  intros Hs. unfold last_logprobs, log_softmax_row.
  rewrite length_map, length_drop, Hg. destruct s; [done|]. simpl. lia.
Qed.

(** The measure in terms of the four rows of log-probabilities. *)
Lemma measure_confusions_rowwise (test : Test) :
  measure_confusions_grad tokenize encode test (batch_model s v g)
  = match s with
    | O => Raise IndexError
    | S _ =>
        let row q1 q2 :=
          mkTensor [v] (last_logprobs s v g (tok1 (prompt q1))
                          (tok1 (prompt q2))) in
        let? correct0 := first_token encode (answer (positive test)) in
        let? wrong0 := first_token encode (answer (negative test)) in
        let? res00 := margin (row (positive test) (positive test))
                        correct0 wrong0 in
        let? res01 := margin (row (positive test) (negative test))
                        correct0 wrong0 in
        let? correct1 := first_token encode (answer (negative test)) in
        let? wrong1 := first_token encode (answer (positive test)) in
        let? res10 := margin (row (negative test) (positive test))
                        correct1 wrong1 in
        let? res11 := margin (row (negative test) (negative test))
                        correct1 wrong1 in
        Ok (Rabs (res00 - res01) + Rabs (res11 - res10))
    end.
Proof.
  unfold measure_confusions_grad. rewrite !Htok. cbn [rbind].
  unfold batch_model. cbn [rbind].
  set (p := tok1 (prompt (positive test))).
  set (n := tok1 (prompt (negative test))).
  set (L := [g p p; g p n; g n p; g n n]).
  change (first_output _) with (Ok (mkTensor [length L; s; v] (mjoin L))).
  cbn [rbind]. destruct s as [|s'] eqn:Hs; [reflexivity|].
  assert (HL : Forall (fun r => length r = (S s' * v)%nat) L).
  { unfold L. repeat constructor; apply Hg. }
  rewrite select_last_stacked by exact HL. cbn [rbind].
  set (L1 := map (drop (s' * v)) L).
  assert (HL1 : Forall (fun r => length r = v) L1).
  { unfold L1. apply Forall_map. eapply Forall_impl; [exact HL|].
    intros r Hr. simpl in *. rewrite length_drop, Hr. lia. }
  change (length L) with (length L1).
  rewrite log_softmax_stacked by exact HL1. cbn [rbind].
  set (L2 := map log_softmax_row L1).
  assert (HL2 : Forall (fun r => length r = v) L2).
  { unfold L2. apply Forall_map. eapply Forall_impl; [exact HL1|].
    intros r Hr. simpl in *. unfold log_softmax_row.
    by rewrite length_map. }
  change (length L1) with (length L2).
  change 0%Z with (Z.of_nat 0). change 1%Z with (Z.of_nat 1).
  change 2%Z with (Z.of_nat 2). change 3%Z with (Z.of_nat 3).
  rewrite (tindex_stacked L2 v 0 _ HL2 eq_refl).
  rewrite (tindex_stacked L2 v 1 _ HL2 eq_refl).
  rewrite (tindex_stacked L2 v 2 _ HL2 eq_refl).
  rewrite (tindex_stacked L2 v 3 _ HL2 eq_refl).
  cbn [rbind]. unfold last_logprobs.
  replace (S s' - 1)%nat with s' by lia. reflexivity.
Qed.

(** X30. For a model that computes each example of the batch from that
    example's pair of inputs alone, and a tokenizer that works prompt by
    prompt, exchanging the two sides of the test leaves the value of
    [measure_confusions] and of [measure_confusions_grad] unchanged. *)
Theorem measure_confusions_swap (test : Test) :
  measure_confusions tokenize encode (swap test) (batch_model s v g)
  = measure_confusions tokenize encode test (batch_model s v g)
  /\ measure_confusions_grad tokenize encode (swap test) (batch_model s v g)
     = measure_confusions_grad tokenize encode test (batch_model s v g).
Proof.
  unfold measure_confusions.
  assert (measure_confusions_grad tokenize encode (swap test)
            (batch_model s v g)
          = measure_confusions_grad tokenize encode test
              (batch_model s v g)); [|by split].
  rewrite !measure_confusions_rowwise.
  pose proof length_last_logprobs as Hlen.
  destruct s as [|s']; [reflexivity|].
  simpl positive. simpl negative. unfold first_token.
  destruct (encode (answer (positive test))) as [|cp ?];
    destruct (encode (answer (negative test))) as [|cn ?];
    simpl; try reflexivity.
  assert (Hrow : forall x y c w,
    margin (mkTensor [v] (last_logprobs (S s') v g x y))
      (Z.of_nat c) (Z.of_nat w)
    = if decide ((c < v)%nat /\ (w < v)%nat)
      then Ok (nth c (last_logprobs (S s') v g x y) 0
               - nth w (last_logprobs (S s') v g x y) 0)
      else Raise IndexError).
  { intros x y c w.
    pose proof (margin_row (last_logprobs (S s') v g x y) c w) as Hm.
    by rewrite (Hlen x y) in Hm. }
  rewrite !Hrow.
  destruct (decide ((cn < v)%nat /\ (cp < v)%nat)) as [H1|H1];
    destruct (decide ((cp < v)%nat /\ (cn < v)%nat)) as [H2|H2];
    simpl; try reflexivity; try tauto.
  f_equal. apply Rplus_comm.
Qed.
End Rowwise.

(** *** The measure on small inputs *)

Ltac eval_confusion :=
  cbv -[exp ln Rabs Rplus Rminus Rmult Ropp Rinv Rdiv IZR];
  f_equal; unfold Rabs; repeat destruct Rcase_abs; lra.

Ltac list_eq := repeat (apply f_equal2; [lra|]); reflexivity.

(** The probe on the batch of the test, and on the batch of the test with
    its sides exchanged: it reads the first example of its first input
    ([x[0]]) for the whole batch. *)
Example probe1_test0 :
  probe1 [[1]; [1]; [2]; [2]]%nat [[1]; [2]; [1]; [2]]%nat
  = Ok (VTuple [mkTensor [4; 1; 3]%nat
                  [0; 1; 0; 0; 2; 0; 0; 1; 0; 0; 2; 0]]).
Proof. vm_compute. do 4 f_equal. list_eq. Qed.

Example probe1_swap_test0 :
  probe1 [[2]; [2]; [1]; [1]]%nat [[2]; [1]; [2]; [1]]%nat
  = Ok (VTuple [mkTensor [4; 1; 3]%nat
                  [0; 4; 0; 0; 2; 0; 0; 4; 0; 0; 2; 0]]).
Proof. vm_compute. do 4 f_equal. list_eq. Qed.

Example measure_confusions_test0 :
  measure_confusions tokenize0 encode0 test0 probe1 = Ok 2.
Proof.
  unfold measure_confusions, measure_confusions_grad.
  change (tokenize0 _) with (Ok ([[1]; [1]; [2]; [2]]%nat : tokens)) at 1.
  change (tokenize0 _) with (Ok ([[1]; [2]; [1]; [2]]%nat : tokens)).
  cbn [rbind]. rewrite probe1_test0. eval_confusion.
Qed.

Example measure_confusions_swap_test0 :
  measure_confusions tokenize0 encode0 (swap test0) probe1 = Ok 4.
Proof.
  unfold measure_confusions, measure_confusions_grad.
  change (tokenize0 _) with (Ok ([[2]; [2]; [1]; [1]]%nat : tokens)) at 1.
  change (tokenize0 _) with (Ok ([[2]; [1]; [2]; [1]]%nat : tokens)).
  cbn [rbind]. rewrite probe1_swap_test0. eval_confusion.
Qed.

(** C6. With the probe of [create_frankenstein] as the model, which is the
    model the repository measures, exchanging the two sides of a test
    changes the value of [measure_confusions] and of
    [measure_confusions_grad]: the test scores 2 and the test with its
    sides exchanged scores 4.  [measure_confusions_grad] sends the four
    combinations of prompts as one batch, and the probe keeps the first
    example of its first input ([x[0]]) for the whole batch, so that the
    two combinations led by the second prompt are computed from the first
    prompt. *)
Theorem measure_confusions_probe_asymmetric :
  measure_confusions tokenize0 encode0 test0 probe1 = Ok 2
  /\ measure_confusions tokenize0 encode0 (swap test0) probe1 = Ok 4
  /\ measure_confusions_grad tokenize0 encode0 test0 probe1 = Ok 2
  /\ measure_confusions_grad tokenize0 encode0 (swap test0) probe1 = Ok 4
  /\ measure_confusions tokenize0 encode0 (swap test0) probe1
     <> measure_confusions tokenize0 encode0 test0 probe1.
Proof.
  pose proof measure_confusions_test0 as H2.
  pose proof measure_confusions_swap_test0 as H4.
  repeat split; try assumption.
  rewrite H2, H4. intros H. injection H. lra.
Qed.

Example measure_confusions_rowwise_test0 :
  measure_confusions tokenize0 encode0 test0 (batch_model 1 3 g0) = Ok 3.
Proof. eval_confusion. Qed.

Lemma measure_confusions_swap_witness :
  measure_confusions tokenize0 encode0 (swap test0) (batch_model 1 3 g0)
  = measure_confusions tokenize0 encode0 test0 (batch_model 1 3 g0)
  /\ measure_confusions_grad tokenize0 encode0 (swap test0)
       (batch_model 1 3 g0)
     = measure_confusions_grad tokenize0 encode0 test0 (batch_model 1 3 g0).
Proof.
  apply (measure_confusions_swap tokenize0 (fun p => [String.length p])
           encode0 1 3 g0); [reflexivity|reflexivity].
Defined.

End ConfusionFacts.

(** ** [project_cone] *)

Module ProjectionFacts.
Import Tensor Projection.
Local Open Scope R_scope.
Local Open Scope result_scope.

(** The exceptions torch raises are never the validation error. *)
Definition no_value_error {A} (r : result A) : Prop :=
  forall g, r <> Raise (ValueError g).

Lemma no_value_error_ok {A} (a : A) : no_value_error (Ok a).
Proof. intros g; discriminate. Qed.

Lemma no_value_error_bind {A B} (r : result A) (k : A -> result B) :
  no_value_error r -> (forall a, no_value_error (k a)) ->
  no_value_error (rbind r k).
Proof.
  intros Hr Hk. destruct r as [a|e]; simpl; [apply Hk|].
  intros g Heq. apply (Hr g). congruence.
Qed.

Ltac torch_op :=
  intros g; repeat (case_match; try discriminate).

Lemma no_value_error_broadcast2 f a b : no_value_error (broadcast2 f a b).
Proof. unfold broadcast2. torch_op. Qed.

Lemma no_value_error_tindex t k : no_value_error (tindex t k).
Proof. unfold tindex. torch_op. Qed.

Lemma no_value_error_einsum_h_h x d : no_value_error (einsum_h_h x d).
Proof. unfold einsum_h_h. torch_op. Qed.

Lemma no_value_error_einsum_outer d c : no_value_error (einsum_outer d c).
Proof. unfold einsum_outer. torch_op. Qed.

Create HintDb torch.

#[local] Hint Resolve no_value_error_ok no_value_error_broadcast2
  no_value_error_tindex no_value_error_einsum_h_h
  no_value_error_einsum_outer : torch.

Lemma no_value_error_cone_step dirs gamma i Xi :
  no_value_error (cone_step dirs gamma i Xi).
Proof.
  unfold cone_step, tdivt, tmul, tsub.
  repeat (apply no_value_error_bind; [auto with torch|intros ?]).
  auto with torch.
Qed.

Lemma no_value_error_cone_loop dirs gamma n : forall i Xi,
  no_value_error (cone_loop dirs gamma n i Xi).
Proof.
  induction n as [|n IH]; intros i Xi; simpl.
  - apply no_value_error_ok.
  - apply no_value_error_bind; [apply no_value_error_cone_step|].
    intros X'. apply IH.
Qed.

(** C3. [project_cone] raises [ValueError(gamma)] exactly when [gamma] is
    at most 0 or at least a right angle; for [gamma] strictly between, it
    raises no validation error, whatever the tensors. *)
Theorem project_cone_gamma_validation (X dirs : tensor) (gamma : R) :
  (gamma <= 0 \/ gamma >= PI / 2 <->
   project_cone X dirs gamma = Raise (ValueError gamma))
  /\ (0 < gamma < PI / 2 <-> no_value_error (project_cone X dirs gamma)).
Proof.
  assert (Hin : 0 < gamma < PI / 2 ->
                no_value_error (project_cone X dirs gamma)).
  { intros [H0 H1]. unfold project_cone.
    destruct (Rle_dec gamma 0) as [Hle|_]; [lra|].
    destruct (Rge_dec gamma (PI / 2)) as [Hge|_]; [lra|].
    destruct (shape dirs) as [|n s]; [intros g; discriminate|].
    apply no_value_error_cone_loop. }
  assert (Hout : gamma <= 0 \/ gamma >= PI / 2 ->
                 project_cone X dirs gamma = Raise (ValueError gamma)).
  { intros Hg. unfold project_cone.
    destruct (Rle_dec gamma 0) as [_|Hn]; [reflexivity|].
    destruct (Rge_dec gamma (PI / 2)) as [_|Hn']; [reflexivity|].
    lra. }
  split; split; auto.
  - intros Heq.
    destruct (Rle_dec gamma 0) as [Hle|Hn]; [lra|].
    destruct (Rge_dec gamma (PI / 2)) as [Hge|Hn']; [lra|].
    exfalso. apply (Hin ltac:(lra) gamma Heq).
  - intros Hno.
    destruct (Rle_dec gamma 0) as [Hle|Hn].
    { exfalso. apply (Hno gamma). apply Hout; lra. }
    destruct (Rge_dec gamma (PI / 2)) as [Hge|Hn'].
    { exfalso. apply (Hno gamma). apply Hout; lra. }
    lra.
Qed.

End ProjectionFacts.

(** ** [project]: fixed points *)

Module ProjectMore.
Import Tensor Projection TensorFacts ProjectFacts Analysis.
Local Open Scope R_scope.
Local Open Scope result_scope.

(** A tensor is its shape and its rows. *)
Lemma tensor_eq_rows (X Y : tensor) (lead : list nat) (h : nat) :
  tensor_wf X -> tensor_wf Y ->
  shape X = lead ++ [h] -> shape Y = shape X ->
  rows h Y = rows h X -> Y = X.
Proof.
  intros HX HY HsX HsY Hrows.
  destruct (rows_length X lead h HX HsX) as (_ & _ & HdX).
  destruct (rows_length Y lead h HY (eq_trans HsY HsX)) as (_ & _ & HdY).
  destruct X as [sX dX], Y as [sY dY]. simpl in *. subst sY.
  f_equal. by rewrite <- HdX, <- HdY, Hrows.
Qed.

Lemma zip_minus_zeros (x z : list R) :
  length z = length x -> Forall (fun e => e = 0) z ->
  zip_with Rminus x z = x.
Proof.
  revert z. induction x as [|a x IH]; intros [|e z] Hl Hz; try done.
  apply Forall_cons in Hz as [-> Hz]. simpl. rewrite IH by (simpl in Hl; lia || done).
  f_equal. lra.
Qed.

Lemma Forall_zero_vscale (c : R) (v : list R) :
  c = 0 \/ Forall (fun e => e = 0) v ->
  Forall (fun e => e = 0) (vscale c v).
Proof.
  intros H. unfold vscale. apply Forall_map.
  destruct H as [->|H].
  - apply Forall_forall. intros e _. simpl. lra.
  - eapply Forall_impl; [exact H|]. intros e ->. simpl. lra.
Qed.

Lemma Forall_zero_vadd (u v : list R) :
  Forall (fun e => e = 0) u -> Forall (fun e => e = 0) v ->
  Forall (fun e => e = 0) (vadd u v).
Proof.
  intros Hu. revert v. induction Hu as [|a u -> _ IH]; intros v Hv;
    [constructor|].
  destruct Hv as [|b v -> Hv]; [constructor|].
  unfold vadd in *. simpl. constructor; [lra|by apply IH].
Qed.

Lemma Forall_zero_lincomb (h : nat) (cs : list R) (D : list (list R)) :
  Forall (fun c => c = 0) cs ->
  Forall (fun e => e = 0) (lincomb h cs D).
Proof.
  intros Hcs. revert D. induction Hcs as [|c cs -> _ IH]; intros D.
  - unfold lincomb, vzero. simpl. by apply Forall_replicate.
  - destruct D as [|d D].
    + unfold lincomb, vzero. simpl. by apply Forall_replicate.
    + change (lincomb h (0 :: cs) (d :: D))
        with (vadd (vscale 0 d) (lincomb h cs D)).
      apply Forall_zero_vadd; [apply Forall_zero_vscale; by left|apply IH].
Qed.

(** A vector that [project] leaves as it is. *)
Lemma project_row_fixed (h : nat) (D : list (list R)) (strength : R)
    (x : list R) :
  Forall (fun d => length d = h) D -> length x = h ->
  strength = 0 \/ Forall (fun d => dot d x = 0) D ->
  project_row h D strength x = x.
Proof.
  intros HD Hx Hz. unfold project_row. apply zip_minus_zeros.
  - unfold vscale. rewrite length_map, length_lincomb by done. done.
  - apply Forall_zero_vscale. destruct Hz as [->|Hz]; [by left|right].
    apply Forall_zero_lincomb, Forall_map.
    eapply Forall_impl; [exact Hz|]. done.
Qed.

(** [project] returns its input when every row is left as it is. *)
Lemma project_fixed (X dirs : tensor) (lead : list nat) (n h : nat)
    (strength : R) :
  tensor_wf X -> tensor_wf dirs ->
  shape X = lead ++ [h] -> shape dirs = [n; h] ->
  strength = 0
  \/ Forall (fun x => Forall (fun d => dot d x = 0) (rows h dirs)) (rows h X) ->
  project X dirs strength = Ok X.
Proof.
  intros HX Hd HsX Hsd Hz.
  destruct (project_rows X dirs lead n h strength HX Hd HsX Hsd)
    as (Y & -> & HsY & HY & Hrows).
  f_equal. apply (tensor_eq_rows X Y lead h); try done.
  rewrite Hrows.
  destruct (rows_length X lead h HX HsX) as (_ & HallX & _).
  destruct (rows_dirs dirs n h Hd Hsd) as (_ & HallD).
  rewrite <- (map_id (rows h X)) at 2. apply map_ext_Forall.
  apply Forall_forall. intros x Hx.
  apply project_row_fixed; try done.
  - by apply (proj1 (Forall_forall _ _) HallX).
  - destruct Hz as [->|Hz]; [by left|right].
    by apply (proj1 (Forall_forall _ _) Hz).
Qed.

(** X1. With [strength = 0], [project] returns its input: nothing is
    removed, whatever the directions. *)
Theorem project_strength_zero (X dirs : tensor) (lead : list nat)
    (n h : nat) :
  tensor_wf X -> tensor_wf dirs ->
  shape X = lead ++ [h] -> shape dirs = [n; h] ->
  project X dirs 0 = Ok X.
Proof.
  intros HX Hd HsX Hsd. apply (project_fixed X dirs lead n h); try done.
  by left.
Qed.

(** X2. With the empty direction set of the analysis script
    ([dirs[0:0]]), [project] returns its input, for every strength. *)
Theorem project_empty_dirs (X dirs e : tensor) (lead : list nat)
    (n h : nat) (strength : R) :
  tensor_wf X -> shape X = lead ++ [h] -> shape dirs = [n; h] ->
  empty_dirs dirs = Ok e ->
  project X e strength = Ok X.
Proof.
  intros HX HsX Hsd He. unfold empty_dirs in He. rewrite Hsd in He.
  injection He as <-.
  apply (project_fixed X _ lead 0 h); try done.
  right. apply Forall_forall. intros x _. unfold rows. simpl. constructor.
Qed.

(** Projected rows are left as they are by a second projection. *)
Lemma project_twice (X dirs Y : tensor) (lead : list nat) (n h : nat) :
  tensor_wf X -> tensor_wf dirs ->
  shape X = lead ++ [h] -> shape dirs = [n; h] ->
  orthonormal (rows h dirs) ->
  project X dirs 1 = Ok Y ->
  project Y dirs 1 = Ok Y.
Proof.
  intros HX Hd HsX Hsd Ho HY.
  destruct (project_rows X dirs lead n h 1 HX Hd HsX Hsd)
    as (Y' & HY' & HsY & HwY & Hrows).
  rewrite HY in HY'. injection HY' as <-.
  apply (project_fixed Y dirs lead n h); try done; [congruence|].
  right. rewrite Hrows. apply Forall_map, Forall_forall. intros x Hx. simpl.
  destruct (rows_length X lead h HX HsX) as (_ & HallX & _).
  destruct (rows_dirs dirs n h Hd Hsd) as (_ & HallD).
  apply Forall_forall. intros d Hdin. rewrite dot_comm.
  apply project_row_orthogonal; try done.
  by apply (proj1 (Forall_forall _ _) HallX).
Qed.

(** X3. For orthonormal directions, [project] with its default strength
    succeeds and is idempotent: projecting the result again changes
    nothing. *)
Theorem project_idempotent (X dirs : tensor) (lead : list nat)
    (n h : nat) :
  tensor_wf X -> tensor_wf dirs ->
  shape X = lead ++ [h] -> shape dirs = [n; h] ->
  orthonormal (rows h dirs) ->
  exists Y, project X dirs 1 = Ok Y /\ project Y dirs 1 = Ok Y.
Proof.
  intros HX Hd HsX Hsd Ho.
  destruct (project_rows X dirs lead n h 1 HX Hd HsX Hsd)
    as (Y & HY & _).
  exists Y. split; [exact HY|].
  by apply (project_twice X dirs Y lead n h).
Qed.

(** X4. [project] works vector by vector along the last axis: it
    succeeds on well-formed inputs of matching hidden size, keeps the shape,
    and row [x] of the input becomes
    [x - strength * sum_n (d_n . x) d_n]. *)
Theorem project_row_by_row (X dirs : tensor) (lead : list nat) (n h : nat)
    (strength : R) :
  tensor_wf X -> tensor_wf dirs ->
  shape X = lead ++ [h] -> shape dirs = [n; h] ->
  exists Y, project X dirs strength = Ok Y
    /\ shape Y = shape X /\ tensor_wf Y
    /\ rows h Y = map (project_row h (rows h dirs) strength) (rows h X).
Proof. apply project_rows. Qed.

(** Two vectors of the plane and the first axis as the only direction. *)
Lemma axis_orthonormal : orthonormal [[1; 0]].
Proof.
  intros i j di dj Hi Hj.
  destruct i as [|i], j as [|j]; try discriminate.
  injection Hi as <-. injection Hj as <-. vm_compute. lra.
Qed.

Lemma project_strength_zero_witness :
  project (mkTensor [2; 2]%nat [1; 2; 3; 4]) (mkTensor [1; 2]%nat [1; 0]) 0
  = Ok (mkTensor [2; 2]%nat [1; 2; 3; 4]).
Proof.
  apply (project_strength_zero (mkTensor [2; 2]%nat [1; 2; 3; 4])
           (mkTensor [1; 2]%nat [1; 0]) [2%nat] 1 2);
    reflexivity.
Defined.

Lemma project_empty_dirs_witness :
  empty_dirs (mkTensor [1; 2]%nat [1; 0]) = Ok (mkTensor [0; 2]%nat [])
  /\ project (mkTensor [2; 2]%nat [1; 2; 3; 4]) (mkTensor [0; 2]%nat []) 1
     = Ok (mkTensor [2; 2]%nat [1; 2; 3; 4]).
Proof.
  split; [reflexivity|].
  apply (project_empty_dirs (mkTensor [2; 2]%nat [1; 2; 3; 4])
           (mkTensor [1; 2]%nat [1; 0]) (mkTensor [0; 2]%nat [])
           [2%nat] 1 2 1);
    reflexivity.
Defined.

Lemma project_idempotent_witness :
  exists Y, project (mkTensor [2; 2]%nat [1; 2; 3; 4])
                    (mkTensor [1; 2]%nat [1; 0]) 1 = Ok Y
    /\ project Y (mkTensor [1; 2]%nat [1; 0]) 1 = Ok Y.
Proof.
  apply (project_idempotent (mkTensor [2; 2]%nat [1; 2; 3; 4])
           (mkTensor [1; 2]%nat [1; 0]) [2%nat] 1 2);
    [reflexivity|reflexivity|reflexivity|reflexivity
    |exact axis_orthonormal].
Defined.

Lemma project_row_by_row_witness :
  exists Y, project (mkTensor [2; 2]%nat [1; 2; 3; 4])
                    (mkTensor [1; 2]%nat [1; 0]) 1 = Ok Y
    /\ shape Y = [2; 2]%nat /\ tensor_wf Y
    /\ rows 2 Y = map (project_row 2 [[1; 0]] 1) [[1; 2]; [3; 4]].
Proof.
  apply (project_row_by_row (mkTensor [2; 2]%nat [1; 2; 3; 4])
           (mkTensor [1; 2]%nat [1; 0]) [2%nat] 1 2 1);
    reflexivity.
Defined.

End ProjectMore.

(** ** [ActivationsDataset]: what projection keeps and removes *)

Module DatasetMore.
Import Tensor Projection TensorFacts ProjectFacts Dataset DatasetFacts.
Import ConfusionFacts ProjectMore.
Local Open Scope R_scope.
Local Open Scope result_scope.
Local Open Scope monad_scope.

Lemma sum_squares_dot (v : list R) :
  foldr Rplus 0 (map (fun x => x * x) v) = dot v v.
Proof. induction v as [|a v IH]; [reflexivity|]. rewrite dot_cons. simpl. by rewrite IH. Qed.

Lemma dot_nonneg (v : list R) : 0 <= dot v v.
Proof.
  induction v as [|a v IH]; [unfold dot; simpl; lra|].
  rewrite dot_cons. nra.
Qed.

Lemma dot_div_r (u v : list R) (c : R) :
  dot u (map (fun x => x / c) v) = dot u v / c.
Proof.
  revert v. induction u as [|a u IH]; intros [|b v]; simpl;
    try (unfold dot; simpl; unfold Rdiv; ring).
  rewrite !dot_cons, IH. unfold Rdiv. ring.
Qed.

(** The unit vector along a nonzero direction. *)
Lemma unit_row_spec (dir : tensor) (h : nat) :
  tensor_wf dir -> shape dir = [h] ->
  unit_row dir
  = Ok (mkTensor [1%nat; h] (map (fun x => x / norm dir) (data dir))).
Proof.
  intros Hwf Hs. unfold unit_row, tdivt.
  rewrite broadcast2_scalar by exact Hwf. simpl.
  unfold tunsqueeze0. simpl. by rewrite Hs.
Qed.

Lemma rows_single (h : nat) (d : list R) :
  length d = h -> rows h (mkTensor [1%nat; h] d) = [d].
Proof.
  intros Hd. unfold rows. simpl. by rewrite take_ge by lia.
Qed.

Lemma unit_orthonormal (dir : tensor) :
  norm dir <> 0 ->
  orthonormal [map (fun x => x / norm dir) (data dir)].
Proof.
  intros Hn i j di dj Hi Hj.
  destruct i as [|i], j as [|j]; try discriminate.
  injection Hi as <-. injection Hj as <-. simpl.
  rewrite dot_div_r, dot_comm, dot_div_r.
  unfold norm in *. rewrite sum_squares_dot in *.
  set (q := dot (data dir) (data dir)) in *.
  assert (Hq : sqrt q * sqrt q = q) by (apply sqrt_sqrt, dot_nonneg).
  unfold Rdiv. rewrite Rmult_assoc, <- Rinv_mult, Hq.
  apply Rinv_r. intros Hq0. apply Hn. rewrite Hq0. apply sqrt_0.
Qed.

Section Projected.
Variable s : store.
Variable self : nat.
Variable ds : ActivationsDataset.
Variable dir : tensor.
Variables m h : nat.
Hypothesis Hself : s !! self = Some ds.
Hypothesis HX : tensor_wf (x_data ds).
Hypothesis HsX : shape (x_data ds) = [m; h].
Hypothesis Hdir : tensor_wf dir.
Hypothesis Hsd : shape dir = [h].

(** The projected matrix, row by row. *)
Lemma project_run :
  exists new_x,
    Dataset.project self dir s
    = (Ok (fresh (dom s)),
       <[fresh (dom s) := mkDataset new_x (y_data ds)]> s)
    /\ Dataset.project_ self dir s
       = (Ok tt, <[self := mkDataset new_x (y_data ds)]> s)
    /\ shape new_x = [m; h] /\ tensor_wf new_x
    /\ rows h new_x
       = map (project_row h [map (fun x => x / norm dir) (data dir)] 1)
           (rows h (x_data ds)).
Proof.
  pose proof (unit_row_spec dir h Hdir Hsd) as Hu.
  set (u := mkTensor [1%nat; h] (map (fun x => x / norm dir) (data dir))) in *.
  assert (Hlen : length (data dir) = h).
  { unfold tensor_wf in Hdir. rewrite Hdir, Hsd. simpl. lia. }
  assert (Hwu : tensor_wf u).
  { unfold tensor_wf, u. simpl. rewrite length_map. lia. }
  destruct (project_rows (x_data ds) u [m] 1 h 1 HX Hwu HsX eq_refl)
    as (Y & HY & HsY & HwY & Hrows).
  exists Y. unfold Dataset.project, project_, mbind, load, lift, new.
  rewrite Hself, Hu. simpl. rewrite HY.
  repeat split; try done; [congruence|].
  rewrite Hrows. unfold u. rewrite rows_single; [done|].
  by rewrite length_map.
Qed.

(** X5. After [ActivationsDataset.project] along a nonzero [dir], every
    activation of the new dataset is orthogonal to [dir]; the labels and
    the number of samples are those of the original. *)
Theorem project_removes_direction :
  norm dir <> 0 ->
  exists r ds',
    Dataset.project self dir s = (Ok r, <[r := ds']> s)
    /\ y_data ds' = y_data ds
    /\ length (rows h (x_data ds')) = m
    /\ forall row, row ∈ rows h (x_data ds') -> dot row (data dir) = 0.
Proof.
  intros Hn. destruct project_run as (Y & Hp & _ & HsY & HwY & Hrows).
  exists (fresh (dom s)), (mkDataset Y (y_data ds)).
  split; [exact Hp|]. split; [reflexivity|]. simpl.
  destruct (rows_length (x_data ds) [m] h HX HsX) as (HlX & HallX & _).
  rewrite Hrows. split; [by rewrite length_map, HlX, numel_singleton|].
  intros row Hrow. apply list_elem_of_fmap in Hrow as (x & -> & Hx).
  assert (Hlen : length (data dir) = h).
  { unfold tensor_wf in Hdir. rewrite Hdir, Hsd. simpl. lia. }
  set (u := map (fun a => a / norm dir) (data dir)).
  assert (H0 : dot (project_row h [u] 1 x) u = 0).
  { apply project_row_orthogonal.
    - by apply unit_orthonormal.
    - constructor; [|constructor]. unfold u. by rewrite length_map.
    - by apply (proj1 (Forall_forall _ _) HallX).
    - left. }
  unfold u in H0 at 2. rewrite dot_div_r in H0.
  unfold Rdiv in H0. apply Rmult_integral in H0 as [H0|H0]; [exact H0|].
  exfalso. by apply (Rinv_neq_0_compat (norm dir)).
Qed.

(** X6. After [ActivationsDataset.project] along a nonzero [dir], the
    projected dataset has the length of the original, and its sample
    [idx] is the projection of sample [idx] of the original, with the
    same label.  (For the zero direction torch divides by zero and yields
    nan, which real numbers do not model.) *)
Theorem project_keeps_samples (idx : Z) (x y : tensor) :
  norm dir <> 0 ->
  (getitem self idx s).1 = Ok (x, y) ->
  exists r s',
    Dataset.project self dir s = (Ok r, s')
    /\ (len r s').1 = (len self s).1
    /\ (getitem r idx s').1
       = Ok (mkTensor (shape x)
               (project_row h [map (fun a => a / norm dir) (data dir)] 1
                  (data x)),
             y).
Proof.
  intros _ Hget.
  destruct project_run as (Y & Hp & _ & HsY & HwY & Hrows).
  eexists _, _. split; [exact Hp|].
  unfold len, getitem, mbind, load, lift in *.
  rewrite Hself in *. rewrite lookup_insert_eq. simpl in *.
  unfold tlen. rewrite HsY, HsX. split; [reflexivity|].
  unfold tindex_row in *. rewrite HsY. rewrite HsX in Hget.
  destruct (tindex (x_data ds) idx) as [x'|e] eqn:Hx; simpl in Hget;
    [|discriminate].
  destruct (tindex (y_data ds) idx) as [y'|e] eqn:Hy; simpl in Hget;
    [|discriminate].
  injection Hget as -> ->. simpl.
  unfold tindex in Hx |- *. rewrite HsX in Hx. rewrite HsY.
  destruct ((- Z.of_nat m <=? idx)%Z && (idx <? Z.of_nat m)%Z) eqn:Hr;
    [|discriminate].
  injection Hx as <-. simpl. do 3 f_equal.
  rewrite !Nat.mul_1_r.
  set (i := Z.to_nat (if (idx <? 0)%Z then (idx + Z.of_nat m)%Z else idx)).
  assert (Hi : (i < m)%nat).
  { apply andb_true_iff in Hr as [H1 H2].
    apply Z.leb_le in H1. apply Z.ltb_lt in H2. unfold i.
    destruct (idx <? 0)%Z eqn:Hneg;
      [apply Z.ltb_lt in Hneg|apply Z.ltb_ge in Hneg]; lia. }
  destruct (rows_length (x_data ds) [m] h HX HsX) as (HlX & HallX & HjX).
  destruct (rows_length Y [m] h HwY HsY) as (HlY & HallY & HjY).
  rewrite numel_singleton in HlX.
  destruct (lookup_lt_is_Some_2 (rows h (x_data ds)) i) as [l Hl]; [lia|].
  rewrite <- HjX, <- HjY.
  rewrite (block_of_mjoin _ h i l HallX Hl).
  apply (block_of_mjoin _ h i _ HallY).
  by rewrite Hrows, list_lookup_fmap, Hl.
Qed.

(** X7. [project_] along a nonzero [dir] is idempotent: a second call
    with the same [dir] leaves the dataset as the first call left it. *)
Theorem project__twice :
  norm dir <> 0 ->
  exists s1,
    project_ self dir s = (Ok tt, s1)
    /\ project_ self dir s1 = (Ok tt, s1).
Proof.
  intros Hn. destruct project_run as (Y & _ & Hp & HsY & HwY & Hrows).
  eexists. split; [exact Hp|].
  pose proof (unit_row_spec dir h Hdir Hsd) as Hu.
  set (u := mkTensor [1%nat; h] (map (fun x => x / norm dir) (data dir))) in *.
  assert (Hlen : length (data dir) = h).
  { unfold tensor_wf in Hdir. rewrite Hdir, Hsd. simpl. lia. }
  assert (Hwu : tensor_wf u).
  { unfold tensor_wf, u. simpl. rewrite length_map. lia. }
  assert (Hru : rows h u = [map (fun x => x / norm dir) (data dir)]).
  { unfold u. apply rows_single. by rewrite length_map. }
  assert (HY : Projection.project (x_data ds) u 1 = Ok Y).
  { destruct (project_rows (x_data ds) u [m] 1 h 1 HX Hwu HsX eq_refl)
      as (Y' & HY' & HsY' & HwY' & Hrows').
    rewrite HY'. f_equal.
    apply (tensor_eq_rows Y Y' [m] h); try done; [congruence|].
    by rewrite Hrows', Hrows, Hru. }
  assert (HYY : Projection.project Y u 1 = Ok Y).
  { apply (project_twice (x_data ds) u Y [m] 1 h); try done.
    rewrite Hru. by apply unit_orthonormal. }
  unfold project_, mbind, load, lift.
  rewrite lookup_insert_eq, Hu. simpl. rewrite HYY. simpl.
  by rewrite insert_insert_eq.
Qed.
End Projected.

(** One sample of the plane, projected along the first axis. *)
Lemma norm_axis : norm (mkTensor [2%nat] [1; 0]) <> 0.
Proof. unfold norm. simpl. intros H. apply sqrt_eq_0 in H; lra. Qed.

Lemma project_removes_direction_witness :
  let ds := mkDataset (mkTensor [1; 2]%nat [3; 4]) (mkTensor [1%nat] [0]) in
  let dir := mkTensor [2%nat] [1; 0] in
  exists r ds',
    Dataset.project 0 dir {[0%nat := ds]}
    = (Ok r, <[r := ds']> {[0%nat := ds]})
    /\ y_data ds' = y_data ds
    /\ length (rows 2 (x_data ds')) = 1%nat
    /\ forall row, row ∈ rows 2 (x_data ds') -> dot row (data dir) = 0.
Proof.
  intros ds dir.
  apply (project_removes_direction {[0%nat := ds]} 0 ds dir 1 2);
    [apply lookup_singleton_eq|reflexivity|reflexivity|reflexivity
    |reflexivity|exact norm_axis].
Defined.

Lemma project_keeps_samples_witness :
  let ds := mkDataset (mkTensor [1; 2]%nat [3; 4]) (mkTensor [1%nat] [0]) in
  let dir := mkTensor [2%nat] [1; 0] in
  exists r s',
    Dataset.project 0 dir {[0%nat := ds]} = (Ok r, s')
    /\ (len r s').1 = (len 0%nat ({[0%nat := ds]} : store)).1
    /\ (getitem r 0 s').1
       = Ok (mkTensor [2%nat]
               (project_row 2 [map (fun a => a / norm dir) (data dir)] 1
                  [3; 4]),
             mkTensor [] [0]).
Proof.
  intros ds dir.
  apply (project_keeps_samples {[0%nat := ds]} 0 ds dir 1 2
           (lookup_singleton_eq _ _) eq_refl eq_refl eq_refl eq_refl 0
           (mkTensor [2%nat] [3; 4]) (mkTensor [] [0]));
    [exact norm_axis|reflexivity].
Defined.

Lemma project__twice_witness :
  let ds := mkDataset (mkTensor [1; 2]%nat [3; 4]) (mkTensor [1%nat] [0]) in
  let dir := mkTensor [2%nat] [1; 0] in
  exists s1,
    project_ 0 dir {[0%nat := ds]} = (Ok tt, s1)
    /\ project_ 0 dir s1 = (Ok tt, s1).
Proof.
  intros ds dir.
  apply (project__twice {[0%nat := ds]} 0 ds dir 1 2);
    [apply lookup_singleton_eq|reflexivity|reflexivity|reflexivity
    |reflexivity|exact norm_axis].
Defined.

End DatasetMore.

(** ** Word wrapping and file names: what is kept *)

Module PrintingMore.
Import Printing.

Lemma string_length_app (s t : string) :
  String.length (s +:+ t) = String.length s + String.length t.
Proof. induction s as [|c s IH]; simpl; [reflexivity|]. by rewrite IH. Qed.

(** The length of a line: its words and one space between two words. *)
Lemma length_join (g : list string) :
  String.length (PyStr.join " " g) = words_length g + (length g - 1).
Proof.
  unfold PyStr.join, words_length.
  induction g as [|w g IH]; [reflexivity|].
  destruct g as [|w' g]; [simpl; lia|].
  change (String.concat " " (w :: w' :: g))
    with (w +:+ " " +:+ String.concat " " (w' :: g)).
  rewrite !string_length_app, IH. simpl. lia.
Qed.

(** The loop, as the groups of words it prints. *)
Lemma fancy_loop_groups (max_line_length : nat) (ws : list string) :
  forall cl lcl,
    lcl = words_length cl ->
    exists g0 groups,
      fancy_loop max_line_length ws cl lcl
      = map (PyStr.join " ") ((cl ++ g0) :: groups)
      /\ mjoin ((cl ++ g0) :: groups) = cl ++ ws
      /\ (forall i g1 g2,
            ((cl ++ g0) :: groups) !! i = Some g1 ->
            ((cl ++ g0) :: groups) !! S i = Some g2 ->
            exists w rest, g2 = w :: rest
              /\ max_line_length < words_length g1 + String.length w)
      /\ (Forall (fun w => String.length w <= max_line_length) ws ->
          lcl <= max_line_length ->
          Forall (fun g => words_length g <= max_line_length)
            ((cl ++ g0) :: groups)).
Proof.
  induction ws as [|w ws IH]; intros cl lcl Hlcl.
  - exists [], []. rewrite !app_nil_r. simpl. rewrite app_nil_r.
    split; [reflexivity|]. split; [reflexivity|]. split.
    + intros i g1 g2 _ H2. by destruct i.
    + intros _ Hle. constructor; [lia|constructor].
  - simpl. destruct (Nat.ltb_spec max_line_length (lcl + String.length w))
      as [Hlt|Hge].
    + destruct (IH [w] (String.length w)) as (g0 & groups & Hrun & Hj & Hg & Hb).
      { unfold words_length. simpl. lia. }
      exists [], (([w] ++ g0) :: groups). rewrite app_nil_r, Hrun.
      split; [reflexivity|]. split; [|split].
      * change (mjoin (cl :: ([w] ++ g0) :: groups))
          with (cl ++ mjoin (([w] ++ g0) :: groups)).
        by rewrite Hj.
      * intros [|i] g1 g2 H1 H2; simpl in H1, H2.
        -- injection H1 as <-. injection H2 as <-.
           exists w, g0. split; [reflexivity|lia].
        -- by apply (Hg i).
      * intros Hws Hle. apply Forall_cons in Hws as [Hw Hws].
        constructor; [lia|]. by apply Hb.
    + destruct (IH (cl ++ [w]) (lcl + String.length w))
        as (g0 & groups & Hrun & Hj & Hg & Hb).
      { unfold words_length in *. rewrite sum_list_with_app. simpl. lia. }
      exists (w :: g0), groups.
      replace (cl ++ w :: g0) with ((cl ++ [w]) ++ g0)
        by (by rewrite <- app_assoc).
      rewrite Hrun. split; [reflexivity|]. split; [|split].
      * etrans; [exact Hj|]. by rewrite <- app_assoc.
      * exact Hg.
      * intros Hws Hle. apply Forall_cons in Hws as [Hw Hws]. by apply Hb.
Qed.

(** X8. [fancy_print] prints at least one line, and the words of its
    lines, read in order, are the words of [s.split()]: no word is lost,
    repeated, reordered or cut. *)
Theorem fancy_print_keeps_words (s : string) (max_line_length : nat) :
  exists groups,
    fancy_print s max_line_length = map (PyStr.join " ") groups
    /\ mjoin groups = PyStr.split_ws s
    /\ groups <> [].
Proof.
  destruct (fancy_loop_groups max_line_length (PyStr.split_ws s) [] 0 eq_refl)
    as (g0 & groups & Hrun & Hj & _).
  exists (([] ++ g0) :: groups). by repeat split.
Qed.


(** X10. When no word is longer than [max_line_length], a line of [k]
    words has at most [max_line_length + (k - 1)] characters: the words fit
    and only the separating spaces are in excess. *)
Theorem fancy_print_line_bound (s : string) (max_line_length : nat) :
  Forall (fun w => String.length w <= max_line_length) (PyStr.split_ws s) ->
  exists groups,
    fancy_print s max_line_length = map (PyStr.join " ") groups
    /\ Forall (fun g => String.length (PyStr.join " " g)
                        <= max_line_length + (length g - 1)) groups.
Proof.
  intros Hws.
  destruct (fancy_loop_groups max_line_length (PyStr.split_ws s) [] 0 eq_refl)
    as (g0 & groups & Hrun & _ & _ & Hb).
  exists (([] ++ g0) :: groups). split; [exact Hrun|].
  eapply Forall_impl; [apply Hb; [exact Hws|lia]|].
  intros g Hg. simpl in Hg. rewrite length_join. lia.
Qed.

Lemma fancy_print_line_bound_witness :
  exists groups,
    fancy_print "aa bb cc" 4 = map (PyStr.join " ") groups
    /\ Forall (fun g => String.length (PyStr.join " " g) <= 4 + (length g - 1))
         groups.
Proof.
  apply (fancy_print_line_bound "aa bb cc" 4).
  repeat constructor.
Defined.

End PrintingMore.

Module GenerateDirsMore.
Import GenerateDirs.

Lemma no_space_cons (c : ascii) (m : string) :
  no_space (String c m) -> c <> " "%char /\ no_space m.
Proof.
  intros H. split.
  - intros ->. by apply (H 0).
  - intros k. apply (H (S k)).
Qed.

(** The first space of a name tells where a no-space prefix ends. *)
Lemma no_space_split (m1 m2 r1 r2 : string) :
  no_space m1 -> no_space m2 ->
  m1 +:+ String " " r1 = m2 +:+ String " " r2 -> m1 = m2 /\ r1 = r2.
Proof.
  revert m2. induction m1 as [|c m1 IH]; intros [|c2 m2] H1 H2 Heq;
    simpl in Heq.
  - by injection Heq as ->.
  - injection Heq as <- _. apply no_space_cons in H2 as [H2 _]. done.
  - injection Heq as -> _. apply no_space_cons in H1 as [H1 _]. done.
  - injection Heq as -> Heq.
    apply no_space_cons in H1 as [_ H1]. apply no_space_cons in H2 as [_ H2].
    destruct (IH m2 H1 H2 Heq) as [-> ->]. done.
Qed.

Lemma string_app_inv_head (p s t : string) : p +:+ s = p +:+ t -> s = t.
Proof. induction p as [|c p IH]; simpl; [done|]. intros [= H]. by apply IH. Qed.

Lemma string_app_inv_tail (s1 s2 t : string) :
  s1 +:+ t = s2 +:+ t -> s1 = s2.
Proof.
  revert s2. induction s1 as [|c s1 IH]; intros [|c2 s2] Heq; simpl in *.
  - done.
  - apply (f_equal String.length) in Heq. simpl in Heq.
    rewrite !PrintingMore.string_length_app in Heq. simpl in Heq. lia.
  - apply (f_equal String.length) in Heq. simpl in Heq.
    rewrite !PrintingMore.string_length_app in Heq. simpl in Heq. lia.
  - injection Heq as -> Heq. by rewrite (IH s2 Heq).
Qed.

Lemma file_name_inj (layer_nb : option Z) (m1 m2 : string)
    (i1 i2 : nat) :
  no_space m1 -> no_space m2 ->
  file_name layer_nb m1 i1 = file_name layer_nb m2 i2 ->
  m1 = m2 /\ i1 = i2.
Proof.
  intros H1 H2. unfold file_name.
  assert (Hcore : m1 +:+ " - " +:+ PyStr.str_of_int (Z.of_nat i1) +:+ " - v0.pt"
                  = m2 +:+ " - " +:+ PyStr.str_of_int (Z.of_nat i2)
                    +:+ " - v0.pt" -> m1 = m2 /\ i1 = i2).
  { intros Heq. apply no_space_split in Heq as [-> Heq]; [|done..].
    split; [reflexivity|]. injection Heq as Heq.
    apply string_app_inv_tail in Heq.
    apply Nat2Z.inj. by apply (inj pretty). }
  destruct (truthy layer_nb); [|exact Hcore].
  intros Heq. apply Hcore.
  apply (string_app_inv_head "L"), string_app_inv_head in Heq.
  by apply (string_app_inv_head " - ") in Heq.
Qed.

(** X11. For one value of [layer_nb], the file name determines the
    method and the round: two methods whose names have no space, or two
    rounds, never share a file. *)
Theorem file_name_injective (layer_nb : option Z) (m1 m2 : string)
    (i1 i2 : nat) :
  no_space m1 -> no_space m2 ->
  file_name layer_nb m1 i1 = file_name layer_nb m2 i2 ->
  m1 = m2 /\ i1 = i2.
Proof. apply file_name_inj. Qed.

Lemma no_space_chars (m : string) :
  Forall (fun c => c <> " "%char) (list_ascii_of_string m) -> no_space m.
Proof.
  induction m as [|c m IH]; intros H k.
  - by destruct k.
  - apply Forall_cons in H as [Hc Hm]. destruct k as [|k]; simpl.
    + intros [= ->]. done.
    + by apply IH.
Qed.

Lemma file_name_injective_witness :
  file_name None "get_inlp" 1 = file_name None "get_inlp" 1
  /\ "get_inlp"%string = "get_inlp"%string /\ 1 = 1.
Proof.
  split; [reflexivity|].
  apply (file_name_injective None "get_inlp" "get_inlp" 1 1);
    [apply no_space_chars; repeat constructor; discriminate
    |apply no_space_chars; repeat constructor; discriminate
    |reflexivity].
Defined.

Lemma methods_no_space : Forall no_space methods.
Proof.
  repeat constructor; apply no_space_chars; repeat constructor; discriminate.
Qed.

(** X12. [run] saves [n * 8] files, and no two of them have the same
    name: no direction is overwritten within a run. *)
Theorem run_file_names_distinct (n : nat) (layer_nb : option Z) :
  length (run_file_names n layer_nb) = n * 8
  /\ NoDup (run_file_names n layer_nb).
Proof.
  unfold run_file_names. split.
  - rewrite <- (length_seq n 0) at 2.
    induction (seq 0 n) as [|i l IH]; [reflexivity|].
    change (mjoin (map (fun i => map (fun m => file_name layer_nb m i) methods)
                     (i :: l)))
      with (map (fun m => file_name layer_nb m i) methods
            ++ mjoin (map (fun i => map (fun m => file_name layer_nb m i)
                                      methods) l)).
    rewrite length_app, IH, length_map. simpl. lia.
  - assert (Hbind : forall {A B} (f : A -> list B) l,
              mjoin (map f l) = l ≫= f).
    { intros A B f l. induction l as [|x l IH]; [reflexivity|].
      simpl. by rewrite IH. }
    rewrite Hbind.
    apply NoDup_bind; [| |apply NoDup_seq].
    + intros i1 i2 y _ _ Hy1 Hy2.
      apply list_elem_of_fmap in Hy1 as (m1 & -> & Hm1).
      apply list_elem_of_fmap in Hy2 as (m2 & Heq & Hm2).
      pose proof methods_no_space as Hns.
      apply (file_name_inj layer_nb m1 m2 i1 i2); [| |exact Heq];
        by apply (proj1 (Forall_forall _ _) Hns).
    + intros i _. apply NoDup_fmap_2_strong.
      * intros m1 m2 Hm1 Hm2 Heq.
        pose proof methods_no_space as Hns.
        apply (file_name_inj layer_nb m1 m2 i i); [| |exact Heq];
          by apply (proj1 (Forall_forall _ _) Hns).
      * by apply (bool_decide_unpack _).
Qed.

End GenerateDirsMore.

(** ** The swap test: values of the measure *)

Module ConfusionMore.
Import Tensor Hooks Confusion Examples TensorFacts ConfusionFacts.
Local Open Scope R_scope.
Local Open Scope result_scope.

Lemma rbind_ok {A B} (r : result A) (k : A -> result B) (b : B) :
  rbind r k = Ok b -> exists a, r = Ok a /\ k a = Ok b.
Proof. destruct r as [a|e]; simpl; [eauto|discriminate]. Qed.

Lemma zip_minus_self (e : list R) :
  Forall (fun x => x = 0) (zip_with Rminus e e).
Proof. induction e as [|a e IH]; simpl; constructor; [lra|exact IH]. Qed.

(** The margin between a token and itself. *)
Lemma margin_same (out_mixed : tensor) (k : Z) (x : R) :
  margin out_mixed k k = Ok x -> x = 0.
Proof.
  unfold margin. intros H.
  apply rbind_ok in H as (c & Hc & H). rewrite Hc in H. simpl in H.
  apply rbind_ok in H as (d & Hd & H).
  unfold tsub, broadcast2 in Hd. rewrite Nat.max_id in Hd.
  rewrite broadcast_shapes_same in Hd. injection Hd as <-.
  unfold item in H. simpl in H.
  destruct (pad_shape _ _); [|discriminate].
  pose proof (zip_minus_self (expand [] [] (data c))) as Hz.
  destruct (zip_with Rminus _ _) as [|y [|]]; try discriminate.
  injection H as <-. by apply Forall_cons in Hz as [Hz _].
Qed.

Section AnyModel.
Variable tokenize : list string -> result tokens.
Variable encode : string -> list nat.
Variable model : tokens -> tokens -> result value.

(** X13. Whatever the model and the tokenizer, a value returned by
    [measure_confusions] (and [measure_confusions_grad]) is not
    negative. *)
Theorem measure_confusions_nonneg (test : Test) (r : R) :
  measure_confusions tokenize encode test model = Ok r -> 0 <= r.
Proof.
  unfold measure_confusions, measure_confusions_grad. intros H.
  repeat (apply rbind_ok in H as (? & _ & H)).
  injection H as <-.
  apply Rplus_le_le_0_compat; apply Rabs_pos.
Qed.

(** X14. When the two answers of a test start with the same token, the
    measure is 0 whatever the model returns: [correct] and [wrong] are the
    same index. *)
Theorem measure_confusions_same_token (test : Test) (r : R) :
  first_token encode (answer (positive test))
  = first_token encode (answer (negative test)) ->
  measure_confusions tokenize encode test model = Ok r -> r = 0.
Proof.
  unfold measure_confusions, measure_confusions_grad. intros Heq H.
  rewrite Heq in H.
  do 10 (apply rbind_ok in H as (? & _ & H)).
  apply rbind_ok in H as (c & Hc & H). rewrite Hc in H. simpl in H.
  apply rbind_ok in H as (r00 & H00 & H).
  apply rbind_ok in H as (r01 & H01 & H).
  apply rbind_ok in H as (r10 & H10 & H).
  apply rbind_ok in H as (r11 & H11 & H).
  apply margin_same in H00, H01, H10, H11. subst.
  injection H as <-. rewrite Rminus_diag, Rabs_R0. lra.
Qed.
End AnyModel.

Section FirstInput.
Variable tokenize : list string -> result tokens.
Variable tok1 : string -> list nat.
Variable encode : string -> list nat.
Variables s v : nat.
Variable g : list nat -> list nat -> list R.
Hypothesis Htok : forall l, tokenize l = Ok (map tok1 l).
Hypothesis Hg : forall x y, length (g x y) = (s * v)%nat.

(** X15. For a model whose output for an example depends on its first
    input only, the measure is 0: the mixed runs agree with the pure
    ones. *)
Theorem measure_confusions_first_input (test : Test) (r : R) :
  (forall x y y', g x y = g x y') ->
  measure_confusions tokenize encode test (batch_model s v g) = Ok r ->
  r = 0.
Proof.
  intros Hind. unfold measure_confusions.
  rewrite (measure_confusions_rowwise tokenize tok1 encode s v g Htok Hg).
  destruct s as [|s']; [discriminate|]. cbv beta iota zeta.
  set (p := tok1 (prompt (positive test))).
  set (n := tok1 (prompt (negative test))).
  assert (Hp : last_logprobs (S s') v g p n = last_logprobs (S s') v g p p).
  { unfold last_logprobs. by rewrite (Hind p n p). }
  assert (Hn : last_logprobs (S s') v g n p = last_logprobs (S s') v g n n).
  { unfold last_logprobs. by rewrite (Hind n p n). }
  rewrite Hp, Hn. intros H.
  apply rbind_ok in H as (c0 & _ & H).
  apply rbind_ok in H as (w0 & _ & H).
  apply rbind_ok in H as (r00 & H00 & H). rewrite H00 in H. simpl in H.
  apply rbind_ok in H as (c1 & _ & H).
  apply rbind_ok in H as (w1 & _ & H).
  apply rbind_ok in H as (r10 & H10 & H). rewrite H10 in H. simpl in H.
  injection H as <-. rewrite !Rminus_diag, Rabs_R0. lra.
Qed.
End FirstInput.

Lemma measure_confusions_nonneg_witness :
  measure_confusions tokenize0 encode0 test0 (batch_model 1 3 g0) = Ok 3
  /\ 0 <= 3.
Proof.
  assert (H : measure_confusions tokenize0 encode0 test0 (batch_model 1 3 g0)
              = Ok 3) by eval_confusion.
  split; [exact H|].
  exact (measure_confusions_nonneg tokenize0 encode0 (batch_model 1 3 g0)
           test0 3 H).
Defined.

Lemma measure_confusions_same_token_witness :
  let test := mkTest (mkQuestion "x" "a") (mkQuestion "yy" "b") in
  measure_confusions tokenize0 encode0 test (batch_model 1 3 g0) = Ok 0
  /\ (0 : R) = 0.
Proof.
  intros test.
  assert (H : measure_confusions tokenize0 encode0 test (batch_model 1 3 g0)
              = Ok 0) by eval_confusion.
  split; [exact H|].
  exact (measure_confusions_same_token tokenize0 encode0 (batch_model 1 3 g0)
           test 0 eq_refl H).
Defined.

Lemma measure_confusions_first_input_witness :
  let g := fun x (_ : list nat) => [0; INR (List.hd 0%nat x); 0] in
  measure_confusions tokenize0 encode0 test0 (batch_model 1 3 g) = Ok 0
  /\ (0 : R) = 0.
Proof.
  intros g.
  assert (H : measure_confusions tokenize0 encode0 test0 (batch_model 1 3 g)
              = Ok 0) by eval_confusion.
  split; [exact H|].
  exact (measure_confusions_first_input tokenize0
           (fun p => [String.length p]) encode0 1 3 g
           (fun _ => eq_refl) (fun _ _ => eq_refl) test0 0
           (fun _ _ _ => eq_refl) H).
Defined.

End ConfusionMore.

Module AnalysisMore.
Import Tensor Analysis TensorFacts.
Local Open Scope R_scope.
Local Open Scope result_scope.

Lemma zip_div_self (l : list R) :
  Forall (fun x => x <> 0) l ->
  map (fun x => 1 - x) (zip_with Rdiv l l) = replicate (length l) 0.
Proof.
  induction 1 as [|x l Hx _ IH]; simpl; [reflexivity|].
  rewrite IH. f_equal. field. exact Hx.
Qed.

Lemma zip_div_zero (l : list R) :
  map (fun x => 1 - x) (zip_with Rdiv (map (fun _ => 0) l) l)
  = replicate (length l) 1.
Proof.
  induction l as [|x l IH]; simpl; [reflexivity|].
  rewrite IH. f_equal. unfold Rdiv. lra.
Qed.

(** X16. The swap success rate [1 - confusions / baseline_confusions]
    of [plot_tests] is 0 for confusions equal to the baseline and 1 for
    confusions equal to 0 (the baseline being nonzero). *)
Theorem swap_success_ends (baseline_confusions : tensor) :
  tensor_wf baseline_confusions ->
  Forall (fun x => x <> 0) (data baseline_confusions) ->
  swap_success baseline_confusions baseline_confusions
  = Ok (mkTensor (shape baseline_confusions)
          (replicate (length (data baseline_confusions)) 0))
  /\ swap_success (tmap (fun _ => 0) baseline_confusions) baseline_confusions
     = Ok (mkTensor (shape baseline_confusions)
             (replicate (length (data baseline_confusions)) 1)).
Proof.
  intros Hwf Hnz. unfold swap_success, tdivt. split.
  - rewrite broadcast2_same_shape by done. simpl. unfold tmap. simpl.
    by rewrite zip_div_self.
  - rewrite broadcast2_same_shape; try done.
    + simpl. unfold tmap. simpl. by rewrite zip_div_zero.
    + unfold tensor_wf, tmap in *. simpl. by rewrite length_map.
Qed.

Lemma swap_success_ends_witness :
  let b := mkTensor [2%nat] [2; 4] in
  swap_success b b = Ok (mkTensor [2%nat] [0; 0])
  /\ swap_success (tmap (fun _ => 0) b) b = Ok (mkTensor [2%nat] [1; 1]).
Proof.
  intros b.
  apply (swap_success_ends b); [reflexivity|].
  repeat constructor; lra.
Defined.

End AnalysisMore.

(** ** Forward hooks: what is recorded *)

Module HooksMore.
Import Tensor Hooks HooksFacts.
Local Open Scope result_scope.
Local Open Scope monad_scope.

Lemma registered_cons (m0 : module_id) (f0 : hook)
    (hooks : list (module_id * hook)) (s : hook_state) :
  registered ((m0, f0) :: hooks) s
  = registered hooks
      (mkHookState (S (next_id s))
         (<[m0 := hooks_of s m0 ++ [(next_id s, f0)]]> (forward_hooks s))).
Proof.
  unfold registered. simpl. unfold mbind, register_forward_hook.
  by destruct (register_all hooks _) as [[hds|e] s'].
Qed.

(** Registration leaves the modules that are not named as they were. *)
Lemma hooks_of_registered_other (hooks : list (module_id * hook)) :
  forall s m, m ∉ hooks.*1 ->
    hooks_of (registered hooks s) m = hooks_of s m.
Proof.
  induction hooks as [|[m0 f0] hooks IH]; intros s m Hm; [reflexivity|].
  simpl in Hm. apply not_elem_of_cons in Hm as [Hne Hm].
  rewrite registered_cons, IH by exact Hm.
  rewrite hooks_of_insert. by rewrite decide_False.
Qed.

(** The hooks of a module after [get_activations] has registered its own:
    one recording hook for each time the module is listed. *)
Lemma hooks_of_recording (operation : tensor -> result tensor)
    (modules : list module_id) : forall s m,
  exists ids,
    hooks_of (registered (map (fun m => (m, hook_fn operation)) modules) s) m
    = hooks_of s m ++ map (fun id => (id, hook_fn operation)) ids
    /\ (ids = [] <-> m ∉ modules).
Proof.
  induction modules as [|m0 modules IH]; intros s m.
  - exists []. split; [by rewrite app_nil_r|]. split; [|done].
    intros _. apply not_elem_of_nil.
  - simpl map. rewrite registered_cons.
    destruct (IH (mkHookState (S (next_id s))
                    (<[m0 := hooks_of s m0 ++ [(next_id s, hook_fn operation)]]>
                       (forward_hooks s))) m) as (ids & Hids & Hiff).
    rewrite Hids, hooks_of_insert.
    destruct (decide (m0 = m)) as [->|Hne].
    + exists (next_id s :: ids). split; [by rewrite <- app_assoc|].
      split; [discriminate|]. intros Hn. exfalso. apply Hn. left.
    + exists ids. split; [reflexivity|]. rewrite Hiff.
      rewrite not_elem_of_cons. split; [by split|by intros []].
Qed.

(** Recording hooks keep the output and write the module's key. *)
Lemma run_hooks_recording (operation : tensor -> result tensor)
    (m : module_id) (inp out : value) (ids : list nat) : forall a y a',
  run_hooks m (map (fun id => (id, hook_fn operation)) ids) inp out a
  = Ok (y, a') ->
  y = out
  /\ forall k, is_Some (a' !! k) <-> is_Some (a !! k) \/ (k = m /\ ids <> []).
Proof.
  induction ids as [|id ids IH]; intros a y a' H; simpl in H.
  - injection H as <- <-. split; [reflexivity|]. intros k. split; [by left|].
    by intros [?|[_ ?]].
  - unfold hook_fn in H at 1.
    destruct (out_tensor out) as [out_|e]; simpl in H; [|discriminate].
    destruct (operation out_) as [v|e]; simpl in H; [|discriminate].
    apply IH in H as [-> Hk]. split; [reflexivity|].
    intros k. rewrite Hk. destruct (decide (k = m)) as [->|Hne].
    + rewrite lookup_insert_eq. split; [|by eauto].
      intros _. right. by split.
    + rewrite lookup_insert_ne by done. split; intros [?|[? ?]]; auto; done.
Qed.

Lemma run_layers_recording (operation : tensor -> result tensor)
    (modules : list module_id) (s : hook_state)
    (ls : list (module_id * (value -> result value))) : forall x a y a',
  (forall m, exists ids,
     hooks_of s m = map (fun id => (id, hook_fn operation)) ids
     /\ (ids = [] <-> m ∉ modules)) ->
  run_layers s ls x a = Ok (y, a') ->
  run_plain ls x = Ok y
  /\ forall k, is_Some (a' !! k)
       <-> is_Some (a !! k) \/ (k ∈ ls.*1 /\ k ∈ modules).
Proof.
  induction ls as [|[m f] ls IH]; intros x a y a' Hs H; simpl in H.
  - injection H as <- <-. split; [reflexivity|]. intros k. split; [by left|].
    intros [?|[Hk _]]; [done|]. by apply elem_of_nil in Hk.
  - simpl. destruct (f x) as [o|e]; simpl in *; [|discriminate].
    destruct (Hs m) as (ids & Hids & Hiff). rewrite Hids in H.
    destruct (run_hooks m _ x o a) as [[o' a1]|e] eqn:Hrun; simpl in H;
      [|discriminate].
    apply run_hooks_recording in Hrun as [-> Hk1].
    apply (IH _ _ _ _ Hs) in H as [Hplain Hk]. split; [exact Hplain|].
    intros k. rewrite Hk, Hk1, elem_of_cons. split.
    + intros [[?|[-> Hne]]|[? ?]]; auto.
      right. split; [by left|].
      destruct (decide (m ∈ modules)) as [|Hn]; [done|].
      by apply Hiff in Hn.
    + intros [?|[[->|?] Hin]]; auto.
      left. right. split; [reflexivity|]. intros ->.
      by apply (proj1 Hiff).
Qed.

(** X17. Starting without hooks, the dict that [get_activations] returns
    has exactly the requested modules that the forward pass runs as
    keys. *)
Theorem get_activations_keys (t : tokens) (mdl : model)
    (modules : list module_id) (operation : tensor -> result tensor)
    (s : hook_state) (activations : acts) :
  (forall m, hooks_of s m = []) ->
  (get_activations t mdl modules operation s).1 = Ok activations ->
  forall m, is_Some (activations !! m)
    <-> m ∈ modules /\ m ∈ (layers mdl).*1.
Proof.
  intros Hno Hrun m.
  destruct (get_activations_run t mdl modules operation s
              (no_hooks_wf s Hno)) as (s1 & Heq & _).
  rewrite Heq in Hrun. simpl in Hrun. unfold call_model in Hrun.
  destruct (embed mdl t) as [x|e]; simpl in Hrun; [|discriminate].
  destruct (run_layers _ (layers mdl) x ∅) as [[y a]|e] eqn:Hl;
    simpl in Hrun; [|discriminate].
  injection Hrun as ->.
  eapply (run_layers_recording operation modules) in Hl as [_ Hk].
  - rewrite Hk, lookup_empty. split.
    + intros [H|[? ?]]; [by destruct H|done].
    + intros [? ?]. by right.
  - intros m'. destruct (hooks_of_recording operation modules s m')
      as (ids & Hids & Hiff).
    exists ids. by rewrite Hids, Hno.
Qed.

(** Handles are never reused: the counter does not go down. *)
Lemma guarded_call_wf {A} (hooks : list (module_id * hook))
    (body : hook_state -> result A) (s : hook_state) :
  hooks_wf s ->
  hooks_wf ((hds <- register_all hooks ;
             try_finally (reraise (fun s' => (body s', s')))
               (remove_all hds)) s).2.
Proof.
  intros Hwf.
  destruct (guarded_call hooks body s Hwf) as [_ Hsame].
  cbv zeta in Hsame. intros m p Hp. rewrite Hsame in Hp.
  specialize (Hwf m p Hp).
  destruct (register_all_spec hooks s) as (hds & s1 & Hreg & Hle & _).
  unfold mbind. rewrite Hreg. unfold try_finally, reraise.
  destruct (body s1) as [a|e]; simpl; rewrite next_id_remove_all; lia.
Qed.

(** X18. [get_activations] and [run_and_modify] preserve the invariant
    of the hook store (every registered handle id is below the counter),
    so that they can be called again. *)
Theorem hooks_wf_preserved (t : tokens) (mdl : model)
    (modules : list module_id) (operation : tensor -> result tensor)
    (modification_fns : list (module_id * hook)) (s : hook_state) :
  hooks_wf s ->
  hooks_wf (get_activations t mdl modules operation s).2
  /\ hooks_wf (run_and_modify t mdl modification_fns s).2.
Proof.
  intros Hwf. split.
  - apply (guarded_call_wf (map (fun m => (m, hook_fn operation)) modules)
             (fun s' => let? r := call_model mdl s' t ∅ in Ok r.2) s Hwf).
  - apply (guarded_call_wf modification_fns
             (fun s' => let? r := call_model mdl s' t ∅ in Ok r.1) s Hwf).
Qed.

(** X19. Functions given to [run_and_modify] for modules that the
    forward pass does not run have no effect: the result is the output of
    the model. *)
Theorem run_and_modify_unreached (t : tokens) (mdl : model)
    (modification_fns : list (module_id * hook)) (s : hook_state) :
  (forall m, hooks_of s m = []) ->
  (forall m, m ∈ modification_fns.*1 -> m ∉ (layers mdl).*1) ->
  (run_and_modify t mdl modification_fns s).1
  = let? x := embed mdl t in run_plain (layers mdl) x.
Proof.
  intros Hno Hun.
  destruct (run_and_modify_run t mdl modification_fns s (no_hooks_wf s Hno))
    as (s1 & -> & _).
  simpl. unfold call_model.
  destruct (embed mdl t) as [x|e]; simpl; [|reflexivity].
  rewrite run_layers_no_hooks.
  - by destruct (run_plain (layers mdl) x).
  - intros m Hm. rewrite hooks_of_registered_other; [apply Hno|].
    intros Hin. by apply (Hun m).
Qed.

Section CutAtLayer.
Variable mdl : model.
Variables pre post : list (module_id * (value -> result value)).
Variable layer : module_id.
Variable f : value -> result value.
Hypothesis Hlayers : layers mdl = pre ++ (layer, f) :: post.
Hypothesis Hpre : layer ∉ pre.*1.
Hypothesis Hpost : layer ∉ post.*1.

(** X20. On a model cut at [layer], starting without hooks,
    [get_activations] for that layer returns the one-entry dict holding
    [operation] applied to the hidden states of the layer's output (the
    first item when the output is a tuple); an exception of the forward
    pass or of [operation] is the exception of the call. *)
Theorem get_activations_one_layer (operation : tensor -> result tensor)
    (t : tokens) (s : hook_state) :
  (forall m, hooks_of s m = []) ->
  (get_activations t mdl [layer] operation s).1
  = let? x := embed mdl t in
    let? u := run_plain pre x in
    let? o := f u in
    let? out_ := out_tensor o in
    let? v := operation out_ in
    let? _ := run_plain post o in
    Ok {[layer := v]}.
Proof.
  intros Hno.
  destruct (get_activations_run t mdl [layer] operation s
              (no_hooks_wf s Hno)) as (s1 & -> & _).
  simpl map. cbn [fst].
  rewrite (call_model_one_hook mdl pre post layer f Hlayers Hpre Hpost)
    by exact Hno.
  destruct (embed mdl t) as [x|e]; simpl; [|reflexivity].
  destruct (run_plain pre x) as [u|e]; simpl; [|reflexivity].
  destruct (f u) as [o|e]; simpl; [|reflexivity].
  unfold hook_fn.
  destruct (out_tensor o) as [out_|e]; simpl; [|reflexivity].
  destruct (operation out_) as [v|e]; simpl; [|reflexivity].
  by destruct (run_plain post o).
Qed.
End CutAtLayer.

(** *** On the one-layer model *)

Lemma get_activations_keys_witness :
  (get_activations [[1%nat]] Examples.mdl0 [0%nat] (fun x => tindex x 0)
     Examples.s0).1
  = Ok {[0%nat := mkTensor [1; 1]%nat [INR 1]]}
  /\ forall m,
       is_Some (({[0%nat := mkTensor [1; 1]%nat [INR 1]]} : acts) !! m)
       <-> m ∈ [0%nat] /\ m ∈ (layers Examples.mdl0).*1.
Proof.
  split; [reflexivity|].
  apply (get_activations_keys [[1%nat]] Examples.mdl0 [0%nat]
           (fun x => tindex x 0) Examples.s0);
    [exact s0_no_hooks|reflexivity].
Defined.

Lemma hooks_wf_preserved_witness :
  hooks_wf (get_activations [[1%nat]] Examples.mdl0 [0%nat] Ok Examples.s0).2
  /\ hooks_wf (run_and_modify [[1%nat]] Examples.mdl0 [] Examples.s0).2.
Proof.
  apply (hooks_wf_preserved [[1%nat]] Examples.mdl0 [0%nat] Ok []
           Examples.s0).
  apply no_hooks_wf. exact s0_no_hooks.
Defined.

(** A hook on module 5, which the model does not have. *)
Lemma run_and_modify_unreached_witness :
  (run_and_modify [[1%nat]] Examples.mdl0
     [(5%nat, fun _ _ _ a => Ok (Some (VTuple []), a))] Examples.s0).1
  = let? x := embed Examples.mdl0 [[1%nat]] in
    run_plain (layers Examples.mdl0) x.
Proof.
  apply (run_and_modify_unreached [[1%nat]] Examples.mdl0
           [(5%nat, fun _ _ _ a => Ok (Some (VTuple []), a))] Examples.s0);
    [exact s0_no_hooks|].
  intros m Hm Hin. simpl in Hm, Hin.
  apply list_elem_of_singleton in Hm, Hin. congruence.
Defined.

Lemma get_activations_one_layer_witness :
  (get_activations [[1%nat]] Examples.mdl0 [0%nat] (fun x => tindex x 0)
     Examples.s0).1
  = let? x := Examples.embed0 [[1%nat]] in
    let? u := run_plain [] x in
    let? o := Examples.block0 u in
    let? out_ := out_tensor o in
    let? v := tindex out_ 0 in
    let? _ := run_plain [] o in
    Ok {[0%nat := v]}.
Proof.
  apply (get_activations_one_layer Examples.mdl0 [] [] 0%nat Examples.block0
           eq_refl (not_elem_of_nil _) (not_elem_of_nil _)
           (fun x => tindex x 0) [[1%nat]] Examples.s0).
  exact s0_no_hooks.
Defined.

End HooksMore.

(** ** The probe and the model *)

Module FrankensteinMore.
Import Tensor Projection Hooks Analysis Examples TensorFacts ProjectFacts.
Import HooksFacts ProjectMore HooksMore.
Local Open Scope R_scope.
Local Open Scope result_scope.
Local Open Scope monad_scope.

(** *** Broadcasting against a tensor of lower rank *)

Lemma broadcast_shapes_lead (lead sz : list nat) :
  broadcast_shapes (lead ++ sz) (replicate (length lead) 1%nat ++ sz)
  = Some (lead ++ sz).
Proof.
  induction lead as [|d lead IH]; simpl; [apply broadcast_shapes_same|].
  rewrite IH. destruct (Nat.eqb_spec d 1); reflexivity.
Qed.

Lemma expand_const_lead (lead sz : list nat) (c : R) :
  expand (replicate (length lead) 1%nat ++ sz) (lead ++ sz)
    (replicate (numel sz) c)
  = replicate (numel (lead ++ sz)) c.
Proof.
  induction lead as [|d lead IH].
  - simpl. apply expand_same. by rewrite length_replicate.
  - cbn [length replicate app expand].
    rewrite numel_app, numel_ones, Nat.mul_1_l.
    change (numel (d :: lead ++ sz)) with (d * numel (lead ++ sz))%nat.
    destruct (Nat.eqb_spec 1 d) as [<-|_].
    + cbn [replicate reshape map mjoin].
      rewrite take_ge by (by rewrite length_replicate).
      rewrite IH. simpl. rewrite app_nil_r. f_equal. lia.
    + by rewrite IH, mjoin_replicate_replicate.
Qed.

Lemma pad_shape_lead (lead sz : list nat) :
  pad_shape (length (lead ++ sz)) sz = replicate (length lead) 1%nat ++ sz.
Proof.
  unfold pad_shape. rewrite length_app. do 2 f_equal. lia.
Qed.

(** [a op z] when [z] holds one value [c] and has the trailing shape of
    [a]. *)
Lemma broadcast2_const_tail (f : R -> R -> R) (a z : tensor)
    (lead : list nat) (c : R) :
  tensor_wf a -> shape a = lead ++ shape z ->
  data z = replicate (numel (shape z)) c ->
  broadcast2 f a z = Ok (mkTensor (shape a) (map (fun x => f x c) (data a))).
Proof.
  intros Ha Hs Hz. destruct a as [sa da], z as [sz dz]. simpl in *.
  subst sa dz. unfold broadcast2, tensor_wf in *. simpl in *.
  replace (length (lead ++ sz) `max` length sz)%nat
    with (length (lead ++ sz)) by (rewrite length_app; lia).
  rewrite pad_shape_same, pad_shape_lead, broadcast_shapes_lead.
  rewrite expand_same by exact Ha. rewrite expand_const_lead.
  by rewrite <- Ha, zip_with_replicate_r.
Qed.

(** [a op b] when [a] has one more axis than [b], of size 1. *)
Lemma broadcast2_lead1 (f : R -> R -> R) (a b : tensor) :
  tensor_wf a -> tensor_wf b -> shape a = 1%nat :: shape b ->
  broadcast2 f a b = Ok (mkTensor (shape a) (zip_with f (data a) (data b))).
Proof.
  intros Ha Hb Hs. unfold broadcast2.
  replace (length (shape a) `max` length (shape b))%nat
    with (length (shape a)) by (rewrite Hs; simpl; lia).
  rewrite pad_shape_same.
  replace (pad_shape (length (shape a)) (shape b)) with (shape a).
  2:{ rewrite Hs. unfold pad_shape. simpl.
      replace (S (length (shape b)) - length (shape b))%nat with 1%nat by lia.
      reflexivity. }
  rewrite broadcast_shapes_same, !expand_same; [reflexivity| |exact Ha].
  unfold tensor_wf in Hb. rewrite Hb, Hs. simpl. lia.
Qed.

Lemma zip_minus_self_zero (d : list R) :
  zip_with Rminus d d = replicate (length d) 0.
Proof. induction d as [|x d IH]; simpl; [reflexivity|]. rewrite IH. f_equal. lra. Qed.

Lemma map_plus_zero (d : list R) : map (fun x => x + 0) d = d.
Proof. induction d as [|x d IH]; simpl; [reflexivity|]. rewrite IH. f_equal. lra. Qed.

Lemma zip_plus_minus (p y : list R) :
  length p = length y ->
  zip_with Rplus p (zip_with Rminus y p) = y.
Proof.
  revert y. induction p as [|a p IH]; intros [|b y] Hl; try done.
  simpl. rewrite IH by (simpl in Hl; lia). f_equal. lra.
Qed.

Lemma tensor_eta (t : tensor) : mkTensor (shape t) (data t) = t.
Proof. by destruct t. Qed.

Lemma run_plain_app (l1 l2 : list (module_id * (value -> result value))) :
  forall x, run_plain (l1 ++ l2) x
            = let? y := run_plain l1 x in run_plain l2 y.
Proof.
  induction l1 as [|[m f] l1 IH]; intros x; simpl; [reflexivity|].
  destruct (f x) as [y|e]; simpl; [apply IH|reflexivity].
Qed.

Section Probe.
Variable mdl : model.
Variables pre post : list (module_id * (value -> result value)).
Variable layer : module_id.
Variable f : value -> result value.
Hypothesis Hlayers : layers mdl = pre ++ (layer, f) :: post.
Hypothesis Hpre : layer ∉ pre.*1.
Hypothesis Hpost : layer ∉ post.*1.

(** The model itself, cut at the layer. *)
Lemma plain_cut (t : tokens) :
  (let? x := embed mdl t in run_plain (layers mdl) x)
  = let? x := embed mdl t in
    let? u := run_plain pre x in
    let? o := f u in
    run_plain post o.
Proof.
  rewrite Hlayers. destruct (embed mdl t) as [x|e]; simpl; [|reflexivity].
  rewrite run_plain_app. by destruct (run_plain pre x).
Qed.

(** The two passes of the probe. *)
Lemma frankenstein_run (dirs additional : tensor)
    (projection_fn : tensor -> tensor -> result tensor)
    (inp1 inp2 : tokens) (s : hook_state) :
  (forall m, hooks_of s m = []) ->
  (create_frankenstein dirs mdl layer additional projection_fn inp1 inp2 s).1
  = transplant dirs additional projection_fn (embed mdl) pre f post
      inp1 inp2.
Proof.
  intros Hno.
  assert (Hwf : hooks_wf s) by (by apply no_hooks_wf).
  unfold create_frankenstein, proj_act1_of, mbind.
  destruct (get_activations_run inp1 mdl [layer] (fun x => tindex x 0)
              s Hwf) as (s1 & -> & Hs1).
  assert (Hno1 : forall m, hooks_of s1 m = []).
  { intros m. by rewrite Hs1. }
  assert (Hwf1 : hooks_wf s1) by (by apply no_hooks_wf).
  simpl map.
  rewrite (call_model_one_hook mdl pre post layer f Hlayers Hpre Hpost)
    by exact Hno.
  unfold transplant.
  destruct (embed mdl inp1) as [x1|e]; simpl; [|done].
  destruct (run_plain pre x1) as [u1|e]; simpl; [|done].
  destruct (f u1) as [o1|e]; simpl; [|done].
  unfold hook_fn.
  destruct (out_tensor o1) as [h1|e]; simpl; [|done].
  destruct (tindex h1 0) as [act1|e]; simpl; [|done].
  destruct (run_plain post o1) as [y1|e]; simpl; [|done].
  rewrite lookup_insert_eq. unfold lift.
  destruct (projection_fn act1 dirs) as [p1|e]; simpl; [|done].
  destruct (tsub act1 p1) as [signal|e]; simpl; [|done].
  destruct (run_and_modify_run inp2 mdl
              [(layer, mix dirs additional projection_fn signal)]
              s1 Hwf1) as (s2 & -> & Hs2).
  simpl.
  rewrite (call_model_one_hook mdl pre post layer f Hlayers Hpre Hpost)
    by exact Hno1.
  destruct (embed mdl inp2) as [x2|e]; simpl; [|reflexivity].
  destruct (run_plain pre x2) as [u2|e]; simpl; [|reflexivity].
  destruct (f u2) as [o2|e]; simpl; [|reflexivity].
  unfold mix.
  destruct (unpack o2) as [yr|e]; simpl; [|reflexivity].
  destruct (projection_fn yr.1 dirs) as [p2|e]; simpl; [|reflexivity].
  destruct (tadd p2 signal) as [q|e]; simpl; [|reflexivity].
  destruct (tadd q additional) as [y|e]; simpl; [|reflexivity].
  by destruct (run_plain post (VTuple (y :: yr.2))).
Qed.

(** X21. With the empty direction set and [additional = 0], the probe of
    [create_frankenstein] returns what the model returns on its second
    input, provided that the recording pass on the first input succeeds
    with activations of the same sequence length. *)
Theorem frankenstein_empty_dirs (dirs e : tensor) (n h sq b : nat)
    (inp1 inp2 : tokens) (s : hook_state) (a1 : acts)
    (act1 y : tensor) (rest : list tensor) :
  (forall m, hooks_of s m = []) ->
  shape dirs = [n; h] -> empty_dirs dirs = Ok e ->
  (get_activations inp1 mdl [layer] (fun x => tindex x 0) s).1 = Ok a1 ->
  a1 !! layer = Some act1 ->
  tensor_wf act1 -> shape act1 = [sq; h] ->
  (let? x := embed mdl inp2 in let? u := run_plain pre x in f u)
  = Ok (VTuple (y :: rest)) ->
  tensor_wf y -> shape y = [b; sq; h] ->
  (create_frankenstein e mdl layer (scalar 0) project1 inp1 inp2 s).1
  = let? x := embed mdl inp2 in run_plain (layers mdl) x.
Proof.
  intros Hno Hsd He Hga Ha1 Hwa Hsa Hrun Hwy Hsy.
  rewrite frankenstein_run by exact Hno. rewrite plain_cut.
  destruct (get_activations_run inp1 mdl [layer] (fun x => tindex x 0) s
              (no_hooks_wf s Hno)) as (s1 & Heq & _).
  rewrite Heq in Hga. simpl in Hga. clear Heq.
  rewrite (call_model_one_hook mdl pre post layer f Hlayers Hpre Hpost)
    in Hga by exact Hno.
  unfold transplant.
  destruct (embed mdl inp1) as [x1|?]; simpl in *; [|discriminate].
  destruct (run_plain pre x1) as [u1|?]; simpl in *; [|discriminate].
  destruct (f u1) as [o1|?]; simpl in *; [|discriminate].
  unfold hook_fn in Hga.
  destruct (out_tensor o1) as [h1|?]; simpl in *; [|discriminate].
  destruct (tindex h1 0) as [v|?]; simpl in *; [|discriminate].
  destruct (run_plain post o1) as [z1|?]; simpl in *; [|discriminate].
  injection Hga as <-. rewrite lookup_insert_eq in Ha1.
  injection Ha1 as ->.
  unfold empty_dirs in He. rewrite Hsd in He. injection He as <-.
  assert (Hpe : forall X lead, tensor_wf X -> shape X = lead ++ [h] ->
            project1 X (mkTensor [0%nat; h] []) = Ok X).
  { intros X lead HX HsX. unfold project1.
    apply (project_fixed X _ lead 0 h); try done.
    right. apply Forall_forall. intros x _. unfold rows. simpl.
    constructor. }
  rewrite (Hpe act1 [sq]) by done. simpl.
  unfold tsub. rewrite broadcast2_same_shape by done. simpl.
  destruct (embed mdl inp2) as [x2|?]; simpl in *; [|discriminate].
  destruct (run_plain pre x2) as [u2|?]; simpl in *; [|discriminate].
  rewrite Hrun. simpl.
  rewrite (Hpe y [b; sq]) by done. simpl.
  unfold tadd.
  rewrite (broadcast2_const_tail Rplus y _ [b] 0); try done.
  2:{ simpl. by rewrite Hsa. }
  2:{ simpl. rewrite zip_minus_self_zero. f_equal.
      unfold tensor_wf in Hwa. by rewrite Hwa. }
  simpl. rewrite map_plus_zero, tensor_eta.
  rewrite broadcast2_scalar by done.
  by rewrite map_plus_zero, tensor_eta.
Qed.

(** X22. Patching a batch of one prompt with itself changes nothing: for
    every direction set, the probe called with [inp1 = inp2] and
    [additional = 0] returns what the model returns. *)
Theorem frankenstein_same_input (dirs : tensor) (n h sq : nat)
    (inp : tokens) (s : hook_state) (y : tensor) (rest : list tensor) :
  (forall m, hooks_of s m = []) ->
  tensor_wf dirs -> shape dirs = [n; h] ->
  (let? x := embed mdl inp in let? u := run_plain pre x in f u)
  = Ok (VTuple (y :: rest)) ->
  tensor_wf y -> shape y = [1%nat; sq; h] ->
  (create_frankenstein dirs mdl layer (scalar 0) project1 inp inp s).1
  = let? x := embed mdl inp in run_plain (layers mdl) x.
Proof.
  intros Hno Hwd Hsd Hrun Hwy Hsy.
  rewrite frankenstein_run by exact Hno. rewrite plain_cut.
  unfold transplant.
  destruct (embed mdl inp) as [x|?]; simpl in *; [|discriminate].
  destruct (run_plain pre x) as [u|?]; simpl in *; [|discriminate].
  rewrite Hrun. simpl.
  assert (Hlen : length (data y) = (sq * h)%nat).
  { unfold tensor_wf in Hwy. rewrite Hwy, Hsy. simpl. lia. }
  set (act1 := mkTensor [sq; h] (data y)).
  assert (Hidx : tindex y 0 = Ok act1).
  { unfold tindex. rewrite Hsy. simpl. unfold act1. do 2 f_equal.
    rewrite drop_0, take_ge; [done|]. rewrite Hlen. lia. }
  rewrite Hidx. simpl.
  assert (Hwa : tensor_wf act1).
  { unfold tensor_wf, act1. simpl. rewrite Hlen. lia. }
  destruct (project_rows act1 dirs [sq] n h 1 Hwa Hwd eq_refl Hsd)
    as (P1 & HP1 & HsP1 & HwP1 & Hr1).
  destruct (project_rows y dirs [1%nat; sq] n h 1 Hwy Hwd Hsy Hsd)
    as (P2 & HP2 & HsP2 & HwP2 & Hr2).
  assert (Hrows : rows h y = rows h act1).
  { unfold rows, act1. rewrite Hsy. simpl. do 2 f_equal. lia. }
  assert (Hdata : data P2 = data P1).
  { destruct (rows_length P1 [sq] h HwP1 HsP1) as (_ & _ & <-).
    destruct (rows_length P2 [1%nat; sq] h HwP2 (eq_trans HsP2 Hsy))
      as (_ & _ & <-).
    by rewrite Hr1, Hr2, Hrows. }
  assert (HlP : length (data P1) = length (data y)).
  { unfold tensor_wf in HwP1. rewrite HwP1, HsP1, Hlen. simpl. lia. }
  destruct (run_plain post (VTuple (y :: rest))) as [z|err] eqn:Hrp;
    simpl.
  - unfold project1. rewrite HP1. simpl.
    unfold tsub. rewrite broadcast2_same_shape by done. simpl.
    rewrite HP2. simpl. unfold tadd.
    rewrite broadcast2_lead1; try done.
    2:{ unfold tensor_wf. simpl. rewrite length_zip_with, HlP, Hlen. lia. }
    2:{ simpl. by rewrite HsP2, Hsy. }
    simpl. rewrite Hdata, zip_plus_minus by done.
    rewrite HsP2, tensor_eta.
    rewrite broadcast2_scalar by done.
    by rewrite map_plus_zero, tensor_eta.
  - reflexivity.
Qed.

End Probe.

(** *** On the two-layer model *)

Lemma frankenstein_empty_dirs_witness :
  (create_frankenstein (mkTensor [0; 2]%nat []) mdl1 0%nat (scalar 0)
     project1 [[1%nat]; [2%nat]] [[3%nat]; [4%nat]] s0).1
  = let? x := embed mdl1 [[3%nat]; [4%nat]] in run_plain (layers mdl1) x.
Proof.
  apply (frankenstein_empty_dirs mdl1 [] [(1%nat, head1)] 0%nat block0
           eq_refl (not_elem_of_nil _)
           ltac:(simpl; intros H; apply list_elem_of_singleton in H;
                 discriminate)
           dirs1 (mkTensor [0; 2]%nat []) 1 2 1 2
           [[1%nat]; [2%nat]] [[3%nat]; [4%nat]] s0
           {[0%nat := mkTensor [1; 2]%nat [INR 1; INR 1]]}
           (mkTensor [1; 2]%nat [INR 1; INR 1])
           (mkTensor [2; 1; 2]%nat [INR 3; INR 3; INR 4; INR 4]) []);
    try reflexivity; try exact s0_no_hooks; try apply lookup_singleton_eq.
Defined.

Lemma frankenstein_same_input_witness :
  (create_frankenstein dirs1 mdl1 0%nat (scalar 0) project1
     [[3%nat]] [[3%nat]] s0).1
  = let? x := embed mdl1 [[3%nat]] in run_plain (layers mdl1) x.
Proof.
  apply (frankenstein_same_input mdl1 [] [(1%nat, head1)] 0%nat block0
           eq_refl (not_elem_of_nil _)
           ltac:(simpl; intros H; apply list_elem_of_singleton in H;
                 discriminate)
           dirs1 1 2 1 [[3%nat]] s0
           (mkTensor [1; 1; 2]%nat [INR 3; INR 3]) []);
    try reflexivity; try exact s0_no_hooks.
Defined.

End FrankensteinMore.

(** ** Model patching: the patched slot *)

Module PatchMore.
Import Tensor Hooks Patch PatchFacts.
Local Open Scope result_scope.
Local Open Scope monad_scope.

Lemma set_module_id (kvs : list (string * ref)) (k : string) (r : ref) :
  lookup_module kvs k = Some r -> set_module kvs k r = kvs.
Proof.
  induction kvs as [|[k0 v0] kvs IH]; simpl; [discriminate|].
  destruct (decide (k0 = k)) as [->|Hne].
  - by intros [= ->].
  - intros H. by rewrite IH.
Qed.

(** An attribute that reads as a module is a submodule and nothing else. *)
Lemma py_getattr_module_iff (o : module_obj) (name : string) (r : ref) :
  py_getattr o name = Ok (AModule r)
  <-> (name ∉ m_class o) /\ (name ∉ m_dict o) /\ (name ∉ m_params o)
      /\ lookup_module (m_modules o) name = Some r.
Proof.
  unfold py_getattr. split.
  - intros H.
    destruct (bool_decide (name ∈ m_class o)) eqn:Hc; simpl in H;
      [discriminate|].
    destruct (bool_decide (name ∈ m_dict o)) eqn:Hd; simpl in H;
      [discriminate|].
    destruct (bool_decide (name ∈ m_params o)) eqn:Hp; [discriminate|].
    destruct (lookup_module (m_modules o) name) as [c|]; [|discriminate].
    injection H as ->.
    apply bool_decide_eq_false in Hc, Hd, Hp. done.
  - intros (Hc & Hd & Hp & Hm).
    rewrite !bool_decide_eq_false_2 by done. simpl. by rewrite Hm.
Qed.

(** After a module is written into a slot that held one, the slot holds
    what was written. *)
Lemma write_then_read (o o1 : module_obj) (name : string) (old new : ref) :
  (forall k c, lookup_module (m_modules o) k = Some c -> k ∉ m_dict o) ->
  read_slot o name = Ok old ->
  write_slot o name new = Ok o1 ->
  read_slot o1 name = Ok new
  /\ exists key, lookup_module (m_modules o) key = Some old.
Proof.
  intros Hdisj. unfold read_slot, write_slot.
  destruct (py_hasattr o name) eqn:Hh.
  - destruct (py_getattr o name) as [[c|]|e] eqn:Hg; simpl; try discriminate.
    intros [= ->] Hset.
    pose proof (proj1 (py_getattr_module_iff _ _ _) Hg) as (Hc & Hd & Hp & Hm).
    destruct (py_setattr_roundtrip o o1 name old new Hd Hm Hset)
      as (_ & _ & Hc1 & Hd1 & Hp1 & _ & Hlk).
    split; [|by eauto].
    rewrite (py_hasattr_same_names o o1 name Hc1 Hd1 Hp1), Hh.
    2:{ rewrite Hlk, decide_True, Hm by done. split; eauto. }
    assert (Hg1 : py_getattr o1 name = Ok (AModule new)).
    { apply py_getattr_module_iff. rewrite Hc1, Hd1, Hp1, Hlk.
      by rewrite decide_True. }
    by rewrite Hg1.
  - destruct (PyStr.py_int name) as [idx|e]; simpl; [|discriminate].
    unfold py_getitem, py_setitem.
    destruct (m_kind o) eqn:Hk; try discriminate.
    destruct (abs_string_index o idx) as [key|e] eqn:Hkey; simpl;
      [|discriminate].
    destruct (lookup_module (m_modules o) key) as [c|] eqn:Hm;
      [|discriminate].
    intros [= ->] Hset.
    destruct (py_setattr_roundtrip o o1 key old new (Hdisj _ _ Hm) Hm Hset)
      as (_ & Hk1 & Hc1 & Hd1 & Hp1 & Hlen & Hlk).
    split; [|by eauto].
    rewrite (py_hasattr_same_names o o1 name Hc1 Hd1 Hp1), Hh.
    2:{ rewrite Hlk. destruct (decide (key = name)) as [<-|_]; [|done].
        rewrite Hm. split; eauto. }
    simpl. rewrite Hk1, Hk.
    unfold abs_string_index in *. rewrite Hlen, Hkey. simpl.
    by rewrite Hlk, decide_True.
Qed.

(** Writing back the module that a slot holds changes nothing. *)
Lemma write_slot_same (o : module_obj) (name : string) (old : ref) :
  (forall k c, lookup_module (m_modules o) k = Some c -> k ∉ m_dict o) ->
  read_slot o name = Ok old ->
  write_slot o name old = Ok o \/ write_slot o name old = Raise TypeError.
Proof.
  intros Hdisj. unfold read_slot, write_slot.
  assert (Hset : forall key,
            lookup_module (m_modules o) key = Some old ->
            py_setattr o key old = Ok o
            \/ py_setattr o key old = Raise TypeError).
  { intros key Hm. unfold py_setattr.
    destruct (bool_decide (key ∈ m_params o)); [by right|left].
    rewrite (filter_ne_id _ _ (Hdisj _ _ Hm)), (set_module_id _ _ _ Hm).
    by destruct o. }
  destruct (py_hasattr o name) eqn:Hh.
  - destruct (py_getattr o name) as [[c|]|e] eqn:Hg; simpl; try discriminate.
    intros [= ->].
    pose proof (proj1 (py_getattr_module_iff _ _ _) Hg) as (Hc & Hd & Hp & Hm).
    by apply Hset.
  - destruct (PyStr.py_int name) as [idx|e]; simpl; [|discriminate].
    unfold py_getitem, py_setitem.
    destruct (m_kind o) eqn:Hk; try discriminate.
    destruct (abs_string_index o idx) as [key|e] eqn:Hkey; simpl;
      [|discriminate].
    destruct (lookup_module (m_modules o) key) as [c|] eqn:Hm;
      [|discriminate].
    intros [= ->]. by apply Hset.
Qed.

Section WellFormedHeap.
Variable h : heap.
Variable rank : ref -> nat.
Hypothesis Hwf : heap_wf h rank.

(** The walk from a module reads only that module and modules below. *)
Lemma walk_below (h' : heap) (atoms : list string) : forall r,
  (forall r' o', rank r' <= rank r -> h !! r' = Some o' ->
                 h' !! r' = Some o') ->
  is_Some (h !! r) -> walk h' r atoms = walk h r atoms.
Proof.
  induction atoms as [|a rest IH]; intros r Hag [o Hr]; [reflexivity|].
  simpl. unfold deref. rewrite Hr, (Hag r o) by (lia || done). simpl.
  destruct (py_hasattr o a); simpl; [|reflexivity].
  destruct (py_getattr o a) as [[c|]|e] eqn:Hg; simpl; try reflexivity.
  apply py_getattr_module in Hg as (_ & _ & Hc).
  destruct (heap_wf_child h rank Hwf r c o a Hr Hc) as (Hsome & Hlt & _).
  apply IH; [|done]. intros r' o' Hle. apply Hag. lia.
Qed.

(** So does the forward pass. *)
Lemma forward_below (h' : heap) (fuel : nat) : forall r x,
  (forall r' o', rank r' <= rank r -> h !! r' = Some o' ->
                 h' !! r' = Some o') ->
  is_Some (h !! r) -> forward fuel h' r x = forward fuel h r x.
Proof.
  induction fuel as [|fuel IH]; intros r x Hag [o Hr]; [reflexivity|].
  simpl. unfold deref. rewrite Hr, (Hag r o) by (lia || done). simpl.
  destruct (m_kind o) as [body| |projection has_leftover].
  - f_equal. extensionality path. extensionality v.
    unfold get_submodule.
    destruct (decide (path = EmptyString)) as [_|_]; simpl.
    + apply IH; eauto.
    + rewrite walk_below by eauto.
      destruct (walk h r (PyStr.split_on "." path)) as [c|e] eqn:Hw;
        simpl; [|reflexivity].
      apply IH.
      * intros r' o' Hle. apply Hag.
        destruct (walk_rank h rank Hwf _ _ _ Hw) as [Hc _]. lia.
      * eapply (walk_allocated h rank Hwf); eauto.
  - reflexivity.
  - destruct (py_getattr o "wrapped_module") as [[w|]|e] eqn:Hg; simpl;
      try reflexivity.
    apply py_getattr_module in Hg as (_ & _ & Hc).
    destruct (heap_wf_child h rank Hwf r w o _ Hr Hc) as (Hsome & Hlt & _).
    rewrite IH; [reflexivity| |done].
    intros r' o' Hle. apply Hag. lia.
Qed.

(** X24. After a patch that succeeds, the slot designated by
    [module_name] holds a new module, and calling it applies [projection]
    to the hidden states returned by [old_module.wrapped_module], as the
    heap had it before the patch: the wrapper replaces [old_module], it
    does not wrap it.  An exception of the wrapped module is the exception
    of the call; with [has_leftover] the first item of what the wrapped
    module returns is projected and the other items are kept; without
    [has_leftover] a tensor returned by the wrapped module is projected.
    (Without [has_leftover] the code hands whatever the wrapped module
    returns to [projection]; what a projection makes of a tuple is not
    stated here.) *)
Theorem patched_slot_projects (model old_module : ref)
    (module_name : string) (projection : tensor -> result tensor)
    (has_leftover : bool) (o_old : module_obj) (inner : ref) :
  resolved_slot h model module_name = Ok old_module ->
  h !! old_module = Some o_old ->
  py_getattr o_old "wrapped_module" = Ok (AModule inner) ->
  let patched := edit_model_inplace model old_module module_name
                   projection has_leftover h in
  patched.1 = Ok tt ->
  let new_module := fresh (dom h) in
  h !! new_module = None
  /\ resolved_slot patched.2 model module_name = Ok new_module
  /\ (forall fuel x e,
        forward fuel h inner x = Raise e ->
        forward (S fuel) patched.2 new_module x = Raise e)
  /\ (forall fuel x y,
        has_leftover = true ->
        forward fuel h inner x = Ok y ->
        forward (S fuel) patched.2 new_module x
        = let? hl := unpack y in
          let? hidden_states := projection hl.1 in
          Ok (VTuple (hidden_states :: hl.2)))
  /\ (forall fuel x hidden_states,
        has_leftover = false ->
        forward fuel h inner x = Ok (VTensor hidden_states) ->
        forward (S fuel) patched.2 new_module x
        = let? hidden_states := projection hidden_states in
          Ok (VTensor hidden_states)).
Proof.
  intros Hslot Hold Hinner patched Hp new_module. subst patched new_module.
  unfold resolved_slot in Hslot |- *.
  unfold edit_model_inplace, resolve_parent, mbind in *.
  set (name := List.last (PyStr.split_on "." module_name) EmptyString) in *.
  set (parent_name :=
         PyStr.join "." (removelast (PyStr.split_on "." module_name))) in *.
  destruct (get_submodule h model parent_name) as [parent|e] eqn:Hgs;
    simpl in Hslot; [|discriminate].
  unfold deref in Hslot.
  destruct (h !! parent) as [o|] eqn:Hparent; simpl in Hslot;
    [|discriminate].
  unfold ProjectionWrapper_init, deref in *. rewrite Hold in *.
  simpl in *. rewrite Hinner in *. simpl in *.
  set (w := mkModule (ProjectionWrapper projection has_leftover)
              nn_module_class ["projection"; "has_leftover"]%string []
              [("wrapped_module"%string, inner)]) in *.
  set (new := fresh (dom h)) in *.
  assert (Hnew : h !! new = None) by apply not_elem_of_dom, is_fresh.
  assert (Hsub : h ⊆ <[new := w]> h) by by apply insert_subseteq.
  assert (Hne : new <> parent) by congruence.
  rewrite (get_submodule_agree h rank Hwf (<[new := w]> h) model parent
             parent_name Hgs) in Hp |- *.
  2,3: intros r' o' _ Hr'; eapply lookup_weaken; eauto.
  simpl in Hp |- *.
  assert (Hassign : assign_slot parent name new (<[new := w]> h)
            = match write_slot o name new with
              | Ok o' => (Ok tt, <[parent := o']> (<[new := w]> h))
              | Raise e => (Raise e, <[new := w]> h)
              end).
  { unfold assign_slot, deref. by rewrite lookup_insert_ne, Hparent. }
  rewrite Hassign in Hp |- *. clear Hassign.
  destruct (write_slot o name new) as [o1|e] eqn:Hw1; [|discriminate].
  simpl.
  destruct (write_then_read o o1 name old_module new) as (Hread & key & Hkey);
    try done.
  { intros k c Hk. by apply (heap_wf_child h rank Hwf parent c o k). }
  destruct (heap_wf_child h rank Hwf parent old_module o key Hparent Hkey)
    as (_ & Hlt_old & _).
  apply py_getattr_module in Hinner as (_ & _ & Hin).
  destruct (heap_wf_child h rank Hwf old_module inner o_old _ Hold Hin)
    as (Hsome_in & Hlt_in & _).
  assert (Hcall : forall fuel x,
    forward (S fuel) (<[parent := o1]> (<[new := w]> h)) new x
    = let? y := forward fuel h inner x in
      if has_leftover then
        let? hl := unpack y in
        let? hidden_states := projection hl.1 in
        Ok (VTuple (hidden_states :: hl.2))
      else
        match y with
        | VTensor hidden_states =>
            let? hidden_states := projection hidden_states in
            Ok (VTensor hidden_states)
        | VTuple _ => Raise TypeError
        end).
  { intros fuel x. cbn [forward]. unfold deref.
    rewrite lookup_insert_ne, lookup_insert_eq by done. cbn [rbind m_kind w].
    change (py_getattr w "wrapped_module") with (Ok (AModule inner)).
    cbn [rbind].
    rewrite forward_below; [reflexivity| |done].
    intros r' o' Hle Hr'. rewrite !lookup_insert_ne; [done|congruence|].
    intros ->. lia. }
  split; [exact Hnew|]. split; [|split; [|split]].
  - rewrite (get_submodule_agree h rank Hwf
               (<[parent := o1]> (<[new := w]> h)) model parent parent_name
               Hgs).
    2:{ intros r' o' Hlt Hr'. rewrite !lookup_insert_ne; [done|congruence|].
        intros ->. lia. }
    simpl. unfold deref. by rewrite lookup_insert_eq.
  - intros fuel x e He. etrans; [exact (Hcall fuel x)|]. by rewrite He.
  - intros fuel x y -> Hy. etrans; [exact (Hcall fuel x)|]. by rewrite Hy.
  - intros fuel x t -> Hy. etrans; [exact (Hcall fuel x)|]. by rewrite Hy.
Qed.

(** X25. [recover_model_inplace] on a slot that already holds
    [old_module] leaves the heap as it is; it returns, or raises
    [TypeError] when the key of the slot is also the name of a
    parameter. *)
Theorem recover_unpatched (model old_module : ref) (module_name : string) :
  resolved_slot h model module_name = Ok old_module ->
  let undone := recover_model_inplace model old_module module_name h in
  undone.2 = h /\ (undone.1 = Ok tt \/ undone.1 = Raise TypeError).
Proof.
  intros Hslot undone. subst undone.
  unfold resolved_slot in Hslot.
  unfold recover_model_inplace, resolve_parent, mbind, assign_slot.
  destruct (get_submodule h model _) as [parent|e] eqn:Hgs;
    simpl in Hslot; [|discriminate].
  simpl. unfold deref in *.
  destruct (h !! parent) as [o|] eqn:Hparent; simpl in *; [|discriminate].
  assert (Hdisj : forall k c, lookup_module (m_modules o) k = Some c ->
                    k ∉ m_dict o).
  { intros k c Hk. by apply (heap_wf_child h rank Hwf parent c o k). }
  destruct (write_slot_same o _ old_module Hdisj Hslot) as [->| ->].
  - simpl. split; [|by left]. by apply insert_id.
  - simpl. split; [reflexivity|by right].
Qed.
End WellFormedHeap.

(** *** On the three-module model *)

Section ThreeModules.
Import Examples.

(** A path that does not exist: the wrapper is built, then the patch
    raises. *)
Lemma edit_failure_keeps_modules_witness :
  (edit_model_inplace 0 1 "nope" Ok false heap0).1
  = Raise (IntParseError "nope")
  /\ forall r o, heap0 !! r = Some o ->
       (edit_model_inplace 0 1 "nope" Ok false heap0).2 !! r = Some o.
Proof.
  split; [reflexivity|].
  apply (edit_failure_keeps_modules 0 1 "nope" Ok false heap0
           (IntParseError "nope")).
  reflexivity.
Defined.

Lemma patched_slot_projects_witness :
  let patched := edit_model_inplace 0 1 "layer" Ok true heap0 in
  let new_module := fresh (dom heap0) in
  heap0 !! new_module = None
  /\ resolved_slot patched.2 0 "layer" = Ok new_module
  /\ (forall fuel x e,
        forward fuel heap0 2 x = Raise e ->
        forward (S fuel) patched.2 new_module x = Raise e)
  /\ (forall fuel x y,
        true = true ->
        forward fuel heap0 2 x = Ok y ->
        forward (S fuel) patched.2 new_module x
        = let? hl := unpack y in
          let? hidden_states := Ok hl.1 in
          Ok (VTuple (hidden_states :: hl.2)))
  /\ (forall fuel x hidden_states,
        true = false ->
        forward fuel heap0 2 x = Ok (VTensor hidden_states) ->
        forward (S fuel) patched.2 new_module x
        = let? hidden_states := Ok hidden_states in
          Ok (VTensor hidden_states)).
Proof.
  apply (patched_slot_projects heap0 rank0 heap0_wf 0 1 "layer" Ok true
           wrapper0 2);
    reflexivity.
Defined.

Lemma recover_unpatched_witness :
  let undone := recover_model_inplace 0 1 "layer" heap0 in
  undone.2 = heap0 /\ (undone.1 = Ok tt \/ undone.1 = Raise TypeError).
Proof.
  apply (recover_unpatched heap0 rank0 heap0_wf 0 1 "layer").
  reflexivity.
Defined.
End ThreeModules.

End PatchMore.

(** ** [project_cone]: outside the cones *)

Module ConeMore.
Import Tensor Projection TensorFacts ProjectFacts ConfusionFacts ProjectMore.
Local Open Scope R_scope.
Local Open Scope result_scope.

(** *** Expanding a tensor that holds one value *)

Lemma reshape_replicate_const {A} (m n : nat) (c : A) :
  reshape (replicate m n) (replicate (m * n) c) = replicate m (replicate n c).
Proof.
  induction m as [|m IH]; [reflexivity|].
  cbn [replicate reshape Nat.mul]. rewrite replicate_add.
  rewrite take_app_length' by (by rewrite length_replicate).
  rewrite drop_app_length' by (by rewrite length_replicate).
  by rewrite IH.
Qed.

Lemma expand_replicate (c : R) (src tgt : list nat) :
  Forall2 (fun s t => s = t \/ s = 1%nat) src tgt ->
  expand src tgt (replicate (numel src) c) = replicate (numel tgt) c.
Proof.
  induction 1 as [|a b l1 l2 Hst _ IH]; [reflexivity|].
  cbn [expand]. change (numel (a :: l1)) with (a * numel l1)%nat.
  change (numel (b :: l2)) with (b * numel l2)%nat.
  destruct (Nat.eqb_spec a b) as [->|Hne].
  - rewrite reshape_replicate_const, fmap_replicate, IH.
    apply mjoin_replicate_replicate.
  - destruct Hst as [? | ->]; [done|]. rewrite Nat.mul_1_l, IH.
    apply mjoin_replicate_replicate.
Qed.

Lemma broadcast_shapes_last1 (lead : list nat) (h : nat) :
  broadcast_shapes (lead ++ [h]) (lead ++ [1%nat]) = Some (lead ++ [h]).
Proof.
  induction lead as [|d lead IH]; simpl.
  - destruct (Nat.eqb_spec h 1); reflexivity.
  - by rewrite IH, Nat.eqb_refl.
Qed.

(** [a op z[..., None]] when [z] holds one value. *)
Lemma broadcast2_const_last (f : R -> R -> R) (lead : list nat) (h : nat)
    (da : list R) (c : R) :
  length da = numel (lead ++ [h]) ->
  broadcast2 f (mkTensor (lead ++ [h]) da)
    (mkTensor (lead ++ [1%nat]) (replicate (numel lead) c))
  = Ok (mkTensor (lead ++ [h]) (map (fun x => f x c) da)).
Proof.
  intros Hda. unfold broadcast2. simpl.
  rewrite !length_app. simpl. rewrite Nat.max_id.
  replace (length lead + 1)%nat with (length (lead ++ [h]))
    by (rewrite length_app; reflexivity).
  rewrite pad_shape_same.
  replace (length (lead ++ [h])) with (length (lead ++ [1%nat]))
    by (rewrite !length_app; reflexivity).
  rewrite pad_shape_same, broadcast_shapes_last1.
  rewrite expand_same by exact Hda.
  replace (numel lead) with (numel (lead ++ [1%nat]))
    by (rewrite numel_app; simpl; lia).
  rewrite expand_replicate.
  - by rewrite <- Hda, zip_with_replicate_r.
  - clear. induction lead as [|d lead IH]; simpl.
    + constructor; [by right|constructor].
    + constructor; [by left|exact IH].
Qed.

Lemma reshape_fmap {A B} (g : A -> B) (szs : list nat) : forall l,
  reshape szs (map g l) = map (map g) (reshape szs l).
Proof.
  induction szs as [|n szs IH]; intros l; simpl; [reflexivity|].
  by rewrite <- fmap_take, <- fmap_drop, IH.
Qed.

Lemma map_mult_zero (l : list R) :
  map (fun x => x * 0) l = replicate (length l) 0.
Proof.
  induction l as [|x l IH]; simpl; [reflexivity|]. rewrite IH. f_equal. lra.
Qed.

(** *** One step of the loop *)

Section Step.
Variable X dirs : tensor.
Variable lead : list nat.
Variables n h : nat.
Variable gamma : R.
Hypothesis HX : tensor_wf X.
Hypothesis Hd : tensor_wf dirs.
Hypothesis HsX : shape X = lead ++ [h].
Hypothesis Hsd : shape dirs = [n; h].
Hypothesis Hout : forall x d, x ∈ rows h X -> d ∈ rows h dirs ->
  outside_cone gamma d x.

Lemma cone_step_outside (i : nat) :
  (i < n)%nat -> cone_step dirs gamma i X = Ok X.
Proof.
  intros Hi.
  destruct (rows_length X lead h HX HsX) as (HlX & HallX & HjX).
  destruct (rows_dirs dirs n h Hd Hsd) as (HlD & HallD).
  destruct (rows_length dirs [n] h Hd Hsd) as (_ & _ & HjD).
  (* the direction *)
  set (k := (n - 1 - i)%nat).
  destruct (lookup_lt_is_Some_2 (rows h dirs) k) as [d Hk]; [lia|].
  assert (Hidx : tindex dirs (- (Z.of_nat i + 1)) = Ok (mkTensor [h] d)).
  { unfold tindex. rewrite Hsd.
    replace ((- Z.of_nat n <=? - (Z.of_nat i + 1))%Z
             && (- (Z.of_nat i + 1) <? Z.of_nat n)%Z) with true
      by (symmetry; apply andb_true_iff; split;
          [apply Z.leb_le|apply Z.ltb_lt]; lia).
    replace (- (Z.of_nat i + 1) <? 0)%Z with true
      by (symmetry; apply Z.ltb_lt; lia).
    replace (Z.to_nat (- (Z.of_nat i + 1) + Z.of_nat n)) with k
      by (unfold k; lia).
    rewrite numel_singleton, <- HjD.
    by rewrite (block_of_mjoin _ h k d HallD Hk). }
  assert (Hdin : d ∈ rows h dirs) by (by eapply list_elem_of_lookup_2).
  assert (Hdl : length d = h)
    by (by apply (proj1 (Forall_forall _ _) HallD)).
  (* norms and cosines *)
  assert (HrX : rows h X = reshape (replicate (numel lead) h) (data X)).
  { unfold rows. by rewrite HsX, removelast_snoc. }
  set (norms := map sqrt (map (foldr Rplus 0)
                  (map (map (fun x => x * x)) (rows h X)))).
  set (dots := map (fun v => dot v d) (rows h X)).
  assert (Hnorms : tmap sqrt (tsum_last (tmap (fun x => x * x) X))
                   = mkTensor lead norms).
  { unfold tsum_last.
    rewrite (last_dim_snoc (tmap (fun x => x * x) X) lead h) by exact HsX.
    unfold tmap, rows. cbn [shape data].
    by rewrite HsX, removelast_snoc, reshape_fmap, <- HrX. }
  assert (Hdots : einsum_h_h X (mkTensor [h] d) = Ok (mkTensor lead dots)).
  { unfold einsum_h_h. cbn [shape data].
    rewrite (last_dim_snoc X lead h HsX), Nat.eqb_refl.
    by rewrite HsX, removelast_snoc. }
  assert (Hln : length norms = numel lead)
    by (unfold norms; by rewrite !length_map).
  assert (Hld : length dots = numel lead)
    by (unfold dots; by rewrite length_map).
  set (cosines := zip_with Rdiv dots norms).
  assert (Hcos : cosines = map (cosine d) (rows h X)).
  { unfold cosines, dots, norms. rewrite !map_map.
    rewrite zip_with_fmap_l, zip_with_fmap_r, zip_with_diag.
    reflexivity. }
  assert (Hlc : length cosines = numel lead)
    by (rewrite Hcos; by rewrite length_map).
  assert (Hcosines : tdivt (mkTensor lead dots) (mkTensor lead norms)
                     = Ok (mkTensor lead cosines)).
  { unfold tdivt. by rewrite broadcast2_same_shape. }
  clearbody cosines norms dots.
  unfold cone_step. rewrite Hidx, Hnorms. cbn [rbind]. cbv zeta.
  rewrite Hdots. cbn [rbind]. rewrite Hcosines. cbn [rbind].
  unfold einsum_outer. cbn [shape data rbind].
  unfold tdivt. rewrite broadcast2_scalar by (unfold tensor_wf; simpl;
    by rewrite length_map).
  cbn [rbind shape data tmap].
  unfold tsub at 1. rewrite broadcast2_same_shape;
    [|done|unfold tensor_wf; simpl; by rewrite !length_map|done].
  cbn [rbind shape data].
  unfold tmul at 1. rewrite broadcast2_same_shape;
    [|unfold tensor_wf; simpl; rewrite length_zip_with, !length_map; lia
     |unfold tensor_wf; simpl; by rewrite length_map|done].
  cbn [rbind shape data].
  (* the coefficients are all zero *)
  set (diff := zip_with Rminus cosines _).
  assert (Hcoef : zip_with Rmult diff (map (in_cone gamma) cosines)
                  = replicate (numel lead) 0).
  { assert (Hmask : map (in_cone gamma) cosines
                    = replicate (length cosines) 0).
    { rewrite Hcos, length_map, map_map.
      clear -Hout Hdin. induction (rows h X) as [|x l IH]; [reflexivity|].
      simpl. rewrite IH by (intros x' d' Hx'; apply Hout; by right).
      f_equal. unfold in_cone.
      destruct (Rlt_dec (cos gamma) (Rabs (cosine d x))) as [Hlt|_];
        [|reflexivity].
      specialize (Hout x d (list_elem_of_here _ _) Hdin).
      unfold outside_cone in Hout. lra. }
    rewrite Hmask.
    replace (length cosines) with (length diff)
      by (unfold diff; rewrite length_zip_with, !length_map; lia).
    rewrite zip_with_replicate_r, map_mult_zero.
    unfold diff. rewrite length_zip_with, !length_map. f_equal. lia. }
  change (data (tmap (in_cone gamma) (mkTensor lead cosines)))
    with (map (in_cone gamma) cosines).
  rewrite Hcoef. unfold tunsqueeze_last. cbn [shape data].
  unfold tmul.
  assert (Hlo : length (mjoin (map (fun n0 => map (fun dk => dk * n0) d)
                                 norms)) = numel (lead ++ [h])).
  { rewrite (length_mjoin_const _ h).
    - rewrite length_map, Hln, numel_app, numel_singleton. reflexivity.
    - apply Forall_map, Forall_forall. intros x _. simpl.
      by rewrite length_map. }
  rewrite broadcast2_const_last by exact Hlo. cbn [rbind].
  unfold tsub. rewrite broadcast2_same_shape; [| done | | done].
  2:{ unfold tensor_wf. simpl. by rewrite length_map. }
  cbn [shape data]. rewrite map_mult_zero.
  rewrite zip_minus_zeros.
  - by destruct X.
  - rewrite length_replicate, Hlo. unfold tensor_wf in HX. by rewrite HX, HsX.
  - by apply Forall_replicate.
Qed.

Lemma cone_loop_outside (m : nat) : forall i,
  (i + m <= n)%nat -> cone_loop dirs gamma m i X = Ok X.
Proof.
  induction m as [|m IH]; intros i Hi; [reflexivity|].
  simpl. rewrite cone_step_outside by lia. simpl. apply IH. lia.
Qed.
End Step.

(** X26. [project_cone] returns its input when every vector of [X] is
    outside the cone of angle [gamma] around every direction.  (The
    vectors are nonzero: for the zero vector torch divides by zero and
    yields nan, which real numbers do not model.) *)
Theorem project_cone_outside (X dirs : tensor) (lead : list nat)
    (n h : nat) (gamma : R) :
  0 < gamma < PI / 2 ->
  tensor_wf X -> tensor_wf dirs ->
  shape X = lead ++ [h] -> shape dirs = [n; h] ->
  (forall x d, x ∈ rows h X -> d ∈ rows h dirs ->
     sqrt (foldr Rplus 0 (map (fun a => a * a) x)) <> 0
     /\ outside_cone gamma d x) ->
  project_cone X dirs gamma = Ok X.
Proof.
  intros [Hg0 Hg1] HX Hd HsX Hsd Hout. unfold project_cone.
  destruct (Rle_dec gamma 0) as [?|_]; [lra|].
  destruct (Rge_dec gamma (PI / 2)) as [?|_]; [lra|].
  rewrite Hsd.
  apply (cone_loop_outside X dirs lead n h gamma); try done.
  intros x d Hx Hdin. by apply Hout.
Qed.

(** A vector at a right angle to the only direction. *)
Lemma project_cone_outside_witness :
  project_cone (mkTensor [1; 2]%nat [1; 0]) (mkTensor [1; 2]%nat [0; 1])
    (PI / 4)
  = Ok (mkTensor [1; 2]%nat [1; 0]).
Proof.
  pose proof PI_RGT_0 as Hpi.
  apply (project_cone_outside (mkTensor [1; 2]%nat [1; 0])
           (mkTensor [1; 2]%nat [0; 1]) [1%nat] 1 2 (PI / 4));
    [lra|reflexivity|reflexivity|reflexivity|reflexivity|].
  intros x d Hx Hd.
  apply list_elem_of_singleton in Hx, Hd. subst x d. cbn [take data].
  assert (Hn : sqrt (foldr Rplus 0 (map (fun a => a * a) [1; 0])) = 1).
  { simpl. replace (1 * 1 + (0 * 0 + 0)) with 1 by lra. apply sqrt_1. }
  split; [rewrite Hn; lra|].
  unfold outside_cone, cosine. rewrite Hn. unfold dot. simpl.
  replace ((1 * 0 + (0 * 1 + 0)) / 1) with 0 by lra.
  rewrite Rabs_R0. left. apply cos_gt_0; lra.
Defined.

End ConeMore.

(** ** [project_cone], vector by vector *)

Module ConeRows.
Import Tensor Projection TensorFacts ProjectFacts ConfusionFacts ProjectMore.
Import ConeMore.
Local Open Scope R_scope.
Local Open Scope result_scope.

(** *** Broadcasting along the last axis *)





(** *** One step of the loop, row by row *)

Section StepRows.
Variable X dirs : tensor.
Variable lead : list nat.
Variables n h : nat.
Variable gamma : R.
Hypothesis HX : tensor_wf X.
Hypothesis Hd : tensor_wf dirs.
Hypothesis HsX : shape X = lead ++ [h].
Hypothesis Hsd : shape dirs = [n; h].


End StepRows.



(** *** One vector and one direction *)

Lemma dot_map_scale (K : R) (d w : list R) :
  dot (map (fun dk => dk * K) d) w = K * dot d w.
Proof.
  revert w. induction d as [|a d IH]; intros [|b w]; unfold dot in *; simpl;
    try lra.
  rewrite IH. lra.
Qed.

Lemma zip_minus_along (x d : list R) (K a : R) :
  zip_with Rminus (zip_with Rminus x (map (fun dk => dk * K) d))
    (vscale (a - K) d)
  = zip_with Rminus x (vscale a d).
Proof.
  revert d. induction x as [|b x IH]; intros [|c d]; try reflexivity.
  simpl. rewrite IH. f_equal. lra.
Qed.

(** X28. One step of [project_cone] on a (nonzero) vector inside the cone
    around a unit direction [d]: the vector moves along [d] only, its part
    orthogonal to [d] is kept, and its component along [d] becomes
    [norm(x) * sin / tan(gamma)], where [sin = sqrt(1 - cos^2)] is the sine
    of its angle to [d]: the vector is brought onto the cone. *)
Theorem cone_row_onto_cone (gamma : R) (d x : list R) :
  length d = length x -> dot d d = 1 ->
  sqrt (foldr Rplus 0 (map (fun a => a * a) x)) <> 0 ->
  cos gamma < Rabs (cosine d x) ->
  let y := cone_row gamma d x in
  let c := cosine d x in
  dot y d
  = sqrt (foldr Rplus 0 (map (fun a => a * a) x)) * sqrt (1 - c * c)
    / tan gamma
  /\ zip_with Rminus y (vscale (dot y d) d)
     = zip_with Rminus x (vscale (dot x d) d).
Proof.
  intros Hl Hunit Hn Hin y c. subst y.
  set (nx := sqrt (foldr Rplus 0 (map (fun a => a * a) x))) in *.
  unfold cone_row. fold nx. cbv zeta. fold c.
  assert (Hmask : in_cone gamma c = 1).
  { unfold in_cone. by destruct (Rlt_dec (cos gamma) (Rabs c)). }
  rewrite Hmask.
  set (K := nx * ((c - sqrt (1 - c * c) / tan gamma) * 1)).
  assert (Hmap : map (fun dk => dk * nx
                         * ((c - sqrt (1 - c * c) / tan gamma) * 1)) d
                 = map (fun dk => dk * K) d).
  { apply map_ext. intros dk. unfold K. lra. }
  rewrite Hmap.
  assert (Hdot : dot (zip_with Rminus x (map (fun dk => dk * K) d)) d
                 = dot x d - K).
  { rewrite dot_vsub by (by rewrite length_map).
    rewrite dot_map_scale, Hunit. lra. }
  assert (Hc : dot x d = c * nx).
  { unfold c, cosine. fold nx. field. exact Hn. }
  split.
  - rewrite Hdot, Hc. unfold K, Rdiv. ring.
  - rewrite Hdot. apply zip_minus_along.
Qed.

Lemma cone_row_onto_cone_witness :
  let gamma := PI / 4 in
  let d := [1; 0] in
  let x := [1; 0] in
  let y := cone_row gamma d x in
  let c := cosine d x in
  dot y d
  = sqrt (foldr Rplus 0 (map (fun a => a * a) x)) * sqrt (1 - c * c)
    / tan gamma
  /\ zip_with Rminus y (vscale (dot y d) d)
     = zip_with Rminus x (vscale (dot x d) d).
Proof.
  intros gamma d x.
  assert (Hn : sqrt (foldr Rplus 0 (map (fun a => a * a) x)) = 1).
  { unfold x. simpl. replace (1 * 1 + (0 * 0 + 0)) with 1 by lra.
    apply sqrt_1. }
  apply (cone_row_onto_cone gamma d x).
  - reflexivity.
  - unfold d, dot. simpl. lra.
  - rewrite Hn. lra.
  - unfold cosine. rewrite Hn. unfold x, d, dot. simpl.
    replace ((1 * 1 + (0 * 0 + 0)) / 1) with 1 by lra.
    rewrite Rabs_R1. unfold gamma. rewrite cos_PI4.
    assert (H2 : 1 < sqrt 2).
    { rewrite <- sqrt_1 at 1. apply sqrt_lt_1; lra. }
    apply (Rmult_lt_reg_r (sqrt 2)); [lra|].
    unfold Rdiv. rewrite Rmult_assoc, Rinv_l by lra. lra.
Defined.


End ConeRows.

(** ** Dotted paths: the slot of a submodule *)

Module PathFacts.
Import Tensor Hooks Patch PatchFacts.
Local Open Scope result_scope.

(** *** Splitting and joining a dotted path *)

Lemma string_app_cons (c : ascii) (s t : string) :
  String c s +:+ t = String c (s +:+ t).
Proof. reflexivity. Qed.

Lemma string_app_nil_r (s : string) : s +:+ EmptyString = s.
Proof.
  induction s as [|c s IH]; [reflexivity|]. by rewrite string_app_cons, IH.
Qed.

Lemma string_app_assoc (s t u : string) : (s +:+ t) +:+ u = s +:+ (t +:+ u).
Proof.
  induction s as [|c s IH]; [reflexivity|]. by rewrite !string_app_cons, IH.
Qed.

Lemma snoc_app (w : string) (c : ascii) (s : string) :
  PyStr.snoc w c +:+ s = w +:+ String c s.
Proof. unfold PyStr.snoc. by rewrite string_app_assoc. Qed.

Lemma chars_app (s t : string) :
  list_ascii_of_string (s +:+ t)
  = list_ascii_of_string s ++ list_ascii_of_string t.
Proof.
  induction s as [|c s IH]; [reflexivity|].
  rewrite string_app_cons. simpl. by rewrite IH.
Qed.

(** The atoms of [s.split(sep)] do not contain the separator. *)
Lemma split_on_go_atoms (sep : ascii) (s : string) : forall w,
  sep ∉ list_ascii_of_string w ->
  Forall (fun a => sep ∉ list_ascii_of_string a) (PyStr.split_on_go sep w s).
Proof.
  induction s as [|c s IH]; intros w Hw; simpl.
  - by constructor.
  - destruct (decide (c = sep)) as [->|Hne].
    + constructor; [exact Hw|]. apply IH. apply not_elem_of_nil.
    + apply IH. unfold PyStr.snoc. rewrite chars_app. simpl.
      rewrite elem_of_app, list_elem_of_singleton. intros [?|?]; congruence.
Qed.

(** Splitting an atom, and an atom followed by the separator. *)
Lemma split_on_go_atom (sep : ascii) (a : string) : forall w,
  sep ∉ list_ascii_of_string a ->
  PyStr.split_on_go sep w a = [w +:+ a].
Proof.
  induction a as [|c a IH]; intros w Ha; simpl.
  - by rewrite string_app_nil_r.
  - simpl in Ha. apply not_elem_of_cons in Ha as [Hc Ha].
    rewrite decide_False by congruence. rewrite IH by exact Ha.
    by rewrite snoc_app.
Qed.

Lemma split_on_go_atom_sep (sep : ascii) (a rest : string) : forall w,
  sep ∉ list_ascii_of_string a ->
  PyStr.split_on_go sep w (a +:+ String sep rest)
  = (w +:+ a) :: PyStr.split_on_go sep EmptyString rest.
Proof.
  induction a as [|c a IH]; intros w Ha;
    [change (EmptyString +:+ String sep rest) with (String sep rest)
    |rewrite string_app_cons]; simpl.
  - rewrite decide_True by done. by rewrite string_app_nil_r.
  - simpl in Ha. apply not_elem_of_cons in Ha as [Hc Ha].
    rewrite decide_False by congruence. rewrite IH by exact Ha.
    by rewrite snoc_app.
Qed.

(** [sep.join(l).split(sep)] gives back a nonempty list of atoms. *)
Lemma split_join (l : list string) :
  l <> [] -> Forall (fun a => "."%char ∉ list_ascii_of_string a) l ->
  PyStr.split_on "." (PyStr.join "." l) = l.
Proof.
  unfold PyStr.split_on, PyStr.join.
  induction l as [|a l IH]; intros Hne Hall; [done|].
  apply Forall_cons in Hall as [Ha Hall].
  destruct l as [|b l].
  - simpl. by rewrite split_on_go_atom.
  - change (String.concat "." (a :: b :: l))
      with (a +:+ String "." (String.concat "." (b :: l))).
    rewrite split_on_go_atom_sep by exact Ha. simpl (_ +:+ a).
    by rewrite IH.
Qed.

Lemma join_empty (l : list string) :
  PyStr.join "." l = EmptyString -> l = [] \/ l = [EmptyString].
Proof.
  unfold PyStr.join. destruct l as [|a [|b l]]; [by left| |].
  - simpl. intros ->. by right.
  - change (String.concat "." (a :: b :: l))
      with (a +:+ String "." (String.concat "." (b :: l))).
    intros H. apply (f_equal String.length) in H.
    rewrite PrintingMore.string_length_app in H. simpl in H. lia.
Qed.

(** *** The walk *)

Lemma walk_app (h : heap) (l1 l2 : list string) : forall r,
  walk h r (l1 ++ l2) = let? p := walk h r l1 in walk h p l2.
Proof.
  induction l1 as [|a l1 IH]; intros r; [reflexivity|].
  simpl. destruct (deref h r) as [o|e]; simpl; [|reflexivity].
  destruct (negb (py_hasattr o a)); [reflexivity|].
  destruct (py_getattr o a) as [[c|]|e]; simpl; try reflexivity.
  apply IH.
Qed.

(** X29. The slot that [edit_model_inplace] and [recover_model_inplace]
    resolve for [module_name] holds [model.get_submodule(module_name)]:
    a caller that passes that module as [old_module] passes the module of
    the slot.  (No module has an attribute with the empty name.) *)
Theorem get_submodule_slot (h : heap) (model r : ref)
    (module_name : string) :
  module_name <> EmptyString ->
  map_Forall (fun _ o => py_hasattr o EmptyString = false) h ->
  get_submodule h model module_name = Ok r ->
  resolved_slot h model module_name = Ok r.
Proof.
  intros Hne Hnoempty. unfold get_submodule, resolved_slot.
  rewrite decide_False by exact Hne.
  pose proof (split_on_go_nonempty "." module_name EmptyString) as Hatoms.
  pose proof (split_on_go_atoms "." module_name EmptyString
                (not_elem_of_nil _)) as Hall.
  fold (PyStr.split_on "." module_name) in Hatoms, Hall.
  set (atoms := PyStr.split_on "." module_name) in *.
  rewrite (app_removelast_last EmptyString Hatoms) at 1.
  rewrite (app_removelast_last EmptyString Hatoms) in Hall.
  set (init := removelast atoms) in *.
  set (name := List.last atoms EmptyString) in *.
  apply Forall_app in Hall as [Hinit _].
  rewrite walk_app.
  destruct (walk h model init) as [parent|e] eqn:Hw; simpl; [|discriminate].
  intros Hlast.
  assert (Hparent : get_submodule h model (PyStr.join "." init) = Ok parent).
  { unfold get_submodule.
    destruct (decide (PyStr.join "." init = EmptyString)) as [Hj|Hj].
    - apply join_empty in Hj as [Hj|Hj]; rewrite Hj in Hw.
      + by injection Hw as ->.
      + exfalso. simpl in Hw. unfold deref in Hw.
        destruct (h !! model) as [o|] eqn:Hm; simpl in Hw; [|discriminate].
        rewrite (map_Forall_lookup_1 _ _ _ _ Hnoempty Hm) in Hw.
        discriminate.
    - rewrite split_join; [exact Hw| |exact Hinit].
      intros Hnil. rewrite Hnil in Hj. by apply Hj. }
  rewrite Hparent. simpl. simpl in Hlast.
  destruct (deref h parent) as [o|e]; simpl in *; [|discriminate].
  unfold read_slot.
  destruct (py_hasattr o name); simpl in *; [|discriminate].
  destruct (py_getattr o name) as [[c|]|e]; simpl in *; try discriminate.
  exact Hlast.
Qed.

Lemma get_submodule_slot_witness :
  get_submodule Examples.heap0 0 "layer.wrapped_module" = Ok 2
  /\ resolved_slot Examples.heap0 0 "layer.wrapped_module" = Ok 2.
Proof.
  split; [reflexivity|].
  apply (get_submodule_slot Examples.heap0 0 2 "layer.wrapped_module");
    [discriminate|by apply (bool_decide_unpack _)|reflexivity].
Defined.

End PathFacts.
